(** * TETRIS-VS-AI: board, piece and move-search core of [src/main.py]

    A shallow embedding of the game core (classes [Tetromino],
    [TetrisPlayer], [AIPlayer] and the methods [is_valid_move],
    [lock_piece], [save_scores], [run] of [TetrisGame]) together with the
    properties of the specification that concern it.

    Modelling conventions.
    - Python integers are [Z]; colours are RGB triples of [Z].
    - A grid is a Python list of row objects.  Row objects are mutable and
      are shared by reference, so rows live in a store ([heap]) and a grid
      is a list of row addresses.  [row.copy()] allocates, item assignment
      updates the store in place.
    - Exceptions are values of [result]; [IndexError] and [ValueError]
      are the Python exceptions the core can raise.  [NoReturn] marks a [while] loop that
      never exits, [BadRef] a dangling address (no Python program produces
      one; the properties assume that the rows of a grid can be read).
    - Rendering, sound, the database and the clock are outside the model. *)

From stdpp Require Import base tactics option list numbers strings relations sorting.
From Stdlib Require Import ZArith Lia.

Open Scope Z_scope.

(** ** Exceptions and the error monad *)

Inductive exn : Type :=
| IndexError
| ValueError
| NoReturn
| BadRef.

Inductive result (A : Type) : Type :=
| Ok (a : A)
| Raise (e : exn).
Arguments Ok {A} a.
Arguments Raise {A} e.

Definition bind {A B} (m : result A) (k : A → result B) : result B :=
  match m with
  | Ok a => k a
  | Raise e => Raise e
  end.

Notation "x <- m ; k" := (bind m (λ x, k))
  (at level 20, m at level 100, k at level 200, only parsing).
Notation "' pat <- m ; k" := (bind m (λ x, match x with pat => k end))
  (at level 20, pat pattern, m at level 100, k at level 200, only parsing).

Definition of_option {A} (e : exn) (o : option A) : result A :=
  match o with
  | Some a => Ok a
  | None => Raise e
  end.

(** [for v in l: st = body(v, st)], where [body] may raise. *)
Fixpoint for_each {A S} (l : list A) (body : A → S → result S) (st : S)
  : result S :=
  match l with
  | [] => Ok st
  | v :: l' => st' <- body v st; for_each l' body st'
  end.

(** ** Python lists *)

Module Py.

(** [l[i]] for an integer [i]: negative indices count from the end,
    anything outside [-len, len) raises [IndexError]. *)
Definition norm_index (n : nat) (i : Z) : option nat :=
  if bool_decide (0 ≤ i < Z.of_nat n) then Some (Z.to_nat i)
  else if bool_decide (- Z.of_nat n ≤ i < 0) then Some (Z.to_nat (Z.of_nat n + i))
  else None.

Definition getitem {A} (l : list A) (i : Z) : result A :=
  of_option IndexError (k ← norm_index (length l) i; l !! k).

(** [l[i] = v] *)
Definition setitem {A} (l : list A) (i : Z) (v : A) : result (list A) :=
  of_option IndexError (k ← norm_index (length l) i; Some (<[k := v]> l)).

(** [del l[i]] *)
Definition delitem {A} (l : list A) (i : Z) : result (list A) :=
  of_option IndexError (k ← norm_index (length l) i; Some (delete k l)).

Definition len {A} (l : list A) : Z := Z.of_nat (length l).

(** [enumerate(l, start)] and [enumerate(l)] *)
Fixpoint enumerate_from {A} (start : Z) (l : list A) : list (Z * A) :=
  match l with
  | [] => []
  | a :: l' => (start, a) :: enumerate_from (start + 1) l'
  end.
Definition enumerate {A} (l : list A) : list (Z * A) := enumerate_from 0 l.

(** [range(a, b)] *)
Definition range (a b : Z) : list Z := seqZ a (b - a).

(** [l.index(v)] *)
Definition index {A} `{EqDecision A} (l : list A) (v : A) : result Z :=
  of_option ValueError ((λ r, Z.of_nat (fst r)) <$> list_find (λ a, a = v) l).

(** [random.choice(l)]: the item at a position below [len(l)]; [draw] is
    the raw output of the generator, which is not modelled. *)
Definition choice {A} (l : list A) (draw : nat) : result A :=
  getitem l (Z.of_nat (draw `mod` length l)%nat).

(** [zip] applied to the unpacked [rows]: the i-th result collects the
    i-th items of all rows, the result is as long as the shortest row,
    and no rows give no result. *)
Fixpoint zip_star {A} (rows : list (list A)) : list (list A) :=
  match rows with
  | [] => []
  | r :: rest =>
      match rest with
      | [] => (λ a, [a]) <$> r
      | _ :: _ => zip_with cons r (zip_star rest)
      end
  end.

End Py.

(** ** Constants *)

Definition Color : Type := Z * Z * Z.

Definition BLOCK_SIZE : Z := 30.
Definition GRID_COLUMNS : Z := 10.
Definition GRID_ROWS : Z := 20.
Definition GAME_WIDTH : Z := GRID_COLUMNS * BLOCK_SIZE.

Definition BLACK : Color := (20, 20, 20).

Definition SHAPES : list (list (list Z)) :=
  [ [[1; 1; 1; 1]];
    [[1; 1]; [1; 1]];
    [[1; 1; 1]; [0; 1; 0]];
    [[1; 1; 1]; [1; 0; 0]];
    [[1; 1; 1]; [0; 0; 1]];
    [[1; 1; 0]; [0; 1; 1]];
    [[0; 1; 1]; [1; 1; 0]] ].

Definition SHAPE_COLORS : list Color :=
  [ (0, 255, 255);
    (255, 215, 0);
    (128, 0, 128);
    (255, 140, 0);
    (30, 144, 255);
    (50, 205, 50);
    (220, 20, 60) ].

(** ** class Tetromino *)

Record Tetromino : Type := mkTetromino {
  shape : list (list Z);
  color : Color;
  px : Z;
  py : Z
}.

Definition set_shape (s : list (list Z)) (p : Tetromino) : Tetromino :=
  mkTetromino s (color p) (px p) (py p).
Definition set_px (v : Z) (p : Tetromino) : Tetromino :=
  mkTetromino (shape p) (color p) v (py p).
Definition set_py (v : Z) (p : Tetromino) : Tetromino :=
  mkTetromino (shape p) (color p) (px p) v.

(** [Tetromino()] *)
Definition Tetromino_init (draw : nat) : result Tetromino :=
  s <- Py.choice SHAPES draw;
  i <- Py.index SHAPES s;
  c <- Py.getitem SHAPE_COLORS i;
  r0 <- Py.getitem s 0;
  Ok (mkTetromino s c (GAME_WIDTH / BLOCK_SIZE / 2 - Py.len r0 / 2) 0).

Definition move (dx dy : Z) (p : Tetromino) : Tetromino :=
  mkTetromino (shape p) (color p) (px p + dx) (py p + dy).

(** [rotate]: the rows are reversed ([self.shape[::-1]]), unpacked into
    [zip], and the result is stored back as the new [self.shape]. *)
Definition rotate (p : Tetromino) : Tetromino :=
  set_shape (Py.zip_star (reverse (shape p))) p.

(** [if cell:] on an integer cell *)
Definition truthy (cell : Z) : bool := bool_decide (cell ≠ 0).

(** The cell at row [i], column [j] of a matrix, if there is one. *)
Definition cell_at {A} (m : list (list A)) (i j : nat) : option A :=
  row ← m !! i; row !! j.

(** ** The store of row objects *)

(** Rows are addressed by their position in the store. *)
Abbreviation Row := (list Color) (only parsing).
Abbreviation Grid := (list (list Color)) (only parsing).
Abbreviation loc := nat (only parsing).
Abbreviation heap := (list (list Color)) (only parsing).

Definition alloc (r : Row) (h : heap) : heap * loc := (h ++ [r], length h).
Definition load (h : heap) (l : loc) : result Row := of_option BadRef (h !! l).
Definition store (h : heap) (l : loc) (r : Row) : heap := <[l := r]> h.

(** The rows a list of addresses denotes in a store. *)
Fixpoint read_grid (h : heap) (g : list loc) : result Grid :=
  match g with
  | [] => Ok []
  | l :: g' => r <- load h l; rs <- read_grid h g'; Ok (r :: rs)
  end.

(** [[row.copy() for row in g]] *)
Fixpoint copy_rows (h : heap) (g : list loc) : result (heap * list loc) :=
  match g with
  | [] => Ok (h, [])
  | l :: g' =>
      r <- load h l;
      let '(h1, l1) := alloc r h in
      '(h2, ls) <- copy_rows h1 g';
      Ok (h2, l1 :: ls)
  end.

(** ** TetrisGame.is_valid_move *)

(** A loop whose body can [return False]; falling off the end is
    [return True]. *)
Fixpoint all_ok {A} (l : list A) (body : A → result bool) : result bool :=
  match l with
  | [] => Ok true
  | a :: l' => b <- body a; if b then all_ok l' body else Ok false
  end.

(** [new_x < 0 or new_x >= len(grid[0]) or new_y >= len(grid)]; [or] does
    not evaluate its right operand when the left one holds. *)
Definition outside_grid (grid : Grid) (new_x new_y : Z) : result bool :=
  if bool_decide (new_x < 0) then Ok true
  else
    g0 <- Py.getitem grid 0;
    if bool_decide (Py.len g0 ≤ new_x) then Ok true
    else Ok (bool_decide (Py.len grid ≤ new_y)).

(** [new_y >= 0 and grid[new_y][new_x] != BLACK] *)
Definition hits_block (grid : Grid) (new_x new_y : Z) : result bool :=
  if bool_decide (0 ≤ new_y) then
    r <- Py.getitem grid new_y;
    c <- Py.getitem r new_x;
    Ok (bool_decide (c ≠ BLACK))
  else Ok false.

(** The body of the inner loop; [Ok false] is the [return False]. *)
Definition check_cell (piece : Tetromino) (dx dy : Z) (grid : Grid)
    (y x cell : Z) : result bool :=
  if truthy cell then
    let new_x := px piece + x + dx in
    let new_y := py piece + y + dy in
    outside <- outside_grid grid new_x new_y;
    if outside then Ok false
    else hit <- hits_block grid new_x new_y; Ok (negb hit)
  else Ok true.

(** The grid is only read, so the model passes the rows it holds at the
    time of the call.  The default [grid=None] is resolved by the caller. *)
Definition is_valid_move (piece : Tetromino) (dx dy : Z) (grid : Grid)
  : result bool :=
  all_ok (Py.enumerate (shape piece)) (λ '(y, row),
    all_ok (Py.enumerate row) (λ '(x, cell),
      check_cell piece dx dy grid y x cell)).

(** ** class AIPlayer: the heuristic terms *)

(** A loop whose body can [return v]; [None] is falling off the end. *)
Fixpoint first_return {A B} (l : list A) (body : A → result (option B))
  : result (option B) :=
  match l with
  | [] => Ok None
  | a :: l' =>
      r <- body a;
      match r with
      | Some b => Ok (Some b)
      | None => first_return l' body
      end
  end.

(** [[f(v) for v in l]] *)
Fixpoint comprehension {A B} (l : list A) (f : A → result B) : result (list B) :=
  match l with
  | [] => Ok []
  | a :: l' => b <- f a; bs <- comprehension l' f; Ok (b :: bs)
  end.

Definition not_black (c : Color) : bool := bool_decide (c ≠ BLACK).

Definition calculate_board_height (grid : Grid) : result Z :=
  r <- first_return (Py.range 0 (Py.len grid)) (λ y,
         row <- Py.getitem grid y;
         if existsb not_black row then Ok (Some (Py.len grid - y)) else Ok None);
  Ok (default 0 r).

(** The body of the loop over [y] in [calculate_holes]; the state is
    [(found_block, holes)]. *)
Definition holes_step (grid : Grid) (x y : Z) (st : bool * Z) : result (bool * Z) :=
  let '(found_block, holes) := st in
  row <- Py.getitem grid y;
  c <- Py.getitem row x;
  if not_black c then Ok (true, holes)
  else if found_block then Ok (found_block, holes + 1)
  else Ok (found_block, holes).

Definition calculate_holes (grid : Grid) : result Z :=
  g0 <- Py.getitem grid 0;
  for_each (Py.range 0 (Py.len g0)) (λ x holes,
    st <- for_each (Py.range 0 (Py.len grid)) (holes_step grid x) (false, holes);
    Ok (snd st)) 0.

Definition get_column_height (grid : Grid) (column : Z) : result Z :=
  r <- first_return (Py.range 0 (Py.len grid)) (λ y,
         row <- Py.getitem grid y;
         c <- Py.getitem row column;
         if not_black c then Ok (Some (Py.len grid - y)) else Ok None);
  Ok (default 0 r).

Definition sumZ (l : list Z) : Z := foldr Z.add 0 l.

Definition calculate_bumpiness (grid : Grid) : result Z :=
  g0 <- Py.getitem grid 0;
  column_heights <- comprehension (Py.range 0 (Py.len g0)) (get_column_height grid);
  terms <- comprehension (Py.range 0 (Py.len column_heights - 1)) (λ i,
             a <- Py.getitem column_heights i;
             b <- Py.getitem column_heights (i + 1);
             Ok (Z.abs (a - b)));
  Ok (sumZ terms).

(** ** Writing a piece into a grid

    [lock_piece] (on the player's grid) and [make_move] (on [test_grid])
    contain the same pair of loops; they differ only in the grid written. *)
Definition place_cells (h : heap) (grid : list loc) (piece : Tetromino)
  : result heap :=
  for_each (Py.enumerate (shape piece)) (λ '(y, row) h,
    for_each (Py.enumerate row) (λ '(x, cell) h,
      if truthy cell then
        let grid_x := px piece + x in
        let grid_y := py piece + y in
        if bool_decide (0 ≤ grid_y < Py.len grid) then
          l <- Py.getitem grid grid_y;
          r <- load h l;
          r' <- Py.setitem r grid_x (color piece);
          Ok (store h l r')
        else Ok h
      else Ok h) h) h.

(** ** AIPlayer.make_move *)

(** The dict [best_move]. *)
Record Move : Type := mkMove {
  rotation : Z;
  move_x : Z
}.

(** [for _ in range(n): p.rotate()] *)
Definition rotate_times (n : Z) (p : Tetromino) : Tetromino :=
  Nat.iter (Z.to_nat n) rotate p.

(** [while game.is_valid_move(temp_piece, 0, 1, grid_copy): temp_piece.y += 1].
    The loop is run with a bound on its iterations; [NoReturn] reports that
    the bound was reached. *)
Fixpoint drop (fuel : nat) (grid : Grid) (temp_piece : Tetromino)
  : result Tetromino :=
  match fuel with
  | O => Raise NoReturn
  | S fuel' =>
      ok <- is_valid_move temp_piece 0 1 grid;
      if ok then drop fuel' grid (set_py (py temp_piece + 1) temp_piece)
      else Ok temp_piece
  end.

(** Every pass moves the piece one row down, and a piece with an occupied
    cell cannot pass the last row, so this many passes are enough
    ([drop_fuel_enough]); a piece without occupied cells is valid
    everywhere and the loop never exits ([drop_empty_shape]). *)
Definition drop_fuel (grid : Grid) (piece : Tetromino) : nat :=
  S (Z.to_nat (Py.len grid - py piece)).

(** [score < best_score], where [best_score] starts as [float('inf')]. *)
Definition improves (score : Z) (best_score : option Z) : bool :=
  match best_score with
  | None => true
  | Some b => bool_decide (score < b)
  end.

(** The body of the loop over [dx]; [self_grid] is [self.grid]. *)
Definition try_offset (self_grid : list loc) (current : Tetromino)
    (rot : Z) (test_piece : Tetromino) (dx : Z)
    (st : heap * (option Z * Move)) : result (heap * (option Z * Move)) :=
  let '(h, (best_score, best_move)) := st in
  let test_piece := set_py (py current) (set_px (px current + dx) test_piece) in
  '(h1, grid_copy) <- copy_rows h self_grid;
  rows <- read_grid h1 grid_copy;
  temp_piece <- drop (drop_fuel rows test_piece) rows test_piece;
  ok <- is_valid_move temp_piece 0 0 rows;
  if ok then
    '(h2, test_grid) <- copy_rows h1 grid_copy;
    h3 <- place_cells h2 test_grid temp_piece;
    test_rows <- read_grid h3 test_grid;
    height <- calculate_board_height test_rows;
    holes <- calculate_holes test_rows;
    bumpiness <- calculate_bumpiness test_rows;
    let score := height * 2 + holes * 3 + bumpiness in
    if improves score best_score
    then Ok (h3, (Some score, mkMove rot (px temp_piece)))
    else Ok (h3, (best_score, best_move))
  else Ok (h1, (best_score, best_move)).

(** The body of the loop over [rotation]. [Tetromino()] draws a random
    shape that is overwritten at once; the draw is not modelled. *)
Definition try_rotation (self_grid : list loc) (current : Tetromino)
    (rot : Z) (st : heap * (option Z * Move))
  : result (heap * (option Z * Move)) :=
  let test_piece :=
    mkTetromino (shape current) (color current) (px current) (py current) in
  let test_piece := rotate_times rot test_piece in
  for_each (Py.range (-5) 6) (try_offset self_grid current rot test_piece) st.

(** The search itself: the final [best_move]. *)
Definition search (h : heap) (self_grid : list loc) (current : Tetromino)
  : result (heap * (option Z * Move)) :=
  for_each (Py.range 0 4) (try_rotation self_grid current)
    (h, (None, mkMove 0 (px current))).

(** [# Apply best move] *)
Definition apply_move (best_move : Move) (current : Tetromino) : Tetromino :=
  set_px (move_x best_move) (rotate_times (rotation best_move) current).

(** ** class TetrisPlayer

    Of the attributes only those the game logic reads are kept;
    [x_offset], [controls] and [username] serve drawing, key binding and
    persistence, and [survival_time] is a float that no decision reads. *)
Record TetrisPlayer : Type := mkPlayer {
  grid : list loc;
  current_piece : Tetromino;
  game_over : bool;
  score : Z
}.

Definition set_piece (p : Tetromino) (pl : TetrisPlayer) : TetrisPlayer :=
  mkPlayer (grid pl) p (game_over pl) (score pl).

(** [[[BLACK for _ in range(GRID_COLUMNS)] for _ in range(GRID_ROWS)]] *)
Fixpoint fresh_rows (n : nat) (width : Z) (h : heap) : heap * list loc :=
  match n with
  | O => (h, [])
  | S n' =>
      let '(h1, l) := alloc (replicate (Z.to_nat width) BLACK) h in
      let '(h2, ls) := fresh_rows n' width h1 in
      (h2, l :: ls)
  end.

(** [TetrisPlayer.reset] *)
Definition player_reset (draw : nat) (h : heap) : result (heap * TetrisPlayer) :=
  let '(h1, g) := fresh_rows (Z.to_nat GRID_ROWS) GRID_COLUMNS h in
  p <- Tetromino_init draw;
  Ok (h1, mkPlayer g p false 0).

(** [AIPlayer.make_move]: the search, then the best move applied to the
    live piece. *)
Definition make_move (h : heap) (self : TetrisPlayer) : result (heap * TetrisPlayer) :=
  '(h', (_, best_move)) <- search h (grid self) (current_piece self);
  Ok (h', set_piece (apply_move best_move (current_piece self)) self).

(** ** TetrisGame.lock_piece *)

Definition row_full (r : Row) : bool := forallb not_black r.

(** The body of the loop over [enumerate(player.grid[:])]; the state is the
    store, the live list [player.grid] and [lines_cleared]. *)
Definition clear_step (entry : Z * loc) (st : heap * list loc * Z)
  : result (heap * list loc * Z) :=
  let '(i, row) := entry in
  let '(h, live, lines_cleared) := st in
  r <- load h row;
  if row_full r then
    live1 <- Py.delitem live i;
    let '(h1, l) := alloc (replicate (length r) BLACK) h in
    Ok (h1, l :: live1, lines_cleared + 1)
  else Ok (h, live, lines_cleared).

(** The line-clear phase: the loop runs over a copy of the list taken
    before the first pass and edits the live list. *)
Definition clear_lines (h : heap) (live : list loc) : result (heap * list loc * Z) :=
  let snapshot := live in
  for_each (Py.enumerate snapshot) clear_step (h, live, 0).

Definition LINE_SCORES : list Z := [40; 100; 300; 1200].

Definition lock_piece (h : heap) (player : TetrisPlayer) : result (heap * TetrisPlayer) :=
  h1 <- place_cells h (grid player) (current_piece player);
  '(h2, live, lines_cleared) <- clear_lines h1 (grid player);
  if bool_decide (lines_cleared > 0) then
    gain <- Py.getitem LINE_SCORES (lines_cleared - 1);
    Ok (h2, mkPlayer live (current_piece player) (game_over player) (score player + gain))
  else
    Ok (h2, mkPlayer live (current_piece player) (game_over player) (score player)).

(** ** TetrisGame.run *)

Inductive Key : Type :=
| K_ESCAPE | K_SPACE | K_p | K_r | K_LEFT | K_RIGHT | K_DOWN | K_UP | K_OTHER.

Inductive Event : Type :=
| QUIT
| KEYDOWN (key : Key)
| OTHER_EVENT.

(** What the outside world supplies while one event is handled: the answer
    to a confirmation dialog and the random draws of a reset. *)
Record Reply : Type := mkReply {
  confirm : bool;
  reset_draw_human : nat;
  reset_draw_ai : nat
}.

(** What the outside world supplies during one pass of the loop.
    [gravity_due] is the outcome of
    [current_time - last_fall_time > fall_speed * 1000], a comparison of
    clock readings and floats that the model does not compute. *)
Record TickInput : Type := mkTickInput {
  events : list (Event * Reply);
  gravity_due : bool;
  draw_human : nat;
  draw_ai : nat
}.

(** The game object and the locals of [run] that steer the loop. *)
Record Session : Type := mkSession {
  rows_store : heap;
  human_player : TetrisPlayer;
  ai_player : TetrisPlayer;
  session_over : bool;
  paused : bool
}.

Definition set_human (h : heap) (pl : TetrisPlayer) (s : Session) : Session :=
  mkSession h pl (ai_player s) (session_over s) (paused s).
Definition set_ai (h : heap) (pl : TetrisPlayer) (s : Session) : Session :=
  mkSession h (human_player s) pl (session_over s) (paused s).
Definition set_session_over (b : bool) (s : Session) : Session :=
  mkSession (rows_store s) (human_player s) (ai_player s) b (paused s).
Definition set_paused (b : bool) (s : Session) : Session :=
  mkSession (rows_store s) (human_player s) (ai_player s) (session_over s) b.

(** How a pass over the events ends: the loop body goes on, or [run]
    returns. *)
Inductive flow (A : Type) : Type :=
| Next (a : A)
| Return (a : A).
Arguments Next {A} a.
Arguments Return {A} a.

(** [TetrisGame.reset] *)
Definition game_reset (rep : Reply) (s : Session) : result Session :=
  '(h1, hp) <- player_reset (reset_draw_human rep) (rows_store s);
  '(h2, ap) <- player_reset (reset_draw_ai rep) h1;
  Ok (mkSession h2 hp ap false (paused s)).

(** The [if/elif] chain on ESC, SPACE, P and R. *)
Definition menu_key (key : Key) (rep : Reply) (s : Session) : result (flow Session) :=
  match key with
  | K_ESCAPE =>
      if confirm rep then Ok (Return (set_session_over true s)) else Ok (Next s)
  | K_p => Ok (Next (set_paused (negb (paused s)) s))
  | K_r =>
      if confirm rep then s' <- game_reset rep s; Ok (Next s') else Ok (Next s)
  | _ => Ok (Next s)
  end.

(** A move of the human piece by [(dx, dy)], applied only if valid. *)
Definition try_move (dx dy : Z) (s : Session) : result Session :=
  let pl := human_player s in
  rows <- read_grid (rows_store s) (grid pl);
  ok <- is_valid_move (current_piece pl) dx dy rows;
  if ok then Ok (set_human (rows_store s) (set_piece (move dx dy (current_piece pl)) pl) s)
  else Ok s.

(** The rotate key: a rotated copy is tested, then the piece is rotated. *)
Definition try_rotate (s : Session) : result Session :=
  let pl := human_player s in
  let rotated_piece := rotate (current_piece pl) in
  rows <- read_grid (rows_store s) (grid pl);
  ok <- is_valid_move rotated_piece 0 0 rows;
  if ok then Ok (set_human (rows_store s) (set_piece (rotate (current_piece pl)) pl) s)
  else Ok s.

(** The [if not paused:] block; the controls are bound to the arrow keys. *)
Definition control_key (key : Key) (s : Session) : result Session :=
  if paused s then Ok s
  else
    match key with
    | K_LEFT => try_move (-1) 0 s
    | K_RIGHT => try_move 1 0 s
    | K_DOWN => try_move 0 1 s
    | K_UP => try_rotate s
    | _ => Ok s
    end.

Definition handle_event (ev : Event * Reply) (s : Session) : result (flow Session) :=
  match fst ev with
  | QUIT => Ok (Return s)
  | KEYDOWN key =>
      r <- menu_key key (snd ev) s;
      match r with
      | Return s' => Ok (Return s')
      | Next s' => s'' <- control_key key s'; Ok (Next s'')
      end
  | OTHER_EVENT => Ok (Next s)
  end.

(** [for event in pygame.event.get(): ...] *)
Fixpoint handle_events (evs : list (Event * Reply)) (s : Session) : result (flow Session) :=
  match evs with
  | [] => Ok (Next s)
  | ev :: evs' =>
      r <- handle_event ev s;
      match r with
      | Return s' => Ok (Return s')
      | Next s' => handle_events evs' s'
      end
  end.

(** One side's share of a gravity step. *)
Definition fall (draw : nat) (h : heap) (pl : TetrisPlayer) : result (heap * TetrisPlayer) :=
  rows <- read_grid h (grid pl);
  ok <- is_valid_move (current_piece pl) 0 1 rows;
  if ok then Ok (h, set_piece (move 0 1 (current_piece pl)) pl)
  else
    '(h1, pl1) <- lock_piece h pl;
    piece <- Tetromino_init draw;
    rows1 <- read_grid h1 (grid pl1);
    ok1 <- is_valid_move piece 0 0 rows1;
    Ok (h1, mkPlayer (grid pl1) piece
              (if ok1 then game_over pl1 else true) (score pl1)).

Definition gravity (inp : TickInput) (s : Session) : result Session :=
  '(h1, hp) <- fall (draw_human inp) (rows_store s) (human_player s);
  '(h2, ap) <- fall (draw_ai inp) h1 (ai_player s);
  Ok (mkSession h2 hp ap (session_over s) (paused s)).

(** One pass of the body of [while not self.game_over]. *)
Definition tick (inp : TickInput) (s : Session) : result (flow Session) :=
  r <- handle_events (events inp) s;
  match r with
  | Return s' => Ok (Return s')
  | Next s1 =>
      if paused s1 then Ok (Next s1)
      else
        '(h, ap) <- make_move (rows_store s1) (ai_player s1);
        let s2 := set_ai h ap s1 in
        s3 <- (if gravity_due inp then gravity inp s2 else Ok s2);
        if game_over (human_player s3) || game_over (ai_player s3)
        then Ok (Next (set_session_over true s3))
        else Ok (Next s3)
  end.

(** The loop, fed with the inputs of its passes; it stops when the flag is
    set, when [run] returns, or when the inputs are used up. *)
Fixpoint run (inputs : list TickInput) (s : Session) : result Session :=
  if session_over s then Ok s
  else
    match inputs with
    | [] => Ok s
    | inp :: rest =>
        r <- tick inp s;
        match r with
        | Return s' => Ok s'
        | Next s' => run rest s'
        end
    end.

(** One completed pass of the loop. *)
Definition loop_pass (s s' : Session) : Prop :=
  session_over s = false ∧ ∃ inp, tick inp s = Ok (Next s').

(** ** The two computations of the winner *)

Inductive Side : Type := Human | AI.

(** [winner] in [save_scores] *)
Definition save_scores_winner (s : Session) : string :=
  if game_over (human_player s) then "AI" else "Human".

(** [winner] in [show_game_over_screen] *)
Definition game_over_screen_winner (s : Session) : string :=
  if game_over (ai_player s) then "Human Player" else "AI".

(** The side a winner string names. *)
Definition side_named (name : string) : option Side :=
  if bool_decide (name = "AI") then Some AI
  else if bool_decide (name = "Human") then Some Human
  else if bool_decide (name = "Human Player") then Some Human
  else None.

(** ** TetrisGame.show_start_screen

    The event handling of the start screen.  Drawing, the mixer calls and
    the two list views drawn for the other menu entries are left out;
    the answer of the confirmation dialog comes with the event that asks
    for it.

    A Python string is the sequence of its characters, and [len] and the
    slices count characters.  The name and the text of a key event are
    therefore lists of code points, one item for each character whatever
    its encoding.  The menu entries are three fixed texts that are only
    compared with each other. *)

Abbreviation str := (list N) (only parsing).

Module PyStr.
(** [len(s)], [s[:n]] for a count [n], and [s[:-1]] *)
Definition len (s : str) : Z := Z.of_nat (length s).
Definition slice_to (n : nat) (s : str) : str := take n s.
Definition slice_to_last (s : str) : str := take (length s - 1) s.
End PyStr.

(** The keys the start screen tells apart. *)
Inductive StartKey : Type :=
| SK_ESCAPE | SK_SPACE | SK_LEFT | SK_RIGHT | SK_RETURN | SK_BACKSPACE
| SK_OTHER.

(** [event.key == pygame.K_RETURN] and [event.key == pygame.K_BACKSPACE] *)
Definition is_return (key : StartKey) : bool :=
  match key with SK_RETURN => true | _ => false end.
Definition is_backspace (key : StartKey) : bool :=
  match key with SK_BACKSPACE => true | _ => false end.

Inductive StartEvent : Type :=
| SE_QUIT
| SE_KEYDOWN (key : StartKey) (unicode : str) (confirm : bool)
| SE_OTHER.

(** The locals of [show_start_screen] that outlive one event. *)
Record StartScreen : Type := mkStartScreen {
  human_player_name : str;
  selected_menu : string;
  music_paused : bool;
  music_pause_toggled : bool
}.

Definition set_name (name : str) (st : StartScreen) : StartScreen :=
  mkStartScreen name (selected_menu st) (music_paused st)
    (music_pause_toggled st).
Definition set_selected (sel : string) (st : StartScreen) : StartScreen :=
  mkStartScreen (human_player_name st) sel (music_paused st)
    (music_pause_toggled st).
Definition set_toggled (b : bool) (st : StartScreen) : StartScreen :=
  mkStartScreen (human_player_name st) (selected_menu st) (music_paused st) b.

(** How the handling of an event ends: the screen stays, the function
    returns [False], or it stores the username and returns [True]. *)
Inductive StartFlow : Type :=
| Stay (st : StartScreen)
| Leave
| Start (username : str).

Definition menu_options : list string := ["Play"; "Leaderboard"; "Game History"].

(** [menu_options[(menu_options.index(selected_menu) + d) % len(menu_options)]] *)
Definition menu_neighbour (d : Z) (selected : string) : result string :=
  i <- Py.index menu_options selected;
  Py.getitem menu_options ((i + d) `mod` Py.len menu_options).

(** The [if/elif] chain on ESC, SPACE, LEFT and RIGHT; [None] stands for
    [return False]. *)
Definition start_menu_key (key : StartKey) (confirm : bool) (st : StartScreen)
  : result (option StartScreen) :=
  match key with
  | SK_ESCAPE => if confirm then Ok None else Ok (Some st)
  | SK_SPACE => Ok (Some (set_toggled true st))
  | SK_LEFT =>
      sel <- menu_neighbour (-1) (selected_menu st);
      Ok (Some (set_selected sel st))
  | SK_RIGHT =>
      sel <- menu_neighbour 1 (selected_menu st);
      Ok (Some (set_selected sel st))
  | _ => Ok (Some st)
  end.

(** The [if music_pause_toggled:] block that ends the handling of every
    event. *)
Definition after_event (st : StartScreen) : StartScreen :=
  if music_pause_toggled st then
    mkStartScreen
      (if bool_decide (human_player_name st ≠ [])
       then PyStr.slice_to_last (human_player_name st)
       else human_player_name st)
      (selected_menu st) (negb (music_paused st)) false
  else st.

Section start_screen.
(** [str.isprintable], a table of the interpreter. *)
Variable isprintable : str → bool.

(** The [if selected_menu == "Play":] block. *)
Definition name_key (key : StartKey) (unicode : str) (st : StartScreen)
  : StartFlow :=
  let name := human_player_name st in
  if bool_decide (selected_menu st = "Play") then
    if is_return key && bool_decide (name ≠ [])
    then Start name
    else if is_backspace key
    then Stay (set_name (PyStr.slice_to_last name) st)
    else if bool_decide (PyStr.len name < 12) && isprintable unicode
    then Stay (set_name (name ++ unicode) st)
    else Stay st
  else Stay st.

Definition start_event (ev : StartEvent) (st : StartScreen) : result StartFlow :=
  match ev with
  | SE_QUIT => Ok Leave
  | SE_KEYDOWN key unicode confirm =>
      r <- start_menu_key key confirm st;
      match r with
      | None => Ok Leave
      | Some st1 =>
          match name_key key unicode st1 with
          | Stay st2 => Ok (Stay (after_event st2))
          | Leave => Ok Leave
          | Start username => Ok (Start username)
          end
      end
  | SE_OTHER => Ok (Stay (after_event st))
  end.

(** [for event in pygame.event.get(): ...] *)
Fixpoint start_events (evs : list StartEvent) (st : StartScreen)
  : result StartFlow :=
  match evs with
  | [] => Ok (Stay st)
  | ev :: evs' =>
      r <- start_event ev st;
      match r with
      | Stay st' => start_events evs' st'
      | Leave => Ok Leave
      | Start username => Ok (Start username)
      end
  end.

(** One pass of [while start_screen:]; it ends with
    [human_player_name = human_player_name[:12]]. *)
Definition start_pass (evs : list StartEvent) (st : StartScreen)
  : result StartFlow :=
  r <- start_events evs st;
  match r with
  | Stay st' =>
      Ok (Stay (set_name (PyStr.slice_to 12 (human_player_name st')) st'))
  | Leave => Ok Leave
  | Start username => Ok (Start username)
  end.

(** The loop, fed with the events of its passes; [Stay] reports that the
    events are used up with the screen still open. *)
Fixpoint start_passes (passes : list (list StartEvent)) (st : StartScreen)
  : result StartFlow :=
  match passes with
  | [] => Ok (Stay st)
  | evs :: rest =>
      r <- start_pass evs st;
      match r with
      | Stay st' => start_passes rest st'
      | Leave => Ok Leave
      | Start username => Ok (Start username)
      end
  end.

Definition show_start_screen (passes : list (list StartEvent))
  : result StartFlow :=
  start_passes passes (mkStartScreen [] "Play" false false).

End start_screen.

(** ** Specification-side notions *)

(** The transpose of a matrix with [c] columns, as the specification uses
    the word: row [i] of the result lists the [i]-th items of the rows. *)
Definition transpose_spec {A} (c : nat) (m : list (list A)) : list (list A) :=
  (λ i, omap (λ row, row !! i) m) <$> seq 0 c.

(** A grid with [rows] rows of [cols] cells each, and at least one row. *)
Definition rectangular (rows cols : Z) (grid : Grid) : Prop :=
  Py.len grid = rows ∧ Forall (λ row, Py.len row = cols) grid ∧ 0 < rows.

(** What [is_valid_move] demands of the cell of the piece at row [i],
    column [j] of its shape. *)
Definition cell_fits (rows cols : Z) (grid : Grid) (piece : Tetromino)
    (dx dy : Z) (i j : nat) : Prop :=
  let x := px piece + Z.of_nat j + dx in
  let y := py piece + Z.of_nat i + dy in
  0 ≤ x < cols ∧ y < rows
  ∧ (0 ≤ y → cell_at grid (Z.to_nat y) (Z.to_nat x) = Some BLACK).

(** Whether the row object at an address is fully occupied. *)
Definition full_at (h : heap) (l : loc) : bool :=
  match h !! l with
  | Some r => row_full r
  | None => false
  end.

(** The empty row that replaces the cleared row at an address. *)
Definition blank_like (h : heap) (l : loc) : list Color :=
  match h !! l with
  | Some r => replicate (length r) BLACK
  | None => []
  end.

(** The scoring table of the specification, by number of cleared lines. *)
Definition line_clear_score (lines : nat) : option Z :=
  match lines with
  | 0%nat => Some 0
  | 1%nat => Some 40
  | 2%nat => Some 100
  | 3%nat => Some 300
  | 4%nat => Some 1200
  | _ => None
  end.

(** *** The search, read off the rows of the board

    [try_offset] works on copies of the board held in the store.  The
    definitions below compute the same quantities from the rows
    themselves; [try_offset_candidate] shows that they agree. *)

(** Writing one cell of the piece into rows given as values. *)
Definition write_cell (piece : Tetromino) (y x cell : Z) (rows : Grid)
  : result Grid :=
  if truthy cell then
    let grid_x := px piece + x in
    let grid_y := py piece + y in
    if bool_decide (0 ≤ grid_y < Py.len rows) then
      r <- Py.getitem rows grid_y;
      r' <- Py.setitem r grid_x (color piece);
      Ok (<[Z.to_nat grid_y := r']> rows)
    else Ok rows
  else Ok rows.

(** The hypothetical post-lock grid: the rows with the piece written in. *)
Definition write_piece (rows : Grid) (piece : Tetromino) : result Grid :=
  for_each (Py.enumerate (shape piece)) (λ '(y, row) rows,
    for_each (Py.enumerate row) (λ '(x, cell) rows,
      write_cell piece y x cell rows) rows) rows.

(** [height * 2 + holes * 3 + bumpiness] *)
Definition board_score (rows : Grid) : result Z :=
  height <- calculate_board_height rows;
  holes <- calculate_holes rows;
  bumpiness <- calculate_bumpiness rows;
  Ok (height * 2 + holes * 3 + bumpiness).

(** The outcome of one candidate that starts the drop at [start]: [None]
    if its resting position is rejected, else the x and the score of the
    post-lock grid. *)
Definition candidate (rows : Grid) (start : Tetromino) : result (option (Z * Z)) :=
  temp_piece <- drop (drop_fuel rows start) rows start;
  ok <- is_valid_move temp_piece 0 0 rows;
  if ok then
    test_rows <- write_piece rows temp_piece;
    score <- board_score test_rows;
    Ok (Some (px temp_piece, score))
  else Ok None.

(** The piece a candidate starts from: the live piece rotated [rot] times
    and shifted by [dx]. *)
Definition start_piece (current : Tetromino) (rot dx : Z) : Tetromino :=
  set_py (py current) (set_px (px current + dx) (rotate_times rot current)).

(** The candidates of one rotation, offset ascending. *)
Definition offsets_of (rot : Z) : list (Z * Z) :=
  (λ dx, (rot, dx)) <$> Py.range (-5) 6.

(** The 44 candidates in the order the loops visit them: rotation
    ascending, then offset ascending. *)
Definition all_candidates : list (Z * Z) := Py.range 0 4 ≫= offsets_of.

(** The outcome of a candidate, [None] also when the evaluation raises. *)
Definition outcome (rows : Grid) (current : Tetromino) (c : Z * Z) : option (Z * Z) :=
  match candidate rows (start_piece current (fst c) (snd c)) with
  | Ok o => o
  | Raise _ => None
  end.

(** The update of [(best_score, best_move)] by one outcome. *)
Definition better (rot : Z) (o : option (Z * Z)) (best : option Z * Move)
  : option Z * Move :=
  match o with
  | Some (x, score) =>
      if improves score (fst best) then (Some score, mkMove rot x) else best
  | None => best
  end.

(** [(best_score, best_move)] after the candidates [cands] were visited in
    order. *)
Definition best_after (rows : Grid) (current : Tetromino) (cands : list (Z * Z))
  : option Z * Move :=
  foldl (λ best c, better (fst c) (outcome rows current c) best)
        (None, mkMove 0 (px current)) cands.

(** Whether the resting position of candidate [c] fails the validity
    check (a drop that raises counts as failing). *)
Definition rejected (board : Grid) (current : Tetromino) (c : Z * Z) : bool :=
  let start := start_piece current (fst c) (snd c) in
  match drop (drop_fuel board start) board start with
  | Ok temp =>
      match is_valid_move temp 0 0 board with
      | Ok false => true
      | _ => false
      end
  | Raise _ => true
  end.


(** A shape with at least one occupied cell. *)
Definition occupied (s : list (list Z)) : Prop :=
  ∃ (i j : nat) (cell : Z), cell_at s i j = Some cell ∧ cell ≠ 0.

(** A shape the game can hold: a matrix (all rows equally long) with at
    least one occupied cell. *)
Definition shape_ok (s : list (list Z)) : Prop :=
  (∃ c : nat, Forall (λ row, length row = c) s) ∧ occupied s.

(** Neither side has lost. *)
Definition sides_alive (s : Session) : Prop :=
  game_over (human_player s) = false ∧ game_over (ai_player s) = false.

(** ** Sample states *)

Definition CYAN : Color := (0, 255, 255).

Definition I_piece : Tetromino := mkTetromino [[1; 1; 1; 1]] CYAN 3 0.
Definition T_piece : Tetromino :=
  mkTetromino [[1; 1; 1]; [0; 1; 0]] (128, 0, 128) 4 0.

(** An empty board, a board without a free cell, and a board whose rows
    below the top one each leave a single cell free. *)
Definition blank_board : list (list Color) := replicate 20 (replicate 10 BLACK).
Definition packed_board : list (list Color) := replicate 20 (replicate 10 CYAN).
Definition crowded_board : list (list Color) :=
  replicate 10 BLACK
  :: ((λ i : nat, <[(i `mod` 2)%nat := BLACK]> (replicate 10 CYAN)) <$> seq 0 19).

(** A player whose board occupies the addresses [0..19] of the store. *)
Definition player_with (piece : Tetromino) : TetrisPlayer :=
  mkPlayer (seq 0 20) piece false 0.

(** A small board, two cells wide, whose first and last rows are full. *)
Definition small_store : list (list Color) :=
  [[CYAN; CYAN]; [BLACK; CYAN]; [CYAN; CYAN]].

(** A board four cells wide and a flat I piece about to fill its last row. *)
Definition narrow_store : list (list Color) :=
  [replicate 4 BLACK; replicate 4 BLACK].
Definition narrow_player : TetrisPlayer :=
  mkPlayer [0; 1]%nat (mkTetromino [[1; 1; 1; 1]] CYAN 0 1) false 0.

(** Both sides on a crowded board with a flat I piece in the top row, and
    a gravity step whose draws are I pieces again. *)
Definition crowded_session : Session :=
  mkSession (crowded_board ++ crowded_board)
    (mkPlayer (seq 0 20) I_piece false 0)
    (mkPlayer (seq 20 20) I_piece false 0) false false.
Definition gravity_input : TickInput := mkTickInput [] true 0 0.

(** The state in which the pass over [gravity_input] leaves
    [crowded_session]. *)
Definition crowded_session_after : Session :=
  match tick gravity_input crowded_session with
  | Ok (Next s) => s
  | _ => crowded_session
  end.

(** *** The heuristic terms, in the words of the specification *)

(** The rows from the topmost non-empty row down. *)
Fixpoint skip_blank_rows (grid : Grid) : Grid :=
  match grid with
  | [] => []
  | row :: grid' =>
      if existsb not_black row then grid else skip_blank_rows grid'
  end.

(** Column [x] of a grid, top to bottom. *)
Definition column (x : nat) (grid : Grid) : list Color :=
  omap (λ row, row !! x) grid.

(** The cells of a column from its topmost non-empty cell down. *)
Fixpoint skip_blank_cells (col : list Color) : list Color :=
  match col with
  | [] => []
  | c :: col' => if not_black c then col else skip_blank_cells col'
  end.

(** The height of a column: the cells from its topmost non-empty cell
    down to the floor. *)
Definition column_height_spec (col : list Color) : Z :=
  Py.len (skip_blank_cells col).

(** The holes of a column: the empty cells below its topmost non-empty
    cell. *)
Definition column_holes_spec (col : list Color) : Z :=
  Py.len (filter (λ c, c = BLACK) (skip_blank_cells col)).

(** The columns of a grid with [cols] columns, left to right. *)
Definition columns (cols : Z) (grid : Grid) : list (list Color) :=
  (λ x, column x grid) <$> seq 0 (Z.to_nat cols).

(** The sum of the absolute differences of neighbours in a list. *)
Fixpoint adjacent_differences (l : list Z) : Z :=
  match l with
  | a :: l' =>
      match l' with
      | b :: _ => Z.abs (a - b) + adjacent_differences l'
      | [] => 0
      end
  | [] => 0
  end.

(** *** Well-formed boards *)

(** The rows of a board can be read, no row object occurs twice in it, and
    it is a [rows] by [cols] matrix. *)
Definition board_ok (rows cols : Z) (h : heap) (g : list loc) (board : Grid)
  : Prop :=
  read_grid h g = Ok board ∧ NoDup g ∧ rectangular rows cols board.

(** The number of fully occupied rows. *)
Definition count_full (board : Grid) : nat :=
  length (filter (λ r, row_full r = true) board).

(** What a store [h'] has in common with [h] after writes into the rows of
    the grid [g], which then holds [board']. *)
Definition written (h : heap) (g : list loc) (h' : heap) (board' : Grid) : Prop :=
  read_grid h' g = Ok board'
  ∧ length h' = length h
  ∧ ∀ l, l ∉ g → h' !! l = h !! l.

(** The cells of the board a piece lies on: [(Y, X)] is covered when an
    occupied cell of the shape sits there. *)
Definition covers (piece : Tetromino) (Y X : nat) : Prop :=
  ∃ (i j : nat) (cell : Z),
    cell_at (shape piece) i j = Some cell ∧ cell ≠ 0
    ∧ py piece + Z.of_nat i = Z.of_nat Y ∧ px piece + Z.of_nat j = Z.of_nat X.

(** [board'] is [board] with the cells in [S] set to [c]. *)
Definition painted (c : Color) (S : nat → nat → Prop) (board board' : Grid)
  : Prop :=
  ∀ Y X : nat,
    (S Y X → cell_at board' Y X = Some c)
    ∧ (¬ S Y X → cell_at board' Y X = cell_at board Y X).

(** Every occupied cell of the piece lies in one of the [cols] columns. *)
Definition within_columns (cols : Z) (piece : Tetromino) : Prop :=
  ∀ (i j : nat) (cell : Z),
    cell_at (shape piece) i j = Some cell → cell ≠ 0 →
    0 ≤ px piece + Z.of_nat j < cols.

(** A shape of the size the game deals in: a matrix with an occupied cell,
    of at most four rows and four columns. *)
Definition shape_small (s : list (list Z)) : Prop :=
  shape_ok s ∧ (length s ≤ 4)%nat ∧ Forall (λ row, (length row ≤ 4)%nat) s.

Definition piece_ok (cols : Z) (piece : Tetromino) : Prop :=
  shape_small (shape piece) ∧ within_columns cols piece.

(** One side of a running game: its grid is a board of the game's size
    made of distinct row objects, no row of it is full, and its piece is a
    piece of the game that lies in the columns of the board. *)
Definition side_ok (h : heap) (pl : TetrisPlayer) : Prop :=
  (∃ board, board_ok GRID_ROWS GRID_COLUMNS h (grid pl) board
            ∧ count_full board = 0%nat)
  ∧ piece_ok GRID_COLUMNS (current_piece pl).

(** Both sides are in order and their boards share no row object. *)
Definition session_ok (s : Session) : Prop :=
  side_ok (rows_store s) (human_player s)
  ∧ side_ok (rows_store s) (ai_player s)
  ∧ ∀ l, l ∈ grid (human_player s) → l ∉ grid (ai_player s).

Definition flow_state {A} (r : flow A) : A :=
  match r with
  | Next a => a
  | Return a => a
  end.

(** Two empty boards, a flat I piece on the human side and a T piece on
    the AI side. *)
Definition fresh_session : Session :=
  mkSession (blank_board ++ blank_board)
    (mkPlayer (seq 0 20) I_piece false 0)
    (mkPlayer (seq 20 20) T_piece false 0) false false.

(** An event that carries at most one character. *)
Definition one_character (ev : StartEvent) : Prop :=
  match ev with
  | SE_KEYDOWN _ unicode _ => (length unicode ≤ 1)%nat
  | _ => True
  end.

(** The name fits the input box and a menu entry is selected. *)
Definition start_screen_ok (st : StartScreen) : Prop :=
  (length (human_player_name st) ≤ 12)%nat
  ∧ selected_menu st ∈ menu_options.

(** What the caller of the start screen can rely on. *)
Definition start_flow_ok (r : StartFlow) : Prop :=
  match r with
  | Stay st => start_screen_ok st
  | Leave => True
  | Start username =>
      username ≠ [] ∧ (length username ≤ 12)%nat
  end.

(** An event that neither ends the loop, nor restarts the game, nor
    toggles the pause: no QUIT, no P, and ESC or R only with the dialog
    answered by no. *)
Definition inert (ev : Event * Reply) : Prop :=
  match fst ev with
  | QUIT => False
  | KEYDOWN K_p => False
  | KEYDOWN K_ESCAPE => confirm (snd ev) = false
  | KEYDOWN K_r => confirm (snd ev) = false
  | _ => True
  end.

(** *** The score of the specification

    The three terms as the specification words them, computed from the
    rows and columns of a grid without the loops of the program. *)









(** * Properties *)

(** ** The error monad *)

Lemma bind_Ok {A B} (m : result A) (k : A → result B) (b : B) :
  bind m k = Ok b ↔ ∃ a, m = Ok a ∧ k a = Ok b.
Proof.
  destruct m as [a|e]; simpl; split.
  - intros H. exists a. auto.
  - intros (a' & Ha & Hk). congruence.
  - discriminate.
  - intros (a' & Ha & _). discriminate.
Qed.

Lemma of_option_Ok {A} (e : exn) (o : option A) (a : A) :
  of_option e o = Ok a ↔ o = Some a.
Proof. destruct o; simpl; split; congruence. Qed.

(** Splits every hypothesis that says a sequence of binds returned. *)
Ltac inv_ok :=
  repeat match goal with
  | H : bind _ _ = Ok _ |- _ =>
      apply bind_Ok in H; destruct H as (? & ? & H)
  | H : of_option _ _ = Ok _ |- _ => apply of_option_Ok in H
  | H : Ok _ = Ok _ |- _ => injection H as H; try subst
  | H : Raise _ = Ok _ |- _ => discriminate H
  end.

(** ** Rotation *)

Section transpose.
Context {A : Type}.
Implicit Types m : list (list A).

Lemma omap_lookup_column m (c i j : nat) :
  Forall (λ row, length row = c) m → (i < c)%nat →
  omap (λ row, row !! i) m !! j = (row ← m !! j; row !! i).
Proof.
  intros Hm Hi. revert j. induction Hm as [|row m Hrow _ IH]; intros j.
  - done.
  - simpl. destruct (lookup_lt_is_Some_2 row i) as [a Ha]; [lia|].
    rewrite Ha. destruct j as [|j]; simpl; [by rewrite Ha | apply IH].
Qed.

Lemma zip_star_transpose m (c : nat) :
  m ≠ [] → Forall (λ row, length row = c) m →
  Py.zip_star m = transpose_spec c m.
Proof.
  intros Hne Hm. induction Hm as [|r0 m Hr0 Hm IH]; [done|].
  destruct m as [|r1 m].
  - simpl. apply list_eq. intros i. unfold transpose_spec.
    rewrite !list_lookup_fmap.
    destruct (decide (i < c)%nat) as [Hi|Hi].
    + rewrite lookup_seq_lt by done.
      destruct (lookup_lt_is_Some_2 r0 i) as [a Ha]; [lia|].
      simpl. by rewrite Ha.
    + rewrite lookup_seq_ge by lia.
      rewrite lookup_ge_None_2 by lia. done.
  - change (Py.zip_star (r0 :: r1 :: m))
      with (zip_with cons r0 (Py.zip_star (r1 :: m))).
    rewrite IH by done. apply list_eq. intros i.
    rewrite lookup_zip_with. unfold transpose_spec.
    rewrite !list_lookup_fmap.
    destruct (decide (i < c)%nat) as [Hi|Hi].
    + rewrite lookup_seq_lt by done.
      destruct (lookup_lt_is_Some_2 r0 i) as [a Ha]; [lia|].
      simpl. rewrite ?Ha. simpl. by rewrite ?Ha.
    + rewrite lookup_seq_ge by lia.
      rewrite lookup_ge_None_2 by lia. done.
Qed.

Lemma transpose_spec_cell m (c i j : nat) :
  Forall (λ row, length row = c) m → (i < c)%nat →
  cell_at (transpose_spec c m) i j = cell_at m j i.
Proof.
  intros Hm Hi. unfold cell_at, transpose_spec.
  rewrite list_lookup_fmap, lookup_seq_lt by done. simpl.
  by apply (omap_lookup_column m c).
Qed.

Lemma transpose_spec_rows m (c : nat) :
  Forall (λ row, length row = c) m →
  Forall (λ col, length col = length m) (transpose_spec c m).
Proof.
  intros Hm. apply Forall_forall. intros col Hcol.
  apply list_elem_of_fmap in Hcol as (i & -> & Hi).
  apply elem_of_seq in Hi.
  assert (∀ k : list (list A), Forall (λ row, length row = c) k →
            length (omap (λ row, row !! i) k) = length k) as Hlen.
  { induction 1 as [|row k Hrow _ IH]; [done|]. simpl.
    destruct (lookup_lt_is_Some_2 row i) as [a Ha]; [lia|].
    rewrite Ha. simpl. by f_equal. }
  by apply Hlen.
Qed.

Lemma reverse_cell m (i j : nat) :
  (j < length m)%nat →
  cell_at (reverse m) j i = cell_at m (length m - 1 - j) i.
Proof.
  intros Hj. unfold cell_at. rewrite reverse_lookup by done.
  by replace (length m - S j)%nat with (length m - 1 - j)%nat by lia.
Qed.
End transpose.

(** C6. For a shape with [r] rows and [c] columns, [rotate] stores the
    transpose of the row-reversed matrix; this is the clockwise quarter
    turn (the new cell at row [i], column [j] is the old cell at row
    [r-1-j], column [i]); the new shape has [c] rows of [r] cells; the
    position of the piece is unchanged. *)
Theorem rotate_clockwise (p : Tetromino) (r c : nat) :
  length (shape p) = r → Forall (λ row, length row = c) (shape p) →
  (0 < r)%nat →
  shape (rotate p) = transpose_spec c (reverse (shape p))
  ∧ length (shape (rotate p)) = c
  ∧ Forall (λ row, length row = r) (shape (rotate p))
  ∧ (∀ i j : nat, (i < c)%nat → (j < r)%nat →
       is_Some (cell_at (shape p) (r - 1 - j) i)
       ∧ cell_at (shape (rotate p)) i j = cell_at (shape p) (r - 1 - j) i)
  ∧ px (rotate p) = px p ∧ py (rotate p) = py p.
Proof.
  intros Hr Hc Hpos.
  assert (reverse (shape p) ≠ []) as Hne.
  { intros Hnil. apply (f_equal length) in Hnil.
    rewrite length_reverse in Hnil. simpl in Hnil. lia. }
  assert (Forall (λ row, length row = c) (reverse (shape p))) as Hrev.
  { apply Forall_forall. intros row Hrow. rewrite elem_of_reverse in Hrow.
    revert row Hrow. by apply Forall_forall. }
  assert (shape (rotate p) = transpose_spec c (reverse (shape p))) as Heq.
  { unfold rotate. simpl. by apply zip_star_transpose. }
  split; [done|]. rewrite Heq.
  split; [unfold transpose_spec; by rewrite length_fmap, length_seq|].
  split.
  { rewrite <- Hr, <- (length_reverse (shape p)). by apply transpose_spec_rows. }
  split; [|done].
  intros i j Hi Hj. split.
  - unfold cell_at.
    destruct (lookup_lt_is_Some_2 (shape p) (r - 1 - j)) as [row Hrow]; [lia|].
    rewrite Hrow. simpl. apply lookup_lt_is_Some_2.
    eapply Forall_lookup_1 in Hc; [|exact Hrow]. simpl in Hc. lia.
  - rewrite transpose_spec_cell by done.
    rewrite reverse_cell by lia. by rewrite Hr.
Qed.

Lemma rotate_clockwise_witness :
  shape (rotate (mkTetromino [[1; 1; 1]; [0; 1; 0]] (128, 0, 128) 4 0))
  = [[0; 1]; [1; 1]; [0; 1]].
Proof.
  pose proof (rotate_clockwise
    (mkTetromino [[1; 1; 1]; [0; 1; 0]] (128, 0, 128) 4 0) 2 3
    eq_refl ltac:(repeat constructor) ltac:(lia)) as (H & _).
  rewrite H. reflexivity.
Defined.

(** C7. Four rotations bring each of the seven shapes back to itself. *)
Theorem rotate_four_times_identity :
  Forall (λ s, ∀ c x y,
            shape (rotate_times 4 (mkTetromino s c x y)) = s) SHAPES.
Proof. repeat constructor. Qed.

(** ** Python lists *)

Section py_lists.
Context {A : Type}.
Implicit Types l : list A.

Lemma norm_index_nonneg (n : nat) (i : Z) :
  0 ≤ i < Z.of_nat n → Py.norm_index n i = Some (Z.to_nat i).
Proof. intros Hi. unfold Py.norm_index. by rewrite bool_decide_eq_true_2. Qed.

Lemma getitem_nonneg l (i : Z) :
  0 ≤ i < Py.len l → ∃ a, l !! Z.to_nat i = Some a ∧ Py.getitem l i = Ok a.
Proof.
  intros Hi. unfold Py.len in Hi. unfold Py.getitem.
  rewrite norm_index_nonneg by done. simpl.
  destruct (lookup_lt_is_Some_2 l (Z.to_nat i)) as [a Ha]; [lia|].
  exists a. by rewrite Ha.
Qed.

Lemma getitem_lookup l (i : Z) (a : A) :
  0 ≤ i → l !! Z.to_nat i = Some a → Py.getitem l i = Ok a.
Proof.
  intros Hi Ha. apply lookup_lt_Some in Ha as Hlt. unfold Py.getitem.
  rewrite norm_index_nonneg by lia. simpl. by rewrite Ha.
Qed.

Lemma setitem_nonneg l (i : Z) (v : A) :
  0 ≤ i < Py.len l → Py.setitem l i v = Ok (<[Z.to_nat i := v]> l).
Proof.
  intros Hi. unfold Py.len in Hi. unfold Py.setitem.
  by rewrite norm_index_nonneg.
Qed.

Lemma delitem_nonneg l (i : Z) :
  0 ≤ i < Py.len l → Py.delitem l i = Ok (delete (Z.to_nat i) l).
Proof.
  intros Hi. unfold Py.len in Hi. unfold Py.delitem.
  by rewrite norm_index_nonneg.
Qed.

Lemma enumerate_from_lookup l (start : Z) (k : nat) :
  Py.enumerate_from start l !! k = (λ a, (start + Z.of_nat k, a)) <$> l !! k.
Proof.
  revert start k. induction l as [|a l IH]; intros start [|k]; simpl.
  - done.
  - done.
  - do 2 f_equal. lia.
  - rewrite IH. destruct (l !! k); simpl; [|done]. do 2 f_equal. lia.
Qed.

Lemma Forall_enumerate_from (P : Z * A → Prop) l (start : Z) :
  Forall P (Py.enumerate_from start l)
  ↔ ∀ (k : nat) a, l !! k = Some a → P (start + Z.of_nat k, a).
Proof.
  rewrite Forall_lookup. split.
  - intros H k a Ha. apply (H k). rewrite enumerate_from_lookup, Ha. done.
  - intros H k [i a] Hk. rewrite enumerate_from_lookup in Hk.
    destruct (l !! k) as [a'|] eqn:Ha; simplify_eq/=. by apply H.
Qed.

Lemma Forall_enumerate (P : Z * A → Prop) l :
  Forall P (Py.enumerate l)
  ↔ ∀ (k : nat) a, l !! k = Some a → P (Z.of_nat k, a).
Proof. unfold Py.enumerate. by rewrite Forall_enumerate_from. Qed.
End py_lists.

(** ** Validity of a move *)

Lemma all_ok_Forall {A} (P : A → Prop) (l : list A) (body : A → result bool) :
  (∀ a, a ∈ l → ∃ b, body a = Ok b ∧ (b = true ↔ P a)) →
  ∃ b, all_ok l body = Ok b ∧ (b = true ↔ Forall P l).
Proof.
  induction l as [|a l IH]; intros Hbody; simpl.
  - exists true. split; [done|]. split; [constructor|done].
  - destruct (Hbody a) as (b & Hb & HP); [left|]. rewrite Hb. simpl.
    destruct b.
    + destruct IH as (b' & Hb' & HP').
      { intros a' Ha'. apply Hbody. by right. }
      exists b'. split; [done|]. rewrite HP', Forall_cons.
      split; [intros ?; split; [by apply HP|done] | by intros [_ ?]].
    + exists false. split; [done|]. rewrite Forall_cons.
      split; [done|]. intros [Ha _]. by apply HP.
Qed.

Lemma rectangular_cell (rows cols : Z) (grid : Grid) (x y : Z) :
  rectangular rows cols grid → 0 ≤ x < cols → 0 ≤ y < rows →
  ∃ r c, grid !! Z.to_nat y = Some r ∧ r !! Z.to_nat x = Some c
         ∧ Py.getitem grid y = Ok r ∧ Py.getitem r x = Ok c.
Proof.
  intros (Hrows & Hcols & _) Hx Hy.
  destruct (getitem_nonneg grid y) as (r & Hr & Hgr); [lia|].
  eapply Forall_lookup_1 in Hcols as Hlen; [|exact Hr]. simpl in Hlen.
  destruct (getitem_nonneg r x) as (c & Hc & Hgc); [lia|].
  by exists r, c.
Qed.

Lemma check_cell_spec (rows cols : Z) (grid : Grid) (piece : Tetromino)
    (dx dy : Z) (i j : nat) (cell : Z) :
  rectangular rows cols grid →
  ∃ b, check_cell piece dx dy grid (Z.of_nat i) (Z.of_nat j) cell = Ok b
       ∧ (b = true ↔ (cell ≠ 0 → cell_fits rows cols grid piece dx dy i j)).
Proof.
  intros Hrect. pose proof Hrect as (Hrows & Hcols & Hpos).
  unfold check_cell, truthy, cell_fits. cbv zeta.
  set (x := px piece + Z.of_nat j + dx). set (y := py piece + Z.of_nat i + dy).
  case_bool_decide as Hcell; [|exists true; naive_solver].
  unfold outside_grid.
  case_bool_decide as Hx0; simpl.
  { exists false. split; [done|]. split; [done|]. intros H. apply H in Hcell. lia. }
  destruct (getitem_nonneg grid 0) as (g0 & Hg0 & Hget0); [lia|].
  rewrite Hget0. simpl.
  eapply Forall_lookup_1 in Hcols as Hlen0; [|exact Hg0]. simpl in Hlen0.
  rewrite Hlen0, Hrows.
  case_bool_decide as Hx1; simpl.
  { exists false. split; [done|]. split; [done|]. intros H. apply H in Hcell. lia. }
  case_bool_decide as Hy1; simpl.
  { exists false. split; [done|]. split; [done|]. intros H. apply H in Hcell. lia. }
  unfold hits_block.
  case_bool_decide as Hy0; simpl.
  - destruct (rectangular_cell rows cols grid x y) as (r & c & Hr & Hc & Hgr & Hgc);
      [done|lia|lia|].
    rewrite Hgr. simpl. rewrite Hgc. simpl.
    exists (negb (bool_decide (c ≠ BLACK))). split; [done|].
    unfold cell_at. rewrite Hr. simpl. rewrite Hc.
    case_bool_decide as Hblack; simpl.
    + split; [done|]. intros H. apply H in Hcell as (_ & _ & Hb).
      specialize (Hb Hy0). congruence.
    + split; [|done]. intros _ _. subst c. split; [lia|]. split; [lia|done].
  - exists true. split; [done|]. split; [|done]. intros _ _.
    split; [lia|]. split; [lia|]. intros ?. lia.
Qed.

Lemma is_valid_move_rectangular (rows cols : Z) (grid : Grid)
    (piece : Tetromino) (dx dy : Z) :
  rectangular rows cols grid →
  ∃ b, is_valid_move piece dx dy grid = Ok b
       ∧ (b = true ↔
          ∀ (i j : nat) (cell : Z),
            cell_at (shape piece) i j = Some cell → cell ≠ 0 →
            cell_fits rows cols grid piece dx dy i j).
Proof.
  intros Hrect. unfold is_valid_move.
  destruct (all_ok_Forall
    (λ '(y, row), ∀ (j : nat) cell, row !! j = Some cell → cell ≠ 0 →
        cell_fits rows cols grid piece dx dy (Z.to_nat y) j)
    (Py.enumerate (shape piece))
    (λ '(y, row), all_ok (Py.enumerate row)
       (λ '(x, cell), check_cell piece dx dy grid y x cell)))
    as (b & Hb & HP).
  { intros [y row] Hin. apply list_elem_of_lookup in Hin as [k Hk].
    unfold Py.enumerate in Hk. rewrite enumerate_from_lookup in Hk.
    destruct (shape piece !! k) as [row'|] eqn:Hrow; simplify_eq/=.
    rewrite Z.add_0_l, Nat2Z.id.
    destruct (all_ok_Forall
      (λ '(x, cell), cell ≠ 0 →
         cell_fits rows cols grid piece dx dy k (Z.to_nat x))
      (Py.enumerate row)
      (λ '(x, cell), check_cell piece dx dy grid (Z.of_nat k) x cell))
      as (b & Hb & HP).
    { intros [x cell] Hin. apply list_elem_of_lookup in Hin as [k' Hk'].
      unfold Py.enumerate in Hk'. rewrite enumerate_from_lookup in Hk'.
      destruct (row !! k') as [cell'|] eqn:Hcell; simplify_eq/=.
      rewrite Z.add_0_l, Nat2Z.id. by apply check_cell_spec. }
    exists b. split; [done|]. rewrite HP, Forall_enumerate.
    split.
    - intros H j cell Hj. specialize (H j cell Hj). simpl in H.
      by rewrite Nat2Z.id in H.
    - intros H j cell Hj. simpl. rewrite Nat2Z.id. by apply H. }
  exists b. split; [done|]. rewrite HP, Forall_enumerate.
  unfold cell_at. split.
  - intros H i j cell Hcell.
    destruct (shape piece !! i) as [row|] eqn:Hrow; simplify_eq/=.
    specialize (H i row Hrow j cell Hcell). simpl in H.
    by rewrite Nat2Z.id in H.
  - intros H i row Hrow j cell Hcell. rewrite Nat2Z.id.
    apply (H i j cell). by rewrite Hrow.
Qed.

(** C2. On a grid of [GRID_ROWS] rows and [GRID_COLUMNS] columns
    [is_valid_move] returns, and it returns [True] exactly when every
    occupied cell of the piece, shifted by [(dx, dy)], has its x in
    [0, GRID_COLUMNS) and its y below [GRID_ROWS], and lands on an empty
    cell whenever its y is not negative. *)
Theorem is_valid_move_iff (piece : Tetromino) (dx dy : Z) (grid : Grid) :
  Py.len grid = GRID_ROWS →
  Forall (λ row, Py.len row = GRID_COLUMNS) grid →
  ∃ b, is_valid_move piece dx dy grid = Ok b
       ∧ (b = true ↔
          ∀ (i j : nat) (cell : Z),
            cell_at (shape piece) i j = Some cell → cell ≠ 0 →
            let x := px piece + Z.of_nat j + dx in
            let y := py piece + Z.of_nat i + dy in
            0 ≤ x < GRID_COLUMNS ∧ y < GRID_ROWS
            ∧ (0 ≤ y → cell_at grid (Z.to_nat y) (Z.to_nat x) = Some BLACK)).
Proof.
  intros Hrows Hcols.
  apply (is_valid_move_rectangular GRID_ROWS GRID_COLUMNS).
  split; [done|]. split; [done|]. reflexivity.
Qed.

(** ** The store *)

Lemma load_Ok (h : heap) (l : loc) (r : list Color) :
  load h l = Ok r ↔ h !! l = Some r.
Proof. unfold load. apply of_option_Ok. Qed.

Lemma load_app (h ext : heap) (l : loc) (r : list Color) :
  load h l = Ok r → load (h ++ ext) l = Ok r.
Proof. rewrite !load_Ok. apply lookup_app_l_Some. Qed.

Lemma read_grid_Ok (h : heap) (g : list loc) (rows : Grid) :
  read_grid h g = Ok rows ↔ Forall2 (λ l r, h !! l = Some r) g rows.
Proof.
  revert rows. induction g as [|l g IH]; intros rows; simpl.
  - split; [intros; simplify_eq; constructor | by intros ->%Forall2_nil_inv_l].
  - split.
    + intros H. inv_ok. constructor; [by apply load_Ok | by apply IH].
    + intros (r & rows' & Hr & Hrows & ->)%Forall2_cons_inv_l.
      apply load_Ok in Hr. apply IH in Hrows. by rewrite Hr, Hrows.
Qed.

Lemma read_grid_app (h ext : heap) (g : list loc) (rows : Grid) :
  read_grid h g = Ok rows → read_grid (h ++ ext) g = Ok rows.
Proof.
  rewrite !read_grid_Ok. intros H. eapply Forall2_impl; [exact H|].
  intros l r. apply lookup_app_l_Some.
Qed.

Lemma read_grid_bound (h : heap) (g : list loc) (rows : Grid) :
  read_grid h g = Ok rows → Forall (λ l, (l < length h)%nat) g.
Proof.
  rewrite read_grid_Ok. induction 1 as [|l r g rows Hl _ IH]; constructor;
    [by eapply lookup_lt_Some | done].
Qed.

Lemma read_grid_length (h : heap) (g : list loc) (rows : Grid) :
  read_grid h g = Ok rows → length rows = length g.
Proof. rewrite read_grid_Ok. intros H. symmetry. by eapply Forall2_length. Qed.

Lemma full_at_app (h ext : heap) (l : loc) :
  (l < length h)%nat → full_at (h ++ ext) l = full_at h l.
Proof. intros Hl. unfold full_at. by rewrite lookup_app_l. Qed.

(** ** The line-clear phase *)

Lemma clear_loop (h0 : heap) (todo : list loc) :
  Forall (λ l, (l < length h0)%nat) todo →
  ∀ (pre : list loc) (ext : heap) (n : Z),
    for_each (Py.enumerate_from (Z.of_nat (length pre)) todo) clear_step
      (h0 ++ ext, pre ++ todo, n)
    = Ok (h0 ++ ext ++ (blank_like h0 <$> filter (λ l, full_at h0 l = true) todo),
          reverse (seq (length (h0 ++ ext))
                       (length (filter (λ l, full_at h0 l = true) todo)))
          ++ pre ++ filter (λ l, full_at h0 l = false) todo,
          n + Z.of_nat (length (filter (λ l, full_at h0 l = true) todo))).
Proof.
  induction 1 as [|l todo Hl _ IH]; intros pre ext n.
  - simpl. rewrite !app_nil_r, Z.add_0_r. done.
  - destruct (lookup_lt_is_Some_2 h0 l Hl) as [r Hr].
    cbn [Py.enumerate_from for_each]. unfold clear_step at 1.
    assert (load (h0 ++ ext) l = Ok r) as ->.
    { apply load_app. by apply load_Ok. }
    assert (full_at h0 l = row_full r) as Hfl by (unfold full_at; by rewrite Hr).
    assert (blank_like h0 l = replicate (length r) BLACK) as Hbl
      by (unfold blank_like; by rewrite Hr).
    cbn [bind]. destruct (row_full r) eqn:Hfull.
    + rewrite (filter_cons_True (λ l, full_at h0 l = true)) by done.
      rewrite (filter_cons_False (λ l, full_at h0 l = false)) by congruence.
      rewrite delitem_nonneg by (unfold Py.len; rewrite length_app; simpl; lia).
      rewrite Nat2Z.id, delete_middle. cbn [bind alloc].
      replace (Z.of_nat (length pre) + 1)
        with (Z.of_nat (length (length (h0 ++ ext) :: pre))) by (simpl; lia).
      change (length (h0 ++ ext) :: pre ++ todo)
        with ((length (h0 ++ ext) :: pre) ++ todo).
      rewrite <- (app_assoc h0 ext). rewrite IH.
      rewrite fmap_cons, Hbl. cbn [length].
      rewrite <- cons_seq, reverse_cons.
      rewrite !length_app. cbn [length].
      replace (length h0 + (length ext + 1))%nat
        with (S (length h0 + length ext)) by lia.
      rewrite <- !app_assoc. cbn [app].
      do 2 f_equal. lia.
    + rewrite (filter_cons_False (λ l, full_at h0 l = true)) by congruence.
      rewrite (filter_cons_True (λ l, full_at h0 l = false)) by done.
      replace (Z.of_nat (length pre) + 1)
        with (Z.of_nat (length (pre ++ [l]))) by (rewrite length_app; simpl; lia).
      replace (pre ++ l :: todo) with ((pre ++ [l]) ++ todo)
        by (by rewrite <- app_assoc).
      cbn [bind]. rewrite IH. by rewrite <- (app_assoc pre).
Qed.

Lemma read_grid_fresh (h ext : heap) :
  read_grid (h ++ ext) (seq (length h) (length ext)) = Ok ext.
Proof.
  apply read_grid_Ok. apply Forall2_same_length_lookup.
  split; [by rewrite length_seq|]. intros i l r Hl Hr.
  apply lookup_seq in Hl as [-> Hi].
  rewrite lookup_app_r by lia. by replace (length h + i - length h)%nat with i by lia.
Qed.

Lemma read_grid_filter (h : heap) (g : list loc) (rows : Grid) (b : bool) :
  read_grid h g = Ok rows →
  read_grid h (filter (λ l, full_at h l = b) g)
  = Ok (filter (λ r, row_full r = b) rows).
Proof.
  rewrite !read_grid_Ok. induction 1 as [|l r g rows Hl _ IH]; [constructor|].
  assert (full_at h l = row_full r) as Hfl by (unfold full_at; by rewrite Hl).
  rewrite !filter_cons. rewrite Hfl.
  destruct (decide (row_full r = b)); [by constructor | done].
Qed.

(** C1. The line-clear phase of [lock_piece], run on a grid whose rows all
    exist, returns.  The rows left are exactly those that were not full
    when the scan began, in their old order; in front of them stands one
    new row per full row, each empty and as wide as the row it replaces;
    no row object that existed before is altered; and the count returned
    is the number of rows that were full. *)
Theorem clear_lines_removes_full_rows (h : heap) (live : list loc) (rows : Grid) :
  read_grid h live = Ok rows →
  let full := filter (λ l, full_at h l = true) live in
  let kept := filter (λ l, full_at h l = false) live in
  let fresh := reverse (seq (length h) (length full)) in
  ∃ h',
    clear_lines h live = Ok (h', fresh ++ kept, Z.of_nat (length full))
    ∧ (∀ l r, h !! l = Some r → h' !! l = Some r)
    ∧ Forall (λ l, l ∉ live) fresh
    ∧ read_grid h' fresh = Ok (reverse (blank_like h <$> full))
    ∧ Forall (λ r, Forall (λ c, c = BLACK) r) (blank_like h <$> full)
    ∧ read_grid h' kept = Ok (filter (λ r, row_full r = false) rows)
    ∧ length full = length (filter (λ r, row_full r = true) rows)
    ∧ length (fresh ++ kept) = length live.
Proof.
  intros Hrows full kept fresh.
  pose proof (read_grid_bound _ _ _ Hrows) as Hbound.
  pose proof (clear_loop h live Hbound [] [] 0) as Hloop.
  rewrite app_nil_r in Hloop. simpl in Hloop.
  exists (h ++ (blank_like h <$> full)).
  split; [exact Hloop|].
  split; [intros l r; apply lookup_app_l_Some|].
  split.
  { apply Forall_forall. intros l Hl. subst fresh.
    rewrite elem_of_reverse, elem_of_seq in Hl. intros Hin.
    rewrite Forall_forall in Hbound. apply Hbound in Hin. lia. }
  split.
  { apply read_grid_Ok. apply Forall2_reverse. apply read_grid_Ok.
    subst fresh. rewrite <- (length_fmap (blank_like h) full).
    apply read_grid_fresh. }
  split.
  { apply Forall_fmap, Forall_forall. intros l _. simpl. unfold blank_like.
    destruct (h !! l); [|constructor].
    apply Forall_forall. by intros c [-> _]%elem_of_replicate. }
  split; [by apply read_grid_app, read_grid_filter|].
  split.
  { apply (read_grid_filter h live rows true) in Hrows.
    apply read_grid_length in Hrows. by rewrite Hrows. }
  subst fresh kept full. rewrite length_app, length_reverse, length_seq.
  clear. induction live as [|l live IH]; [done|].
  rewrite !filter_cons. destruct (full_at h l).
  - rewrite decide_True, decide_False by done. simpl. lia.
  - rewrite decide_False, decide_True by done. simpl. lia.
Qed.

(** ** Scoring *)

Lemma clear_lines_count (h : heap) (live : list loc) (rows : Grid) :
  read_grid h live = Ok rows →
  ∃ h' live',
    clear_lines h live
    = Ok (h', live', Z.of_nat (length (filter (λ r, row_full r = true) rows))).
Proof.
  intros Hrows.
  pose proof (clear_loop h live (read_grid_bound _ _ _ Hrows) [] [] 0) as Hloop.
  apply (read_grid_filter h live rows true) in Hrows.
  apply read_grid_length in Hrows. rewrite Hrows.
  rewrite app_nil_r in Hloop. eexists _, _. exact Hloop.
Qed.

(** C5. When the piece can be written and the grid then holds 0, 1, 2, 3
    or 4 full rows, [lock_piece] returns and adds 0, 40, 100, 300 or 1200
    to the player's score. *)
Theorem lock_piece_score_delta (h : heap) (player : TetrisPlayer)
    (h1 : heap) (rows : Grid) (gain : Z) :
  place_cells h (grid player) (current_piece player) = Ok h1 →
  read_grid h1 (grid player) = Ok rows →
  line_clear_score (length (filter (λ r, row_full r = true) rows)) = Some gain →
  ∃ h' player',
    lock_piece h player = Ok (h', player')
    ∧ score player' - score player = gain.
Proof.
  intros Hplace Hrows Hgain. unfold lock_piece. rewrite Hplace. cbn [bind].
  destruct (clear_lines_count h1 (grid player) rows Hrows) as (h' & live' & ->).
  cbn [bind].
  destruct (length (filter (λ r, row_full r = true) rows))
    as [|[|[|[|[|n]]]]]; simplify_eq/=; eexists _, _; (split; [done|simpl; lia]).
Qed.

(** ** Loops *)

Lemma for_each_app {A S} (l1 l2 : list A) (body : A → S → result S) (st : S) :
  for_each (l1 ++ l2) body st = (st' <- for_each l1 body st; for_each l2 body st').
Proof.
  revert st. induction l1 as [|a l1 IH]; intros st; simpl; [done|].
  destruct (body a st); simpl; [apply IH | done].
Qed.

(** A loop invariant [I done st] over the items already visited. *)
Lemma for_each_invariant {A S} (I : list A → S → Prop) (l : list A)
    (body : A → S → result S) (st : S) :
  I [] st →
  (∀ done a rest s, l = done ++ a :: rest → I done s →
     ∃ s', body a s = Ok s' ∧ I (done ++ [a]) s') →
  ∃ st', for_each l body st = Ok st' ∧ I l st'.
Proof.
  intros Hinit Hstep.
  assert (∀ todo done s, l = done ++ todo → I done s →
            ∃ st', for_each todo body s = Ok st' ∧ I l st') as Hgen.
  { induction todo as [|a todo IH]; intros done s Hl Hs.
    - rewrite app_nil_r in Hl. subst done. by exists s.
    - destruct (Hstep done a todo s Hl Hs) as (s' & Hbody & Hs').
      simpl. rewrite Hbody. simpl. apply (IH (done ++ [a])); [|done].
      by rewrite <- app_assoc. }
  by apply (Hgen l []).
Qed.

(** A property of the state that every pass preserves. *)
Lemma for_each_preserves {A S} (I : S → Prop) (l : list A)
    (body : A → S → result S) (st st' : S) :
  (∀ a s s', I s → body a s = Ok s' → I s') →
  I st → for_each l body st = Ok st' → I st'.
Proof.
  intros Hpres. revert st. induction l as [|a l IH]; intros st Hst Hfor;
    simpl in Hfor.
  - by inv_ok.
  - inv_ok. eapply IH; [|done]. by eapply Hpres.
Qed.

(** Two loops that stay related by a map [f] of their states, as long as
    the state of the second satisfies [I]. *)
Lemma for_each_map {A S T} (f : T → S) (I : T → Prop) (l : list A)
    (body1 : A → S → result S) (body2 : A → T → result T) (t : T) :
  I t →
  (∀ a t, I t → body1 a (f t) = (t' <- body2 a t; Ok (f t'))) →
  (∀ a t t', I t → body2 a t = Ok t' → I t') →
  for_each l body1 (f t) = (t' <- for_each l body2 t; Ok (f t')).
Proof.
  intros Ht Hbody Hpres. revert t Ht.
  induction l as [|a l IH]; intros t Ht; simpl.
  - done.
  - rewrite Hbody by done. destruct (body2 a t) as [t1|e] eqn:Hb; simpl.
    + apply IH. by eapply Hpres.
    + done.
Qed.

(** ** Copies of the board *)

Lemma copy_rows_fresh (h : heap) (g : list loc) (rows : Grid) :
  read_grid h g = Ok rows →
  copy_rows h g = Ok (h ++ rows, seq (length h) (length rows)).
Proof.
  revert h rows. induction g as [|l g IH]; intros h rows Hrows; simpl in *.
  - inv_ok. by rewrite app_nil_r.
  - apply bind_Ok in Hrows as (r & Hr & Hrows).
    apply bind_Ok in Hrows as (rows' & Hrows' & Hrows). inv_ok.
    rewrite Hr. cbn [bind alloc].
    rewrite (IH (h ++ [r]) rows') by (by apply read_grid_app).
    cbn [bind]. rewrite <- app_assoc, length_app. simpl.
    by replace (length h + 1)%nat with (S (length h)) by lia.
Qed.

(** ** Writing the piece: store and values agree *)

Lemma write_cell_length (piece : Tetromino) (y x cell : Z) (rows rows' : Grid) :
  write_cell piece y x cell rows = Ok rows' → length rows' = length rows.
Proof.
  unfold write_cell. intros H.
  destruct (truthy cell); [|by inv_ok].
  case_bool_decide; [|by inv_ok].
  inv_ok. by rewrite length_insert.
Qed.

Lemma place_cell_fresh (h0 : heap) (n : nat) (piece : Tetromino)
    (y x cell : Z) (rows : Grid) :
  length rows = n →
  (if truthy cell then
     if bool_decide (0 ≤ py piece + y < Py.len (seq (length h0) n)) then
       l <- Py.getitem (seq (length h0) n) (py piece + y);
       r <- load (h0 ++ rows) l;
       r' <- Py.setitem r (px piece + x) (color piece);
       Ok (store (h0 ++ rows) l r')
     else Ok (h0 ++ rows)
   else Ok (h0 ++ rows))
  = (rows' <- write_cell piece y x cell rows; Ok (h0 ++ rows')).
Proof.
  intros Hn. unfold write_cell. destruct (truthy cell); [|done].
  unfold Py.len. rewrite length_seq, Hn.
  case_bool_decide as Hy; [|done].
  assert (Py.getitem (seq (length h0) n) (py piece + y)
          = Ok (length h0 + Z.to_nat (py piece + y))%nat) as ->.
  { apply getitem_lookup; [lia|]. apply lookup_seq_lt. lia. }
  cbn [bind].
  destruct (getitem_nonneg rows (py piece + y)) as (r & Hr & ->);
    [unfold Py.len; lia|].
  assert (load (h0 ++ rows) (length h0 + Z.to_nat (py piece + y))%nat = Ok r) as ->.
  { apply load_Ok. rewrite lookup_app_r by lia.
    by replace (length h0 + Z.to_nat (py piece + y) - length h0)%nat
      with (Z.to_nat (py piece + y)) by lia. }
  cbn [bind]. destruct (Py.setitem r (px piece + x) (color piece)) as [r'|e];
    [|done].
  cbn [bind]. unfold store. f_equal.
  rewrite insert_app_r_alt by lia. do 2 f_equal. lia.
Qed.

Lemma write_row_length (piece : Tetromino) (y : Z) (row : list Z)
    (rows rows' : Grid) :
  for_each (Py.enumerate row)
    (λ '(x, cell) rows, write_cell piece y x cell rows) rows = Ok rows' →
  length rows' = length rows.
Proof.
  apply (for_each_preserves (λ r, length r = length rows)); [|done].
  intros [x cell] t1 t2 Ht1 Hw. apply write_cell_length in Hw. congruence.
Qed.

Lemma write_piece_length (rows rows' : Grid) (piece : Tetromino) :
  write_piece rows piece = Ok rows' → length rows' = length rows.
Proof.
  apply (for_each_preserves (λ r, length r = length rows)); [|done].
  intros [y row] t1 t2 Ht1 Hw. apply write_row_length in Hw. congruence.
Qed.

Lemma place_cells_fresh (h0 : heap) (rows : Grid) (piece : Tetromino) :
  place_cells (h0 ++ rows) (seq (length h0) (length rows)) piece
  = (rows' <- write_piece rows piece; Ok (h0 ++ rows')).
Proof.
  unfold place_cells, write_piece.
  apply (for_each_map (λ rows, h0 ++ rows) (λ r, length r = length rows)).
  - done.
  - intros [y row] t Ht.
    apply (for_each_map (λ rows, h0 ++ rows) (λ r, length r = length rows)).
    + done.
    + intros [x cell] t' Ht'. by apply place_cell_fresh.
    + intros [x cell] t1 t2 Ht1 Hw. apply write_cell_length in Hw. congruence.
  - intros [y row] t t' Ht Hfor. apply write_row_length in Hfor. congruence.
Qed.

(** ** One candidate: the loop body and [candidate] agree *)

Lemma try_offset_candidate (h : heap) (self_grid : list loc) (rows : Grid)
    (current test_piece : Tetromino) (rot dx : Z) (best : option Z * Move) :
  read_grid h self_grid = Ok rows →
  match candidate rows (set_py (py current) (set_px (px current + dx) test_piece)) with
  | Ok o =>
      ∃ ext, try_offset self_grid current rot test_piece dx (h, best)
             = Ok (h ++ ext, better rot o best)
  | Raise e =>
      try_offset self_grid current rot test_piece dx (h, best) = Raise e
  end.
Proof.
  intros Hrows. destruct best as [best_score best_move].
  unfold try_offset, candidate.
  set (start := set_py (py current) (set_px (px current + dx) test_piece)).
  rewrite (copy_rows_fresh h self_grid rows Hrows). cbn [bind].
  rewrite read_grid_fresh. cbn [bind].
  destruct (drop (drop_fuel rows start) rows start) as [temp|e]; [|done].
  cbn [bind].
  destruct (is_valid_move temp 0 0 rows) as [[|]|e]; cbn [bind]; [| |done].
  - rewrite (copy_rows_fresh (h ++ rows) _ rows (read_grid_fresh h rows)).
    cbn [bind]. rewrite place_cells_fresh.
    destruct (write_piece rows temp) as [rows'|e] eqn:Hw; [|done].
    cbn [bind]. rewrite <- (write_piece_length _ _ _ Hw).
    rewrite read_grid_fresh. cbn [bind]. unfold board_score.
    destruct (calculate_board_height rows') as [height|e]; [|done].
    cbn [bind].
    destruct (calculate_holes rows') as [holes|e]; [|done].
    cbn [bind].
    destruct (calculate_bumpiness rows') as [bumpiness|e]; [|done].
    cbn [bind better fst].
    exists (rows ++ rows'). rewrite <- app_assoc.
    by destruct (improves _ best_score).
  - exists rows. done.
Qed.

(** ** The heuristic terms return on a rectangular grid *)

Lemma for_each_total {A S} (I : S → Prop) (l : list A)
    (body : A → S → result S) (st : S) :
  (∀ a s, a ∈ l → I s → ∃ s', body a s = Ok s' ∧ I s') →
  I st → ∃ st', for_each l body st = Ok st' ∧ I st'.
Proof.
  revert st. induction l as [|a l IH]; intros st Hbody Hst; simpl.
  - by exists st.
  - destruct (Hbody a st) as (s' & -> & Hs'); [left|done|]. simpl.
    apply IH; [|done]. intros a' s Ha'. apply Hbody. by right.
Qed.

Lemma first_return_total {A B} (l : list A) (body : A → result (option B)) :
  (∀ a, a ∈ l → ∃ r, body a = Ok r) → ∃ r, first_return l body = Ok r.
Proof.
  induction l as [|a l IH]; intros Hbody; simpl.
  - by eexists.
  - destruct (Hbody a) as ([b|] & ->); [left| |]; simpl.
    + by eexists.
    + apply IH. intros a' Ha'. apply Hbody. by right.
Qed.

Lemma comprehension_total {A B} (l : list A) (f : A → result B) :
  (∀ a, a ∈ l → ∃ b, f a = Ok b) →
  ∃ bs, comprehension l f = Ok bs ∧ length bs = length l.
Proof.
  induction l as [|a l IH]; intros Hf; simpl.
  - by exists [].
  - destruct (Hf a) as (b & ->); [left|]. simpl.
    destruct IH as (bs & -> & Hlen).
    { intros a' Ha'. apply Hf. by right. }
    simpl. exists (b :: bs). split; [done|]. simpl. by rewrite Hlen.
Qed.

Lemma elem_of_range (a b v : Z) : v ∈ Py.range a b ↔ a ≤ v < b.
Proof. unfold Py.range. rewrite elem_of_seqZ. lia. Qed.

Lemma length_range (a b : Z) : Py.len (Py.range a b) = Z.max 0 (b - a).
Proof. unfold Py.len, Py.range. rewrite length_seqZ. lia. Qed.

Section heuristics.
Context (rows cols : Z) (grid : Grid) (Hrect : rectangular rows cols grid).

Lemma rectangular_first_row :
  ∃ g0, Py.getitem grid 0 = Ok g0 ∧ Py.len g0 = cols.
Proof.
  destruct Hrect as (Hrows & Hcols & Hpos).
  destruct (getitem_nonneg grid 0) as (g0 & Hg0 & Hget); [lia|].
  exists g0. split; [done|].
  eapply Forall_lookup_1 in Hcols; [|exact Hg0]. done.
Qed.

Lemma calculate_board_height_total : ∃ v, calculate_board_height grid = Ok v.
Proof.
  unfold calculate_board_height.
  destruct (first_return_total (Py.range 0 (Py.len grid))
    (λ y, row <- Py.getitem grid y;
          if existsb not_black row then Ok (Some (Py.len grid - y)) else Ok None))
    as (r & ->); [|by eexists].
  intros y Hy%elem_of_range.
  destruct (getitem_nonneg grid y) as (row & _ & ->); [lia|]. simpl.
  destruct (existsb not_black row); by eexists.
Qed.

Lemma get_column_height_total (column : Z) :
  0 ≤ column < cols → ∃ v, get_column_height grid column = Ok v.
Proof.
  intros Hcol. unfold get_column_height.
  destruct (first_return_total (Py.range 0 (Py.len grid))
    (λ y, row <- Py.getitem grid y;
          c <- Py.getitem row column;
          if not_black c then Ok (Some (Py.len grid - y)) else Ok None))
    as (r & ->); [|by eexists].
  intros y Hy%elem_of_range.
  destruct (rectangular_cell rows cols grid column y) as (r & c & _ & _ & -> & Hc);
    [done|done|destruct Hrect; lia|].
  simpl. rewrite Hc. simpl. destruct (not_black c); by eexists.
Qed.

Lemma calculate_holes_total : ∃ v, calculate_holes grid = Ok v.
Proof.
  unfold calculate_holes.
  destruct rectangular_first_row as (g0 & -> & Hlen0). cbn [bind].
  destruct (for_each_total (λ _ : Z, True) (Py.range 0 (Py.len g0))
    (λ x holes,
       st <- for_each (Py.range 0 (Py.len grid)) (holes_step grid x) (false, holes);
       Ok (snd st)) 0) as (v & -> & _); [|done|by eexists].
  intros x holes Hx%elem_of_range _.
  destruct (for_each_total (λ _ : bool * Z, True) (Py.range 0 (Py.len grid))
    (holes_step grid x) (false, holes)) as (st & -> & _); [|done|by eexists].
  intros y [found n] Hy%elem_of_range _. unfold holes_step.
  destruct (rectangular_cell rows cols grid x y) as (r & c & _ & _ & -> & Hc);
    [done|lia|destruct Hrect; lia|].
  simpl. rewrite Hc. simpl.
  destruct (not_black c); [by eexists|]. destruct found; by eexists.
Qed.

Lemma calculate_bumpiness_total : ∃ v, calculate_bumpiness grid = Ok v.
Proof.
  unfold calculate_bumpiness.
  destruct rectangular_first_row as (g0 & -> & Hlen0). cbn [bind].
  destruct (comprehension_total (Py.range 0 (Py.len g0))
    (get_column_height grid)) as (chs & -> & Hlen).
  { intros x Hx%elem_of_range. apply get_column_height_total. lia. }
  cbn [bind].
  destruct (comprehension_total (Py.range 0 (Py.len chs - 1))
    (λ i, a <- Py.getitem chs i;
          b <- Py.getitem chs (i + 1);
          Ok (Z.abs (a - b)))) as (terms & -> & _); [|by eexists].
  intros i Hi%elem_of_range.
  destruct (getitem_nonneg chs i) as (a & _ & ->); [lia|].
  destruct (getitem_nonneg chs (i + 1)) as (b & _ & ->); [lia|].
  by eexists.
Qed.

Lemma board_score_total : ∃ v, board_score grid = Ok v.
Proof.
  unfold board_score.
  destruct calculate_board_height_total as (height & ->).
  destruct calculate_holes_total as (holes & ->).
  destruct calculate_bumpiness_total as (bumpiness & ->).
  by eexists.
Qed.
End heuristics.

(** ** Writing a piece whose cells lie inside the columns *)

Lemma write_cell_total (rows cols : Z) (grid : Grid) (piece : Tetromino)
    (y x cell : Z) :
  rectangular rows cols grid →
  (cell ≠ 0 → 0 ≤ px piece + x < cols) →
  ∃ grid', write_cell piece y x cell grid = Ok grid' ∧ rectangular rows cols grid'.
Proof.
  intros Hrect Hx. pose proof Hrect as (Hrows & Hcols & Hpos).
  unfold write_cell, truthy.
  case_bool_decide as Hcell; [|by exists grid].
  case_bool_decide as Hy; [|by exists grid].
  destruct (getitem_nonneg grid (py piece + y)) as (r & Hr & ->); [lia|].
  cbn [bind].
  eapply Forall_lookup_1 in Hcols as Hlen; [|exact Hr]. simpl in Hlen.
  rewrite setitem_nonneg by (specialize (Hx Hcell); lia). cbn [bind].
  eexists. split; [done|]. split; [|split; [|done]].
  - unfold Py.len in *. by rewrite length_insert.
  - apply Forall_insert; [done|]. unfold Py.len in *. by rewrite length_insert.
Qed.

Lemma write_piece_total (rows cols : Z) (grid : Grid) (piece : Tetromino) :
  rectangular rows cols grid →
  (∀ (i j : nat) cell, cell_at (shape piece) i j = Some cell → cell ≠ 0 →
     0 ≤ px piece + Z.of_nat j < cols) →
  ∃ grid', write_piece grid piece = Ok grid' ∧ rectangular rows cols grid'.
Proof.
  intros Hrect Hcells. unfold write_piece.
  apply (for_each_total (rectangular rows cols)); [|done].
  intros [y row] g Hin Hg. apply list_elem_of_lookup in Hin as [i Hi].
  unfold Py.enumerate in Hi. rewrite enumerate_from_lookup in Hi.
  destruct (shape piece !! i) as [row'|] eqn:Hrow; simplify_eq/=.
  apply (for_each_total (rectangular rows cols)); [|done].
  intros [x cell] g' Hin Hg'. apply list_elem_of_lookup in Hin as [j Hj].
  unfold Py.enumerate in Hj. rewrite enumerate_from_lookup in Hj.
  destruct (row !! j) as [cell'|] eqn:Hcell; simplify_eq/=.
  apply write_cell_total; [done|]. intros Hne. rewrite Z.add_0_l.
  apply (Hcells i j cell); [|done]. unfold cell_at. by rewrite Hrow.
Qed.

(** ** The simulated drop *)

Lemma is_valid_move_empty_shape (piece : Tetromino) (dx dy : Z) (grid : Grid) :
  ¬ occupied (shape piece) → is_valid_move piece dx dy grid = Ok true.
Proof.
  intros Hempty. unfold is_valid_move.
  destruct (all_ok_Forall (λ _, True) (Py.enumerate (shape piece))
    (λ '(y, row), all_ok (Py.enumerate row)
       (λ '(x, cell), check_cell piece dx dy grid y x cell)))
    as (b & -> & Hb).
  { intros [y row] Hin. apply list_elem_of_lookup in Hin as [i Hi].
    unfold Py.enumerate in Hi. rewrite enumerate_from_lookup in Hi.
    destruct (shape piece !! i) as [row'|] eqn:Hrow; simplify_eq/=.
    destruct (all_ok_Forall (λ _, True) (Py.enumerate row)
      (λ '(x, cell), check_cell piece dx dy grid (0 + Z.of_nat i) x cell))
      as (b & -> & Hb).
    { intros [x cell] Hin. apply list_elem_of_lookup in Hin as [j Hj].
      unfold Py.enumerate in Hj. rewrite enumerate_from_lookup in Hj.
      destruct (row !! j) as [cell'|] eqn:Hcell; simplify_eq/=.
      exists true. split; [|done]. unfold check_cell, truthy.
      case_bool_decide as Hne; [|done]. destruct Hempty.
      exists i, j, cell. unfold cell_at. by rewrite Hrow. }
    exists b. split; [done|]. split; [done|]. intros _. apply Hb.
    by apply Forall_true. }
  f_equal. apply Hb. by apply Forall_true.
Qed.

(** A piece without occupied cells keeps the loop running for ever. *)
Lemma drop_empty_shape (fuel : nat) (grid : Grid) (piece : Tetromino) :
  ¬ occupied (shape piece) → drop fuel grid piece = Raise NoReturn.
Proof.
  revert piece. induction fuel as [|fuel IH]; intros piece Hempty; simpl.
  - done.
  - rewrite is_valid_move_empty_shape by done. simpl. by apply IH.
Qed.

(** More passes than needed change nothing. *)
Lemma drop_more_fuel (fuel extra : nat) (grid : Grid) (piece t : Tetromino) :
  drop fuel grid piece = Ok t → drop (fuel + extra) grid piece = Ok t.
Proof.
  revert piece. induction fuel as [|fuel IH]; intros piece; simpl.
  - discriminate.
  - destruct (is_valid_move piece 0 1 grid) as [[|]|e]; simpl; [apply IH|done|done].
Qed.

Lemma drop_total (rows cols : Z) (grid : Grid) :
  rectangular rows cols grid →
  ∀ (fuel : nat) (piece : Tetromino),
    occupied (shape piece) →
    (Z.to_nat (rows - py piece) < fuel)%nat →
    ∃ t, drop fuel grid piece = Ok t
         ∧ shape t = shape piece ∧ color t = color piece
         ∧ px t = px piece ∧ py piece ≤ py t.
Proof.
  intros Hrect. induction fuel as [|fuel IH]; intros piece Hocc Hfuel; [lia|].
  simpl.
  destruct (is_valid_move_rectangular rows cols grid piece 0 1 Hrect)
    as (b & -> & Hb).
  simpl. destruct b.
  - destruct Hocc as (i & j & cell & Hcell & Hne).
    destruct Hb as [Hb _]. specialize (Hb eq_refl i j cell Hcell Hne).
    destruct Hb as (_ & Hy & _).
    destruct (IH (set_py (py piece + 1) piece)) as (t & Ht & ? & ? & ? & Hpy).
    { by exists i, j, cell. }
    { simpl. lia. }
    exists t. simpl in *. repeat split; try done. lia.
  - exists piece. repeat split; try done.
Qed.

(** The bound used by [try_offset] is enough for every piece with an
    occupied cell. *)
Lemma drop_fuel_enough (rows cols : Z) (grid : Grid) (piece : Tetromino) :
  rectangular rows cols grid → occupied (shape piece) →
  ∃ t, drop (drop_fuel grid piece) grid piece = Ok t
       ∧ shape t = shape piece ∧ color t = color piece
       ∧ px t = px piece ∧ py piece ≤ py t.
Proof.
  intros Hrect Hocc. apply (drop_total rows cols); [done|done|].
  unfold drop_fuel. destruct Hrect as (-> & _). lia.
Qed.

(** ** Every candidate is evaluated *)

Lemma candidate_total (rows cols : Z) (grid : Grid) (start : Tetromino) :
  rectangular rows cols grid → occupied (shape start) →
  ∃ o, candidate grid start = Ok o.
Proof.
  intros Hrect Hocc. unfold candidate.
  destruct (drop_fuel_enough rows cols grid start Hrect Hocc)
    as (t & -> & _). cbn [bind].
  destruct (is_valid_move_rectangular rows cols grid t 0 0 Hrect)
    as (b & -> & Hb). cbn [bind].
  destruct b; [|by eexists].
  destruct (write_piece_total rows cols grid t Hrect) as (grid' & -> & Hrect').
  { intros i j cell Hcell Hne. destruct Hb as [Hb _].
    specialize (Hb eq_refl i j cell Hcell Hne) as (Hx & _). lia. }
  cbn [bind].
  destruct (board_score_total rows cols grid' Hrect') as (v & ->).
  by eexists.
Qed.

(** ** Rotation keeps shapes well formed *)

Lemma rotate_shape_ok (p : Tetromino) :
  shape_ok (shape p) → shape_ok (shape (rotate p)).
Proof.
  intros [[c Hc] (i & j & cell & Hcell & Hne)].
  unfold cell_at in Hcell.
  destruct (shape p !! i) as [row|] eqn:Hrow; simplify_eq/=.
  apply lookup_lt_Some in Hrow as Hi. apply lookup_lt_Some in Hcell as Hj.
  eapply Forall_lookup_1 in Hc as Hlen; [|exact Hrow]. simpl in Hlen.
  assert (reverse (shape p) ≠ []) as Hnil.
  { intros Heq. apply (f_equal length) in Heq.
    rewrite length_reverse in Heq. simpl in Heq. lia. }
  assert (Forall (λ row, length row = c) (reverse (shape p))) as Hrev.
  { apply Forall_forall. intros r Hr. rewrite elem_of_reverse in Hr.
    revert r Hr. by apply Forall_forall. }
  rewrite (zip_star_transpose _ c Hnil Hrev). split.
  - exists (length (reverse (shape p))). by apply transpose_spec_rows.
  - exists j, (length (shape p) - 1 - i)%nat, cell. split; [|done].
    rewrite transpose_spec_cell by (done || lia).
    rewrite reverse_cell by lia.
    replace (length (shape p) - 1 - (length (shape p) - 1 - i))%nat with i by lia.
    unfold cell_at. by rewrite Hrow.
Qed.

Lemma rotate_times_shape_ok (n : Z) (p : Tetromino) :
  shape_ok (shape p) → shape_ok (shape (rotate_times n p)).
Proof.
  intros Hp. unfold rotate_times.
  induction (Z.to_nat n) as [|k IH]; simpl; [done|]. by apply rotate_shape_ok.
Qed.

Lemma rotate_times_position (n : Z) (p : Tetromino) :
  px (rotate_times n p) = px p ∧ py (rotate_times n p) = py p
  ∧ color (rotate_times n p) = color p.
Proof.
  unfold rotate_times. induction (Z.to_nat n) as [|k IH]; simpl; [done|].
  exact IH.
Qed.

(** ** The search loops *)

Lemma copy_rows_extends (h : heap) (g : list loc) (h1 : heap) (g1 : list loc) :
  copy_rows h g = Ok (h1, g1) →
  ∃ ext, h1 = h ++ ext ∧ g1 = seq (length h) (length ext).
Proof.
  revert h h1 g1. induction g as [|l g IH]; intros h h1 g1 Hcopy; simpl in Hcopy.
  - inv_ok. exists []. by rewrite app_nil_r.
  - apply bind_Ok in Hcopy as (r & Hr & Hcopy). cbn [alloc] in Hcopy.
    apply bind_Ok in Hcopy as ([h2 ls] & Hrest & Hcopy). inv_ok.
    apply IH in Hrest as (ext & -> & ->). exists (r :: ext).
    rewrite <- app_assoc. split; [done|]. rewrite length_app. simpl.
    by replace (length h + 1)%nat with (S (length h)) by lia.
Qed.

Lemma try_offset_extends (self_grid : list loc) (current test_piece : Tetromino)
    (rot dx : Z) (h h' : heap) (best best' : option Z * Move) :
  try_offset self_grid current rot test_piece dx (h, best) = Ok (h', best') →
  ∃ ext, h' = h ++ ext.
Proof.
  destruct best as [best_score best_move]. unfold try_offset. intros H.
  apply bind_Ok in H as ([h1 grid_copy] & Hcopy & H).
  apply copy_rows_extends in Hcopy as (ext1 & -> & ->).
  apply bind_Ok in H as (board & _ & H).
  apply bind_Ok in H as (temp & _ & H).
  apply bind_Ok in H as (ok & _ & H).
  destruct ok; [|inv_ok; by eexists].
  apply bind_Ok in H as ([h2 test_grid] & Hcopy & H).
  apply copy_rows_extends in Hcopy as (ext2 & -> & ->).
  apply bind_Ok in H as (h3 & Hplace & H).
  rewrite place_cells_fresh in Hplace.
  apply bind_Ok in Hplace as (rows' & _ & Hplace).
  apply bind_Ok in H as (test_rows & _ & H).
  apply bind_Ok in H as (height & _ & H).
  apply bind_Ok in H as (holes & _ & H).
  apply bind_Ok in H as (bumpiness & _ & H).
  destruct (improves _ _); inv_ok; rewrite <- app_assoc; by eexists.
Qed.

Lemma search_extends (h : heap) (self_grid : list loc) (current : Tetromino)
    (h' : heap) (best : option Z * Move) :
  search h self_grid current = Ok (h', best) → ∃ ext, h' = h ++ ext.
Proof.
  unfold search. intros Hsearch.
  apply (for_each_preserves (λ st, ∃ ext, fst st = h ++ ext)) in Hsearch;
    [done| |exists []; simpl; by rewrite app_nil_r].
  intros rot [h1 b1] [h2 b2] [ext Hext] Hrot. simpl in *. subst h1.
  unfold try_rotation in Hrot.
  apply (for_each_preserves (λ st, ∃ ext', fst st = h ++ ext')) in Hrot;
    [done| |by exists ext].
  intros dx [h3 b3] [h4 b4] [ext' Hext'] Hoff. simpl in *. subst h3.
  apply try_offset_extends in Hoff as [ext'' ->].
  exists (ext' ++ ext''). by rewrite app_assoc.
Qed.

Section search.
Context (rows cols : Z) (h : heap) (self_grid : list loc) (board : Grid)
        (current : Tetromino).
Context (Hboard : read_grid h self_grid = Ok board)
        (Hrect : rectangular rows cols board)
        (Hshape : shape_ok (shape current)).

Lemma start_piece_occupied (rot dx : Z) :
  occupied (shape (start_piece current rot dx)).
Proof. unfold start_piece. simpl. by apply rotate_times_shape_ok. Qed.

Lemma candidate_evaluated (c : Z * Z) :
  candidate board (start_piece current (fst c) (snd c))
  = Ok (outcome board current c).
Proof.
  unfold outcome.
  destruct (candidate_total rows cols board
              (start_piece current (fst c) (snd c)) Hrect
              (start_piece_occupied _ _)) as (o & ->).
  done.
Qed.

Lemma try_rotation_result (rot : Z) (ext : heap) (prev : list (Z * Z)) :
  ∃ ext',
    try_rotation self_grid current rot (h ++ ext, best_after board current prev)
    = Ok (h ++ ext', best_after board current (prev ++ offsets_of rot)).
Proof.
  unfold try_rotation.
  replace (mkTetromino (shape current) (color current) (px current) (py current))
    with current by (by destruct current).
  destruct (for_each_invariant
    (λ done st, (∃ ext', fst st = h ++ ext')
                ∧ snd st = best_after board current
                             (prev ++ ((λ dx, (rot, dx)) <$> done)))
    (Py.range (-5) 6)
    (try_offset self_grid current rot (rotate_times rot current))
    (h ++ ext, best_after board current prev))
    as ([h' best'] & -> & [ext' Hh'] & Hbest').
  - split; [by exists ext|]. simpl. by rewrite app_nil_r.
  - intros done dx rest [h1 b1] _ [[ext1 Hh1] Hb1]. simpl in Hh1, Hb1.
    subst h1 b1.
    pose proof (try_offset_candidate (h ++ ext1) self_grid board current
      (rotate_times rot current) rot dx
      (best_after board current (prev ++ ((λ dx, (rot, dx)) <$> done)))
      (read_grid_app _ _ _ _ Hboard)) as Hoff.
    change (set_py (py current)
              (set_px (px current + dx) (rotate_times rot current)))
      with (start_piece current (fst (rot, dx)) (snd (rot, dx))) in Hoff.
    rewrite candidate_evaluated in Hoff. destruct Hoff as (ext2 & ->).
    eexists. split; [done|]. split.
    + exists (ext1 ++ ext2). simpl. by rewrite app_assoc.
    + simpl. rewrite fmap_app, app_assoc. unfold best_after.
      by rewrite (foldl_snoc _ _ _ (rot, dx)).
  - simpl in Hh', Hbest'. subst h' best'. by exists ext'.
Qed.

Lemma search_result :
  ∃ ext, search h self_grid current
         = Ok (h ++ ext, best_after board current all_candidates).
Proof.
  unfold search.
  destruct (for_each_invariant
    (λ done st, (∃ ext', fst st = h ++ ext')
                ∧ snd st = best_after board current (done ≫= offsets_of))
    (Py.range 0 4) (try_rotation self_grid current)
    (h, (None, mkMove 0 (px current))))
    as ([h' best'] & -> & [ext' Hh'] & Hbest').
  - split; [|done]. exists []. simpl. by rewrite app_nil_r.
  - intros done rot rest [h1 b1] _ [[ext1 Hh1] Hb1]. simpl in Hh1, Hb1.
    subst h1 b1.
    destruct (try_rotation_result rot ext1 (done ≫= offsets_of)) as (ext2 & ->).
    eexists. split; [done|]. split; [by exists ext2|]. simpl.
    by rewrite bind_app, bind_singleton.
  - simpl in Hh', Hbest'. subst h' best'. by exists ext'.
Qed.
End search.

(** ** Strict improvement keeps the first minimum *)

Lemma best_after_first_minimum (board : Grid) (current : Tetromino)
    (cands : list (Z * Z)) :
  (best_after board current cands = (None, mkMove 0 (px current))
   ∧ ∀ c, c ∈ cands → outcome board current c = None)
  ∨ (∃ before rot dx after x sc,
       cands = before ++ (rot, dx) :: after
       ∧ outcome board current (rot, dx) = Some (x, sc)
       ∧ best_after board current cands = (Some sc, mkMove rot x)
       ∧ (∀ c x' sc', c ∈ before →
            outcome board current c = Some (x', sc') → sc < sc')
       ∧ (∀ c x' sc', c ∈ after →
            outcome board current c = Some (x', sc') → sc ≤ sc')).
Proof.
  induction cands as [|[rot' dx'] cands IH] using rev_ind.
  - left. split; [done|]. by intros c ?%elem_of_nil.
  - unfold best_after in *. rewrite foldl_snoc. cbn [fst].
    destruct (outcome board current (rot', dx')) as [[x' sc']|] eqn:Hout;
      cbn [better].
    + right. destruct IH as [[-> Hnone]|IH].
      * exists cands, rot', dx', [], x', sc'. cbn [fst improves].
        split; [done|]. split; [done|]. split; [done|]. split.
        -- intros c x2 sc2 Hc Hc2. rewrite (Hnone c Hc) in Hc2. discriminate.
        -- by intros c x2 sc2 ?%elem_of_nil.
      * destruct IH as (before & rot & dx & after & x & sc
                        & -> & Hbest & -> & Hbefore & Hafter).
        cbn [fst improves]. case_bool_decide as Hlt.
        -- exists (before ++ (rot, dx) :: after), rot', dx', [], x', sc'.
           split; [done|]. split; [done|]. split; [done|]. split.
           ++ intros c x2 sc2 Hc Hc2.
              rewrite elem_of_app, elem_of_cons in Hc.
              destruct Hc as [Hc|[->|Hc]].
              ** specialize (Hbefore c x2 sc2 Hc Hc2). lia.
              ** rewrite Hbest in Hc2. simplify_eq. done.
              ** specialize (Hafter c x2 sc2 Hc Hc2). lia.
           ++ by intros c x2 sc2 ?%elem_of_nil.
        -- exists before, rot, dx, (after ++ [(rot', dx')]), x, sc.
           split; [by rewrite <- app_assoc|].
           split; [done|]. split; [done|]. split; [done|].
           intros c x2 sc2 Hc Hc2. rewrite elem_of_app, list_elem_of_singleton in Hc.
           destruct Hc as [Hc| ->].
           ++ by apply (Hafter c x2 sc2).
           ++ rewrite Hout in Hc2. simplify_eq. lia.
    + destruct IH as [[-> Hnone]|IH].
      * left. split; [done|]. intros c Hc.
        rewrite elem_of_app, list_elem_of_singleton in Hc.
        destruct Hc as [Hc| ->]; [by apply Hnone | done].
      * right. destruct IH as (before & rot & dx & after & x & sc
                               & -> & Hbest & -> & Hbefore & Hafter).
        exists before, rot, dx, (after ++ [(rot', dx')]), x, sc.
        split; [by rewrite <- app_assoc|].
        split; [done|]. split; [done|]. split; [done|].
        intros c x2 sc2 Hc Hc2. rewrite elem_of_app, list_elem_of_singleton in Hc.
        destruct Hc as [Hc| ->].
        -- by apply (Hafter c x2 sc2).
        -- rewrite Hout in Hc2. discriminate.
Qed.

(** ** What [make_move] does *)

Lemma drop_keeps (fuel : nat) (grid : Grid) (piece t : Tetromino) :
  drop fuel grid piece = Ok t →
  shape t = shape piece ∧ color t = color piece ∧ px t = px piece.
Proof.
  revert piece. induction fuel as [|fuel IH]; intros piece Hdrop;
    simpl in Hdrop; [discriminate|].
  apply bind_Ok in Hdrop as (ok & _ & Hdrop). destruct ok.
  - by apply IH in Hdrop.
  - by inv_ok.
Qed.

(** The drop stops at the first row from which one more step down is not
    valid. *)
Lemma drop_rests (fuel : nat) (grid : Grid) (piece t : Tetromino) :
  drop fuel grid piece = Ok t →
  is_valid_move t 0 1 grid = Ok false
  ∧ py piece ≤ py t
  ∧ ∀ y, py piece ≤ y < py t → is_valid_move (set_py y piece) 0 1 grid = Ok true.
Proof.
  revert piece. induction fuel as [|fuel IH]; intros piece Hdrop;
    simpl in Hdrop; [discriminate|].
  apply bind_Ok in Hdrop as (ok & Hok & Hdrop). destruct ok.
  - apply IH in Hdrop as (Hrest & Hle & Hbefore). simpl in Hle, Hbefore.
    split; [done|]. split; [lia|]. intros y Hy.
    destruct (decide (y = py piece)) as [->|Hne].
    + by destruct piece.
    + apply Hbefore. lia.
  - inv_ok. split; [done|]. split; [lia|]. intros y Hy. lia.
Qed.

(** Every draw yields one of the seven pieces. *)
Lemma Tetromino_init_total (draw : nat) :
  ∃ p, Tetromino_init draw = Ok p ∧ shape p ∈ SHAPES ∧ shape_ok (shape p)
       ∧ py p = 0.
Proof.
  unfold Tetromino_init, Py.choice.
  pose proof (Nat.mod_upper_bound draw (length SHAPES)) as Hlt.
  destruct (draw `mod` length SHAPES)%nat as [|[|[|[|[|[|[|n]]]]]]];
    [..|simpl in Hlt; lia];
    (eexists; split; [reflexivity|]; split;
     [apply list_elem_of_In; simpl; tauto|]; split; [|reflexivity]; split;
     [eexists; repeat constructor|]).
  - by exists 0%nat, 0%nat, 1.
  - by exists 0%nat, 0%nat, 1.
  - by exists 0%nat, 0%nat, 1.
  - by exists 0%nat, 0%nat, 1.
  - by exists 0%nat, 0%nat, 1.
  - by exists 0%nat, 0%nat, 1.
  - by exists 0%nat, 1%nat, 1.
Qed.

Lemma candidate_accepted (board : Grid) (start : Tetromino) (x sc : Z) :
  candidate board start = Ok (Some (x, sc)) →
  x = px start
  ∧ ∃ temp test_rows height holes bumpiness,
      drop (drop_fuel board start) board start = Ok temp
      ∧ is_valid_move temp 0 0 board = Ok true
      ∧ write_piece board temp = Ok test_rows
      ∧ calculate_board_height test_rows = Ok height
      ∧ calculate_holes test_rows = Ok holes
      ∧ calculate_bumpiness test_rows = Ok bumpiness
      ∧ sc = height * 2 + holes * 3 + bumpiness.
Proof.
  unfold candidate. intros H.
  apply bind_Ok in H as (temp & Hdrop & H).
  apply bind_Ok in H as (ok & Hvalid & H).
  destruct ok; [|by inv_ok].
  apply bind_Ok in H as (test_rows & Hwrite & H).
  apply bind_Ok in H as (score & Hscore & H). inv_ok.
  unfold board_score in Hscore.
  apply bind_Ok in Hscore as (height & Hheight & Hscore).
  apply bind_Ok in Hscore as (holes & Hholes & Hscore).
  apply bind_Ok in Hscore as (bumpiness & Hbump & Hscore). inv_ok.
  split; [by apply drop_keeps in Hdrop as (_ & _ & ?)|].
  by exists temp, test_rows, height, holes, bumpiness.
Qed.

Lemma candidate_rejected (board : Grid) (start : Tetromino) :
  (∀ temp, drop (drop_fuel board start) board start = Ok temp →
           is_valid_move temp 0 0 board = Ok false) →
  ∀ o, candidate board start = Ok o → o = None.
Proof.
  intros Hrej o. unfold candidate. intros H.
  apply bind_Ok in H as (temp & Hdrop & H).
  rewrite (Hrej temp Hdrop) in H. cbn [bind] in H. by inv_ok.
Qed.

Lemma apply_default_move (current : Tetromino) :
  apply_move (mkMove 0 (px current)) current = current.
Proof. by destruct current. Qed.






(** C4. A call of [make_move] that returns leaves the list of rows of the
    board and every row object of the store as they were (the store only
    grows by the copies the search made), and leaves the piece's y, its
    colour, the score and the game-over flag unchanged; the piece is the
    old one rotated some number of times and given a new x.  On a rectangular board with a well-formed
    piece the call does return. *)
Theorem make_move_frame (h : heap) (self : TetrisPlayer) :
  (∀ h' self', make_move h self = Ok (h', self') →
     grid self' = grid self
     ∧ (∃ ext, h' = h ++ ext)
     ∧ (∀ l r, h !! l = Some r → h' !! l = Some r)
     ∧ (∀ board, read_grid h (grid self) = Ok board →
                 read_grid h' (grid self') = Ok board)
     ∧ (∃ rot x, current_piece self'
                 = set_px x (rotate_times rot (current_piece self)))
     ∧ py (current_piece self') = py (current_piece self)
     ∧ color (current_piece self') = color (current_piece self)
     ∧ score self' = score self
     ∧ game_over self' = game_over self)
  ∧ (∀ board rows cols,
       read_grid h (grid self) = Ok board → rectangular rows cols board →
       shape_ok (shape (current_piece self)) →
       ∃ h' self', make_move h self = Ok (h', self')).
Proof.
  split.
  - intros h' self' Hmove. unfold make_move in Hmove.
    apply bind_Ok in Hmove as ([h1 [best_score best_move]] & Hsearch & Hmove).
    inv_ok. apply search_extends in Hsearch as (ext & ->).
    split; [done|]. split; [by exists ext|].
    split; [intros l r; apply lookup_app_l_Some|].
    split; [intros board; apply read_grid_app|].
    split; [by exists (rotation best_move), (move_x best_move)|].
    simpl. unfold apply_move. simpl.
    destruct (rotate_times_position (rotation best_move) (current_piece self))
      as (_ & -> & ->).
    done.
  - intros board rows cols Hboard Hrect Hshape.
    destruct (search_result rows cols h (grid self) board (current_piece self)
                Hboard Hrect Hshape) as (ext & Hsearch).
    unfold make_move. rewrite Hsearch.
    destruct (best_after _ _ _) as [best_score best_move]. by eexists _, _.
Qed.

(** C8. On a rectangular board and for a well-formed piece, if the resting
    position of every one of the 44 candidates fails the validity check,
    [make_move] returns and the player, with the live piece's shape, x and
    y, is exactly as before. *)
Theorem make_move_no_candidate (h : heap) (self : TetrisPlayer)
    (board : Grid) (rows cols : Z) :
  read_grid h (grid self) = Ok board →
  rectangular rows cols board →
  shape_ok (shape (current_piece self)) →
  (∀ c temp, c ∈ all_candidates →
     drop (drop_fuel board (start_piece (current_piece self) (fst c) (snd c)))
          board (start_piece (current_piece self) (fst c) (snd c)) = Ok temp →
     is_valid_move temp 0 0 board = Ok false) →
  ∃ h' self',
    make_move h self = Ok (h', self')
    ∧ self' = self
    ∧ shape (current_piece self') = shape (current_piece self)
    ∧ px (current_piece self') = px (current_piece self)
    ∧ py (current_piece self') = py (current_piece self).
Proof.
  intros Hboard Hrect Hshape Hrej.
  pose proof (candidate_evaluated rows cols board (current_piece self)
                Hrect Hshape) as Heval.
  destruct (search_result rows cols h (grid self) board (current_piece self)
              Hboard Hrect Hshape) as (ext & Hsearch).
  assert (∀ c, c ∈ all_candidates → outcome board (current_piece self) c = None)
    as Hnone.
  { intros c Hc. eapply candidate_rejected; [|apply Heval]. intros temp.
    by apply Hrej. }
  assert (best_after board (current_piece self) all_candidates
          = (None, mkMove 0 (px (current_piece self)))) as Hbest.
  { destruct (best_after_first_minimum board (current_piece self) all_candidates)
      as [[Hb _]|(before & rot & dx & after & x & sc & Hsplit & Hout & _)];
      [done|].
    rewrite Hnone in Hout; [discriminate|].
    rewrite Hsplit. apply elem_of_app. right. left. }
  exists (h ++ ext), self.
  split; [|done].
  unfold make_move. rewrite Hsearch, Hbest. cbn [bind].
  rewrite apply_default_move. by destruct self.
Qed.

(** ** The session loop *)

Lemma player_reset_alive (draw : nat) (h h' : heap) (pl : TetrisPlayer) :
  player_reset draw h = Ok (h', pl) → game_over pl = false.
Proof.
  unfold player_reset. destruct (fresh_rows _ _ h) as [h1 g]. intros H.
  apply bind_Ok in H as (p & _ & H). by inv_ok.
Qed.

Lemma try_move_flags (dx dy : Z) (s s' : Session) :
  try_move dx dy s = Ok s' →
  game_over (human_player s') = game_over (human_player s)
  ∧ ai_player s' = ai_player s ∧ session_over s' = session_over s
  ∧ paused s' = paused s.
Proof.
  unfold try_move. intros H.
  apply bind_Ok in H as (rows & _ & H). apply bind_Ok in H as (ok & _ & H).
  destruct ok; by inv_ok.
Qed.

Lemma try_rotate_flags (s s' : Session) :
  try_rotate s = Ok s' →
  game_over (human_player s') = game_over (human_player s)
  ∧ ai_player s' = ai_player s ∧ session_over s' = session_over s
  ∧ paused s' = paused s.
Proof.
  unfold try_rotate. intros H.
  apply bind_Ok in H as (rows & _ & H). apply bind_Ok in H as (ok & _ & H).
  destruct ok; by inv_ok.
Qed.

Lemma control_key_flags (key : Key) (s s' : Session) :
  control_key key s = Ok s' →
  game_over (human_player s') = game_over (human_player s)
  ∧ ai_player s' = ai_player s ∧ session_over s' = session_over s.
Proof.
  unfold control_key. intros H. destruct (paused s); [by inv_ok|].
  destruct key; try (by inv_ok);
    (apply try_move_flags in H || apply try_rotate_flags in H);
    destruct H as (? & ? & ? & _); done.
Qed.

Lemma handle_event_alive (ev : Event * Reply) (s s' : Session) :
  sides_alive s → session_over s = false →
  handle_event ev s = Ok (Next s') →
  sides_alive s' ∧ session_over s' = false.
Proof.
  intros [Hh Ha] Hover. unfold handle_event.
  destruct (fst ev) as [|key|]; intros H; [by inv_ok| |by inv_ok].
  apply bind_Ok in H as (r & Hmenu & H).
  destruct r as [s1|s1]; [|by inv_ok].
  apply bind_Ok in H as (s2 & Hctl & H). inv_ok.
  apply control_key_flags in Hctl as (Hh2 & Ha2 & Ho2).
  unfold sides_alive. rewrite Hh2, Ha2, Ho2. clear Hh2 Ha2 Ho2.
  unfold menu_key in Hmenu.
  destruct key; try (by inv_ok).
  - destruct (confirm (snd ev)); by inv_ok.
  - destruct (confirm (snd ev)); [|by inv_ok].
    apply bind_Ok in Hmenu as (s3 & Hreset & Hmenu). inv_ok.
    unfold game_reset in Hreset.
    apply bind_Ok in Hreset as ([h1 hp] & Hhp & Hreset).
    apply bind_Ok in Hreset as ([h2 ap] & Hap & Hreset). inv_ok.
    apply player_reset_alive in Hhp, Hap. done.
Qed.

Lemma handle_events_alive (evs : list (Event * Reply)) (s s' : Session) :
  sides_alive s → session_over s = false →
  handle_events evs s = Ok (Next s') →
  sides_alive s' ∧ session_over s' = false.
Proof.
  revert s. induction evs as [|ev evs IH]; intros s Halive Hover H;
    simpl in H.
  - by inv_ok.
  - apply bind_Ok in H as (r & Hev & H). destruct r as [s1|s1]; [|by inv_ok].
    apply handle_event_alive in Hev as [Halive1 Hover1]; [|done..].
    by apply (IH s1).
Qed.

(** After a completed pass a lost side implies a finished session. *)
Lemma tick_flags (inp : TickInput) (s s' : Session) :
  sides_alive s → session_over s = false →
  tick inp s = Ok (Next s') →
  game_over (human_player s') || game_over (ai_player s') = true →
  session_over s' = true.
Proof.
  intros Halive Hover. unfold tick. intros H.
  apply bind_Ok in H as (r & Hevs & H). destruct r as [s1|s1]; [|by inv_ok].
  apply handle_events_alive in Hevs as [[Hh1 Ha1] Hover1]; [|done..].
  destruct (paused s1).
  { inv_ok. rewrite Hh1, Ha1. done. }
  apply bind_Ok in H as ([h ap] & _ & H).
  apply bind_Ok in H as (s3 & _ & H).
  destruct (game_over (human_player s3) || game_over (ai_player s3)) eqn:Hflags;
    inv_ok; [done|]. intros Hflags'. congruence.
Qed.

Lemma reachable_flags (s0 s : Session) :
  sides_alive s0 → rtc loop_pass s0 s →
  game_over (human_player s) || game_over (ai_player s) = true →
  session_over s = true.
Proof.
  intros Halive0 Hreach. revert s Hreach.
  refine (rtc_ind_r _ s0 _ _).
  - destruct Halive0 as [-> ->]. done.
  - intros s s' _ [Hover [inp Htick]] IH.
    apply (tick_flags inp s); [|done..].
    unfold sides_alive.
    destruct (game_over (human_player s)), (game_over (ai_player s));
      try (specialize (IH eq_refl); congruence). done.
Qed.

(** C9. In every run of the session loop that starts with both sides
    alive: before each pass both game-over flags are false; if a pass
    sets a side's flag, the session flag is true when that pass ends; and
    once the session flag is true there is no further pass, so [run]
    returns the state, with both grids, pieces and scores, as it is. *)
Theorem session_over_same_tick (s0 s : Session) :
  sides_alive s0 →
  rtc loop_pass s0 s →
  (game_over (human_player s) || game_over (ai_player s) = true →
   session_over s = true)
  ∧ (∀ s', loop_pass s s' →
       sides_alive s
       ∧ (game_over (human_player s') || game_over (ai_player s') = true →
          session_over s' = true))
  ∧ (session_over s = true →
       (∀ s', ¬ loop_pass s s') ∧ ∀ inputs, run inputs s = Ok s).
Proof.
  intros Halive0 Hreach.
  pose proof (reachable_flags s0 s Halive0 Hreach) as Hflags.
  split; [done|]. split.
  - intros s' Hpass. pose proof Hpass as [Hover [inp Htick]].
    assert (sides_alive s) as Halive.
    { unfold sides_alive.
      destruct (game_over (human_player s)), (game_over (ai_player s));
        try (specialize (Hflags eq_refl); congruence). done. }
    split; [done|]. by apply (tick_flags inp s).
  - intros Hover. split.
    + intros s' [Hnot _]. congruence.
    + intros inputs. destruct inputs; simpl; by rewrite Hover.
Qed.

(** ** The winner *)

Lemma winners_when_both_lost (s : Session) :
  game_over (human_player s) = true →
  game_over (ai_player s) = true →
  save_scores_winner s = "AI"
  ∧ game_over_screen_winner s = "Human Player".
Proof.
  intros Hh Ha. unfold save_scores_winner, game_over_screen_winner.
  by rewrite Hh, Ha.
Qed.

(** The two computations name the same side exactly when one side, and
    only one, has lost. *)
Lemma winners_agree_iff (s : Session) :
  side_named (save_scores_winner s) = side_named (game_over_screen_winner s)
  ↔ game_over (human_player s) ≠ game_over (ai_player s).
Proof.
  unfold save_scores_winner, game_over_screen_winner.
  destruct (game_over (human_player s)), (game_over (ai_player s));
    vm_compute; split; congruence.
Qed.


(** ** The properties on sample states *)

Lemma blank_board_rectangular : rectangular 20 10 blank_board.
Proof.
  split; [reflexivity|]. split; [|reflexivity].
  apply Forall_forall. by intros row [-> _]%elem_of_replicate.
Defined.

Lemma packed_board_rectangular : rectangular 20 10 packed_board.
Proof.
  split; [reflexivity|]. split; [|reflexivity].
  apply Forall_forall. by intros row [-> _]%elem_of_replicate.
Defined.

Lemma T_piece_shape_ok : shape_ok (shape T_piece).
Proof.
  split.
  - exists 3%nat. repeat constructor.
  - by exists 0%nat, 0%nat, 1.
Defined.

Lemma clear_lines_removes_full_rows_witness :
  ∃ h', clear_lines small_store [0; 1; 2]%nat = Ok (h', [4; 3; 1]%nat, 2).
Proof.
  destruct (clear_lines_removes_full_rows small_store [0; 1; 2]%nat
              small_store eq_refl) as (h' & Hclear & _).
  exists h'. exact Hclear.
Defined.

Lemma is_valid_move_iff_witness :
  ∃ b, is_valid_move T_piece 0 1 blank_board = Ok b.
Proof.
  destruct (is_valid_move_iff T_piece 0 1 blank_board eq_refl) as (b & Hb & _).
  - apply Forall_forall. by intros row [-> _]%elem_of_replicate.
  - exists b. exact Hb.
Defined.

Lemma make_move_frame_witness :
  ∃ h' self', make_move blank_board (player_with T_piece) = Ok (h', self').
Proof.
  exact (proj2 (make_move_frame blank_board (player_with T_piece))
           blank_board 20 10 eq_refl blank_board_rectangular T_piece_shape_ok).
Defined.

Lemma lock_piece_score_delta_witness :
  ∃ h' player',
    lock_piece narrow_store narrow_player = Ok (h', player')
    ∧ score player' - score narrow_player = 40.
Proof.
  apply (lock_piece_score_delta narrow_store narrow_player
           [replicate 4 BLACK; replicate 4 CYAN]
           [replicate 4 BLACK; replicate 4 CYAN] 40); reflexivity.
Defined.

Lemma rejected_sound (board : Grid) (current : Tetromino) (cands : list (Z * Z)) :
  forallb (rejected board current) cands = true →
  ∀ c temp, c ∈ cands →
    drop (drop_fuel board (start_piece current (fst c) (snd c)))
         board (start_piece current (fst c) (snd c)) = Ok temp →
    is_valid_move temp 0 0 board = Ok false.
Proof.
  intros Hall c temp Hc Hdrop. apply list_elem_of_In in Hc.
  rewrite forallb_forall in Hall. specialize (Hall c Hc).
  unfold rejected in Hall. rewrite Hdrop in Hall.
  by destruct (is_valid_move temp 0 0 board) as [[|]|e].
Defined.

Lemma make_move_no_candidate_witness :
  ∃ h' self',
    make_move packed_board (player_with T_piece) = Ok (h', self')
    ∧ self' = player_with T_piece.
Proof.
  destruct (make_move_no_candidate packed_board (player_with T_piece)
              packed_board 20 10 eq_refl packed_board_rectangular T_piece_shape_ok)
    as (h' & self' & Hmove & Hsame & _).
  - apply rejected_sound. vm_compute. reflexivity.
  - exists h', self'. split; [exact Hmove | exact Hsame].
Defined.

Lemma crowded_session_pass : loop_pass crowded_session crowded_session_after.
Proof.
  split; [reflexivity|]. exists gravity_input. vm_compute. reflexivity.
Defined.

Lemma session_over_same_tick_witness :
  session_over crowded_session_after = true.
Proof.
  destruct (session_over_same_tick crowded_session crowded_session_after)
    as (Hflags & _).
  - split; reflexivity.
  - apply rtc_once, crowded_session_pass.
  - apply Hflags. vm_compute. reflexivity.
Defined.

(** C10. The two computations of the winner do not always agree: one
    gravity step of [crowded_session] makes both sides lose, the session
    ends, and [save_scores] then records the AI as the winner while the
    game-over screen names the human player. *)
Theorem winners_disagree_when_both_lost :
  loop_pass crowded_session crowded_session_after
  ∧ session_over crowded_session_after = true
  ∧ game_over (human_player crowded_session_after) = true
  ∧ game_over (ai_player crowded_session_after) = true
  ∧ save_scores_winner crowded_session_after = "AI"
  ∧ game_over_screen_winner crowded_session_after = "Human Player"
  ∧ side_named (save_scores_winner crowded_session_after) = Some AI
  ∧ side_named (game_over_screen_winner crowded_session_after) = Some Human.
Proof.
  split; [exact crowded_session_pass|].
  assert (game_over (human_player crowded_session_after) = true) as Hh
    by (vm_compute; reflexivity).
  assert (game_over (ai_player crowded_session_after) = true) as Ha
    by (vm_compute; reflexivity).
  destruct (winners_when_both_lost _ Hh Ha) as [Hsave Hscreen].
  split; [vm_compute; reflexivity|].
  split; [exact Hh|]. split; [exact Ha|].
  split; [exact Hsave|]. split; [exact Hscreen|].
  rewrite Hsave, Hscreen. split; reflexivity.
Qed.

(** ** Further properties of rotation *)

Lemma matrix_eq {A} (m1 m2 : list (list A)) (r c : nat) :
  length m1 = r → length m2 = r →
  Forall (λ row, length row = c) m1 → Forall (λ row, length row = c) m2 →
  (∀ i j : nat, (i < r)%nat → (j < c)%nat → cell_at m1 i j = cell_at m2 i j) →
  m1 = m2.
Proof.
  intros Hr1 Hr2 Hc1 Hc2 Hcells.
  apply (list_eq_same_length _ _ r); [done..|].
  intros i row1 row2 Hi Hrow1 Hrow2.
  eapply Forall_lookup_1 in Hc1 as Hlen1; [|exact Hrow1].
  eapply Forall_lookup_1 in Hc2 as Hlen2; [|exact Hrow2].
  simpl in Hlen1, Hlen2.
  apply (list_eq_same_length _ _ c); [done..|].
  intros j a b Hj Ha Hb. specialize (Hcells i j Hi Hj).
  unfold cell_at in Hcells. rewrite Hrow1, Hrow2 in Hcells. simpl in Hcells.
  congruence.
Qed.

(** The quarter turn of a matrix with [r] rows of [c] cells. *)
Lemma quarter_turn {A} (m : list (list A)) (r c : nat) :
  length m = r → Forall (λ row, length row = c) m → (0 < r)%nat →
  length (Py.zip_star (reverse m)) = c
  ∧ Forall (λ row, length row = r) (Py.zip_star (reverse m))
  ∧ ∀ i j : nat, (i < c)%nat → (j < r)%nat →
      cell_at (Py.zip_star (reverse m)) i j = cell_at m (r - 1 - j) i.
Proof.
  intros Hr Hc Hpos.
  assert (reverse m ≠ []) as Hne.
  { intros Hnil. apply (f_equal length) in Hnil.
    rewrite length_reverse in Hnil. simpl in Hnil. lia. }
  assert (Forall (λ row, length row = c) (reverse m)) as Hrev.
  { apply Forall_forall. intros row Hrow. rewrite elem_of_reverse in Hrow.
    revert row Hrow. by apply Forall_forall. }
  rewrite (zip_star_transpose _ c Hne Hrev). split.
  { unfold transpose_spec. by rewrite length_fmap, length_seq. }
  split.
  { rewrite <- Hr, <- (length_reverse m). by apply transpose_spec_rows. }
  intros i j Hi Hj. rewrite transpose_spec_cell by done.
  rewrite reverse_cell by lia. by rewrite Hr.
Qed.

Lemma half_turn {A} (m : list (list A)) (r c : nat) :
  length m = r → Forall (λ row, length row = c) m →
  (0 < r)%nat → (0 < c)%nat →
  length (Py.zip_star (reverse (Py.zip_star (reverse m)))) = r
  ∧ Forall (λ row, length row = c)
      (Py.zip_star (reverse (Py.zip_star (reverse m))))
  ∧ ∀ i j : nat, (i < r)%nat → (j < c)%nat →
      cell_at (Py.zip_star (reverse (Py.zip_star (reverse m)))) i j
      = cell_at m (r - 1 - i) (c - 1 - j).
Proof.
  intros Hr Hc Hrpos Hcpos.
  destruct (quarter_turn m r c Hr Hc Hrpos) as (Hr1 & Hc1 & Hcell1).
  destruct (quarter_turn _ c r Hr1 Hc1 Hcpos) as (Hr2 & Hc2 & Hcell2).
  split; [done|]. split; [done|]. intros i j Hi Hj.
  rewrite Hcell2 by done. rewrite Hcell1 by lia. done.
Qed.

(** X1. Four quarter turns of any piece whose shape is a matrix with at
    least one row and one column give the piece back, shape and all; two
    quarter turns reverse the order of the rows and of the cells in each
    row. *)
Theorem rotate_four_times_any_shape (p : Tetromino) (r c : nat) :
  length (shape p) = r → Forall (λ row, length row = c) (shape p) →
  (0 < r)%nat → (0 < c)%nat →
  rotate_times 4 p = p
  ∧ shape (rotate_times 2 p) = reverse (reverse <$> shape p).
Proof.
  intros Hr Hc Hrpos Hcpos.
  destruct (half_turn (shape p) r c Hr Hc Hrpos Hcpos) as (Hr2 & Hc2 & Hcell2).
  destruct (half_turn _ r c Hr2 Hc2 Hrpos Hcpos) as (Hr4 & Hc4 & Hcell4).
  split.
  - destruct p as [s col x y]. unfold rotate_times. simpl in *.
    unfold rotate, set_shape. simpl. f_equal.
    apply (matrix_eq _ _ r c); [done..|].
    intros i j Hi Hj. rewrite Hcell4 by done. rewrite Hcell2 by lia.
    f_equal; lia.
  - change (shape (rotate_times 2 p))
      with (Py.zip_star (reverse (Py.zip_star (reverse (shape p))))).
    apply (matrix_eq _ _ r c); [done| |done| |].
    + by rewrite length_reverse, length_fmap.
    + apply Forall_forall. intros row Hrow. rewrite elem_of_reverse in Hrow.
      apply list_elem_of_fmap in Hrow as (row' & -> & Hrow').
      rewrite length_reverse. revert row' Hrow'. by apply Forall_forall.
    + intros i j Hi Hj. rewrite Hcell2 by done. unfold cell_at.
      rewrite reverse_lookup by (rewrite length_fmap; lia).
      rewrite length_fmap, list_lookup_fmap, Hr.
      replace (r - S i)%nat with (r - 1 - i)%nat by lia.
      destruct (lookup_lt_is_Some_2 (shape p) (r - 1 - i)) as [row Hrow]; [lia|].
      rewrite Hrow. simpl.
      eapply Forall_lookup_1 in Hc as Hlen; [|exact Hrow]. simpl in Hlen.
      rewrite reverse_lookup by lia. f_equal. lia.
Qed.

Lemma rotate_four_times_any_shape_witness :
  rotate_times 4 T_piece = T_piece.
Proof.
  apply (rotate_four_times_any_shape T_piece 2 3);
    [reflexivity | repeat constructor | lia | lia].
Defined.

(** X2. Whatever the generator draws, [Tetromino()] returns one of the
    seven shapes together with the colour listed at the same position, at
    y = 0, and horizontally centred so that every cell of the shape lies
    inside the board. *)
Theorem Tetromino_init_spawn (draw : nat) :
  ∃ p k,
    Tetromino_init draw = Ok p
    ∧ SHAPES !! k = Some (shape p)
    ∧ SHAPE_COLORS !! k = Some (color p)
    ∧ py p = 0
    ∧ (∀ row, shape p !! 0%nat = Some row →
         px p = GRID_COLUMNS / 2 - Py.len row / 2)
    ∧ ∀ (i j : nat) cell, cell_at (shape p) i j = Some cell →
        0 ≤ px p + Z.of_nat j < GRID_COLUMNS
        ∧ 0 ≤ py p + Z.of_nat i < GRID_ROWS.
Proof.
  unfold Tetromino_init, Py.choice.
  pose proof (Nat.mod_upper_bound draw (length SHAPES)) as Hlt.
  remember (draw `mod` length SHAPES)%nat as k eqn:Hk. clear Hk.
  assert (∀ (s : list (list Z)) (x : Z) (i j : nat) (cell : Z),
            (length s ≤ 2)%nat → Forall (λ row, (length row ≤ 4)%nat) s →
            3 ≤ x ≤ 4 → cell_at s i j = Some cell →
            0 ≤ x + Z.of_nat j < GRID_COLUMNS
            ∧ 0 ≤ 0 + Z.of_nat i < GRID_ROWS) as Hfit.
  { intros s x i j cell Hrows Hcols Hx Hcell. unfold cell_at in Hcell.
    destruct (s !! i) as [row|] eqn:Hrow; simplify_eq/=.
    apply lookup_lt_Some in Hrow as Hi. apply lookup_lt_Some in Hcell as Hj.
    eapply Forall_lookup_1 in Hcols; [|exact Hrow]. simpl in Hcols.
    unfold GRID_COLUMNS, GRID_ROWS. lia. }
  destruct k as [|[|[|[|[|[|[|k]]]]]]]; [..|simpl in Hlt; lia].
  all: eexists _, _; split; [reflexivity|]; cbn [shape color px py].
  1: split; [instantiate (1 := 0%nat); reflexivity|].
  2: split; [instantiate (1 := 1%nat); reflexivity|].
  3: split; [instantiate (1 := 2%nat); reflexivity|].
  4: split; [instantiate (1 := 3%nat); reflexivity|].
  5: split; [instantiate (1 := 4%nat); reflexivity|].
  6: split; [instantiate (1 := 5%nat); reflexivity|].
  7: split; [instantiate (1 := 6%nat); reflexivity|].
  all: split; [reflexivity|]; split; [reflexivity|]; split;
    [by intros row [= <-]|].
  all: intros i j cell Hcell; eapply Hfit; [| | |exact Hcell];
    [simpl; lia | repeat constructor; simpl; lia | by vm_compute].
Qed.

(** ** Moves, controls and the drop *)

Lemma all_ok_ext {A} (l : list A) (f g : A → result bool) :
  (∀ a, f a = g a) → all_ok l f = all_ok l g.
Proof.
  intros Hfg. induction l as [|a l IH]; simpl; [done|].
  rewrite Hfg. destruct (g a) as [[|]|e]; simpl; done.
Qed.

(** Testing an offset is the same as testing the moved piece in place. *)
Lemma is_valid_move_shift (piece : Tetromino) (dx dy : Z) (grid : Grid) :
  is_valid_move piece dx dy grid = is_valid_move (move dx dy piece) 0 0 grid.
Proof.
  unfold is_valid_move. cbn [shape move].
  apply all_ok_ext. intros [y row]. apply all_ok_ext. intros [x cell].
  unfold check_cell. cbn [px py move].
  replace (px piece + dx + x + 0) with (px piece + x + dx) by lia.
  replace (py piece + dy + y + 0) with (py piece + y + dy) by lia.
  done.
Qed.

(** X3. A control key never puts the human piece into an invalid place: a
    piece that is valid on the human board stays valid whatever key is
    handled, and the key changes nothing but that piece (the store, both
    boards, the scores, the flags and the AI side stay as they are). *)
Theorem control_key_keeps_piece_valid (key : Key) (s s' : Session)
    (rows : Grid) :
  read_grid (rows_store s) (grid (human_player s)) = Ok rows →
  is_valid_move (current_piece (human_player s)) 0 0 rows = Ok true →
  control_key key s = Ok s' →
  is_valid_move (current_piece (human_player s')) 0 0 rows = Ok true
  ∧ rows_store s' = rows_store s
  ∧ grid (human_player s') = grid (human_player s)
  ∧ score (human_player s') = score (human_player s)
  ∧ game_over (human_player s') = game_over (human_player s)
  ∧ ai_player s' = ai_player s
  ∧ session_over s' = session_over s
  ∧ paused s' = paused s.
Proof.
  intros Hrows Hvalid. unfold control_key.
  destruct (paused s) eqn:Hpaused; [intros [= <-]; by rewrite Hpaused|].
  assert (∀ dx dy, try_move dx dy s = Ok s' →
    is_valid_move (current_piece (human_player s')) 0 0 rows = Ok true
    ∧ rows_store s' = rows_store s
    ∧ grid (human_player s') = grid (human_player s)
    ∧ score (human_player s') = score (human_player s)
    ∧ game_over (human_player s') = game_over (human_player s)
    ∧ ai_player s' = ai_player s
    ∧ session_over s' = session_over s
    ∧ paused s' = paused s) as Hmove.
  { intros dx dy. unfold try_move. cbv zeta. rewrite Hrows. cbn [bind].
    destruct (is_valid_move _ dx dy rows) as [[|]|e] eqn:Hok; cbn [bind];
      intros H; simplify_eq.
    - simpl. by rewrite <- is_valid_move_shift.
    - done. }
  destruct key; try (intros [= <-]; by rewrite Hpaused);
    try (intros H; apply Hmove in H; by rewrite Hpaused in H).
  unfold try_rotate. cbv zeta. rewrite Hrows. cbn [bind].
  destruct (is_valid_move (rotate _) 0 0 rows) as [[|]|e] eqn:Hok; cbn [bind];
    intros H; simplify_eq; by rewrite ?Hpaused.
Qed.

Lemma control_key_keeps_piece_valid_witness :
  is_valid_move
    (move (-1) 0 (current_piece (human_player crowded_session))) 0 0
    crowded_board = Ok true.
Proof.
  destruct (control_key_keeps_piece_valid K_LEFT crowded_session
              (set_human (rows_store crowded_session)
                 (set_piece (move (-1) 0 I_piece)
                    (human_player crowded_session)) crowded_session)
              crowded_board) as (Hvalid & _).
  - vm_compute. reflexivity.
  - vm_compute. reflexivity.
  - vm_compute. reflexivity.
  - exact Hvalid.
Defined.

(** X4. On a rectangular board the simulated drop of a piece with an
    occupied cell ends: it returns the piece with the same shape, colour
    and x, at the first y from which one more row down is not valid, every
    row passed on the way having allowed the step; running the loop with a
    larger bound gives the same piece. *)
Theorem hard_drop_rests (rows cols : Z) (grid : Grid) (piece : Tetromino) :
  rectangular rows cols grid → occupied (shape piece) →
  ∃ t,
    drop (drop_fuel grid piece) grid piece = Ok t
    ∧ shape t = shape piece ∧ color t = color piece ∧ px t = px piece
    ∧ py piece ≤ py t
    ∧ is_valid_move t 0 1 grid = Ok false
    ∧ (∀ y, py piece ≤ y < py t →
         is_valid_move (set_py y piece) 0 1 grid = Ok true)
    ∧ (∀ extra, drop (drop_fuel grid piece + extra) grid piece = Ok t).
Proof.
  intros Hrect Hocc.
  destruct (drop_fuel_enough rows cols grid piece Hrect Hocc)
    as (t & Hdrop & Hshape & Hcolor & Hx & Hy).
  exists t. split; [done|]. split; [done|]. split; [done|]. split; [done|].
  split; [done|].
  apply drop_rests in Hdrop as Hrest. destruct Hrest as (Hstop & _ & Hway).
  split; [done|]. split; [done|].
  intros extra. by apply drop_more_fuel.
Qed.

Lemma hard_drop_rests_witness :
  ∃ t, drop (drop_fuel blank_board T_piece) blank_board T_piece = Ok t
       ∧ py t = 18.
Proof.
  destruct (hard_drop_rests 20 10 blank_board T_piece blank_board_rectangular)
    as (t & Hdrop & _).
  - by exists 0%nat, 0%nat, 1.
  - exists t. split; [exact Hdrop|].
    vm_compute in Hdrop. injection Hdrop as <-. reflexivity.
Defined.

(** X5. A piece whose shape has no occupied cell passes [is_valid_move]
    for every offset on every grid, also one without rows, so the drop
    loop of [make_move] never ends: the search does not return. *)
Theorem empty_shape_never_rests (h : heap) (self : TetrisPlayer) (board : Grid) :
  ¬ occupied (shape (current_piece self)) →
  read_grid h (grid self) = Ok board →
  (∀ dx dy grid, is_valid_move (current_piece self) dx dy grid = Ok true)
  ∧ make_move h self = Raise NoReturn.
Proof.
  intros Hempty Hboard. split.
  { intros dx dy grid. by apply is_valid_move_empty_shape. }
  unfold make_move, search.
  change (Py.range 0 4) with (0 :: Py.range 1 4). cbn [for_each].
  unfold try_rotation at 1.
  change (Py.range (-5) 6) with (-5 :: Py.range (-4) 6). cbn [for_each].
  unfold try_offset at 1.
  rewrite (copy_rows_fresh _ _ _ Hboard). cbn [bind].
  rewrite read_grid_fresh. cbn [bind].
  rewrite drop_empty_shape; [done|].
  destruct (current_piece self); done.
Qed.

Lemma empty_shape_never_rests_witness :
  make_move blank_board
    (player_with (mkTetromino [[0; 0]; [0; 0]] CYAN 4 0)) = Raise NoReturn.
Proof.
  apply (empty_shape_never_rests blank_board _ blank_board).
  - intros (i & j & cell & Hcell & Hne).
    destruct i as [|[|i]], j as [|[|j]]; vm_compute in Hcell; congruence.
  - reflexivity.
Defined.

(** ** Loops over indices and loops over items *)

Lemma range_cons (a b : Z) : a < b → Py.range a b = a :: Py.range (a + 1) b.
Proof.
  intros Hab. unfold Py.range. rewrite seqZ_cons by lia.
  f_equal. f_equal; lia.
Qed.

Lemma range_nil (a b : Z) : b ≤ a → Py.range a b = [].
Proof.
  intros Hab. unfold Py.range, seqZ.
  by replace (Z.to_nat (b - a)) with 0%nat by lia.
Qed.

Lemma getitem_middle {A} (pre suf : list A) (a : A) :
  Py.getitem (pre ++ a :: suf) (Py.len pre) = Ok a.
Proof.
  apply getitem_lookup; [unfold Py.len; lia|].
  unfold Py.len. rewrite Nat2Z.id. apply list_lookup_middle. done.
Qed.

Lemma len_app {A} (l k : list A) : Py.len (l ++ k) = Py.len l + Py.len k.
Proof. unfold Py.len. rewrite length_app. lia. Qed.

Lemma len_cons {A} (a : A) (l : list A) : Py.len (a :: l) = 1 + Py.len l.
Proof. unfold Py.len. simpl. lia. Qed.

Lemma len_nonneg {A} (l : list A) : 0 ≤ Py.len l.
Proof. unfold Py.len. lia. Qed.

Section index_loops.
Context {A B S : Type}.

Lemma first_return_indexed (f : Z → A → result (option B)) (suf : list A) :
  ∀ pre : list A,
    first_return (Py.range (Py.len pre) (Py.len (pre ++ suf)))
      (λ y, a <- Py.getitem (pre ++ suf) y; f y a)
    = first_return (Py.enumerate_from (Py.len pre) suf) (λ '(y, a), f y a).
Proof.
  induction suf as [|a suf IH]; intros pre.
  - rewrite app_nil_r, range_nil by lia. done.
  - rewrite range_cons by (rewrite len_app, len_cons; pose proof (len_nonneg suf); lia).
    cbn [first_return Py.enumerate_from]. rewrite getitem_middle. cbn [bind].
    destruct (f (Py.len pre) a) as [[b|]|e]; cbn [bind]; [done| |done].
    specialize (IH (pre ++ [a])). rewrite <- app_assoc in IH. cbn [app] in IH.
    rewrite len_app, len_cons in IH. change (Py.len (@nil A)) with 0 in IH.
    rewrite Z.add_0_r in IH. exact IH.
Qed.

Lemma for_each_indexed (f : Z → A → S → result S) (suf : list A) :
  ∀ (pre : list A) (st : S),
    for_each (Py.range (Py.len pre) (Py.len (pre ++ suf)))
      (λ y st, a <- Py.getitem (pre ++ suf) y; f y a st) st
    = for_each (Py.enumerate_from (Py.len pre) suf) (λ '(y, a), f y a) st.
Proof.
  induction suf as [|a suf IH]; intros pre st.
  - rewrite app_nil_r, range_nil by lia. done.
  - rewrite range_cons by (rewrite len_app, len_cons; pose proof (len_nonneg suf); lia).
    cbn [for_each Py.enumerate_from]. rewrite getitem_middle. cbn [bind].
    destruct (f (Py.len pre) a st) as [st'|e]; cbn [bind]; [|done].
    specialize (IH (pre ++ [a]) st'). rewrite <- app_assoc in IH.
    cbn [app] in IH.
    rewrite len_app, len_cons in IH. change (Py.len (@nil A)) with 0 in IH.
    rewrite Z.add_0_r in IH. exact IH.
Qed.
End index_loops.

Lemma for_each_fmap {A B S} (g : A → B) (l : list A)
    (body : B → S → result S) (st : S) :
  for_each (g <$> l) body st = for_each l (λ a, body (g a)) st.
Proof.
  revert st. induction l as [|a l IH]; intros st; csimpl; [done|].
  destruct (body (g a) st); csimpl; [apply IH|done].
Qed.

Lemma comprehension_fmap {A B C} (g : A → B) (l : list A) (f : B → result C) :
  comprehension (g <$> l) f = comprehension l (λ a, f (g a)).
Proof.
  induction l as [|a l IH]; csimpl; [done|].
  destruct (f (g a)); csimpl; [by rewrite IH|done].
Qed.

Lemma comprehension_Ok {A B} (l : list A) (f : A → result B) (g : A → B) :
  (∀ a, a ∈ l → f a = Ok (g a)) → comprehension l f = Ok (g <$> l).
Proof.
  induction l as [|a l IH]; intros Hf; csimpl; [done|].
  rewrite Hf by left. csimpl. rewrite IH; [done|].
  intros a' Ha'. apply Hf. by right.
Qed.

Lemma range_seq (n : Z) :
  Py.range 0 n = (λ i : nat, Z.of_nat i) <$> seq 0 (Z.to_nat n).
Proof.
  unfold Py.range, seqZ. rewrite Z.sub_0_r. apply list_fmap_ext.
  intros i x _. lia.
Qed.

(** ** The heuristic terms *)

Lemma board_height_scan (suf : Grid) :
  ∀ pre : Grid,
    first_return (Py.enumerate_from (Py.len pre) suf)
      (λ '(y, row), if existsb not_black row
                    then Ok (Some (Py.len (pre ++ suf) - y)) else Ok None)
    = Ok (match skip_blank_rows suf with
          | [] => None
          | _ :: _ => Some (Py.len (skip_blank_rows suf))
          end).
Proof.
  induction suf as [|row suf IH]; intros pre; [done|].
  cbn [Py.enumerate_from first_return skip_blank_rows].
  destruct (existsb not_black row) eqn:Hrow; cbn [bind].
  - rewrite len_app. do 2 f_equal. lia.
  - specialize (IH (pre ++ [row])). rewrite <- app_assoc in IH.
    cbn [app] in IH. rewrite len_app, len_cons in IH.
    change (Py.len (@nil (list Color))) with 0 in IH.
    rewrite Z.add_0_r in IH. exact IH.
Qed.

Lemma calculate_board_height_value (grid : Grid) :
  calculate_board_height grid = Ok (Py.len (skip_blank_rows grid)).
Proof.
  unfold calculate_board_height.
  pose proof (first_return_indexed (B := Z)
    (λ y row, if existsb not_black row
              then Ok (Some (Py.len grid - y)) else Ok None) grid []) as Hidx.
  cbn [app] in Hidx. change (Py.len (@nil (list Color))) with 0 in Hidx.
  pose proof (board_height_scan grid []) as Hscan.
  cbn [app] in Hscan. change (Py.len (@nil (list Color))) with 0 in Hscan.
  etrans; [apply (f_equal (λ m, bind m (λ r, Ok (default 0 r)))); exact Hidx|].
  etrans; [apply (f_equal (λ m, bind m (λ r, Ok (default 0 r)))); exact Hscan|].
  cbn [bind]. by destruct (skip_blank_rows grid).
Qed.

Lemma blank_row_iff (row : list Color) :
  existsb not_black row = false ↔ Forall (λ c, c = BLACK) row.
Proof.
  induction row as [|c row IH]; simpl; [by split|].
  rewrite orb_false_iff, IH, Forall_cons. unfold not_black.
  rewrite bool_decide_eq_false. split; intros [H1 H2]; split; try done.
  - by apply dec_stable.
  - by intros ?.
Qed.

Lemma skip_blank_rows_facts (grid : Grid) :
  0 ≤ Py.len (skip_blank_rows grid) ≤ Py.len grid
  ∧ (Py.len (skip_blank_rows grid) = 0
     ↔ Forall (λ row, Forall (λ c, c = BLACK) row) grid)
  ∧ (∀ (i : nat) row, grid !! i = Some row → existsb not_black row = true →
       Py.len grid - Z.of_nat i ≤ Py.len (skip_blank_rows grid)).
Proof.
  induction grid as [|row grid (IHlen & IHzero & IHtop)].
  { split; [done|]. split; [by split|]. by intros i row ?. }
  cbn [skip_blank_rows]. destruct (existsb not_black row) eqn:Hrow.
  - split; [rewrite len_cons; pose proof (len_nonneg grid); lia|]. split.
    + rewrite len_cons. pose proof (len_nonneg grid). split; [lia|].
      intros [Hb _]%Forall_cons. apply blank_row_iff in Hb. congruence.
    + intros i r _ _. lia.
  - rewrite len_cons. split; [lia|]. split.
    + rewrite IHzero, Forall_cons, <- blank_row_iff.
      split; [by intros ?; split | by intros [_ ?]].
    + intros [|i] r Hr Hne; simpl in Hr.
      * congruence.
      * specialize (IHtop i r Hr Hne). lia.
Qed.

(** X6. [calculate_board_height] returns, for every grid, the number of
    rows from the topmost non-empty row down to the floor: it is 0 exactly
    when every cell is empty, and never more than the number of rows. *)
Theorem calculate_board_height_spec (grid : Grid) :
  calculate_board_height grid = Ok (Py.len (skip_blank_rows grid))
  ∧ 0 ≤ Py.len (skip_blank_rows grid) ≤ Py.len grid
  ∧ (Py.len (skip_blank_rows grid) = 0
     ↔ Forall (λ row, Forall (λ c, c = BLACK) row) grid)
  ∧ (∀ (i : nat) row, grid !! i = Some row → existsb not_black row = true →
       Py.len grid - Z.of_nat i ≤ Py.len (skip_blank_rows grid)).
Proof.
  split; [apply calculate_board_height_value | apply skip_blank_rows_facts].
Qed.

Lemma for_each_ext {A S} (l : list A) (f g : A → S → result S) (st : S) :
  (∀ a s, f a s = g a s) → for_each l f st = for_each l g st.
Proof.
  intros Hfg. revert st. induction l as [|a l IH]; intros st; simpl; [done|].
  rewrite Hfg. destruct (g a st); simpl; [apply IH|done].
Qed.

Lemma for_each_sum {A} (l : list A) (body : A → Z → result Z) (w : A → Z) (h0 : Z) :
  (∀ a h, a ∈ l → body a h = Ok (h + w a)) →
  for_each l body h0 = Ok (h0 + sumZ (w <$> l)).
Proof.
  revert h0. induction l as [|a l IH]; intros h0 Hbody; csimpl.
  - by rewrite Z.add_0_r.
  - rewrite Hbody by left. csimpl. rewrite IH.
    + unfold sumZ. csimpl. f_equal. lia.
    + intros a' h Ha'. apply Hbody. by right.
Qed.

Section columns.
Context (cols : Z) (x : Z) (Hx : 0 ≤ x < cols).

Lemma column_cons (row : list Color) (grid : Grid) :
  Py.len row = cols →
  ∃ c, row !! Z.to_nat x = Some c ∧ Py.getitem row x = Ok c
       ∧ column (Z.to_nat x) (row :: grid) = c :: column (Z.to_nat x) grid.
Proof.
  intros Hlen. destruct (getitem_nonneg row x) as (c & Hc & Hget); [lia|].
  exists c. split; [done|]. split; [done|]. unfold column. simpl. by rewrite Hc.
Qed.

Lemma column_length (grid : Grid) :
  Forall (λ row, Py.len row = cols) grid →
  length (column (Z.to_nat x) grid) = length grid.
Proof.
  induction 1 as [|row grid Hrow _ IH]; [done|].
  destruct (column_cons row grid Hrow) as (c & _ & _ & ->). simpl. by rewrite IH.
Qed.

Lemma column_height_scan (suf : Grid) :
  Forall (λ row, Py.len row = cols) suf →
  ∀ pre : Grid,
    first_return (Py.enumerate_from (Py.len pre) suf)
      (λ '(y, row), c <- Py.getitem row x;
                    if not_black c
                    then Ok (Some (Py.len (pre ++ suf) - y)) else Ok None)
    = Ok (match skip_blank_cells (column (Z.to_nat x) suf) with
          | [] => None
          | _ :: _ => Some (column_height_spec (column (Z.to_nat x) suf))
          end).
Proof.
  induction 1 as [|row suf Hrow Hsuf IH]; intros pre; [done|].
  destruct (column_cons row suf Hrow) as (c & _ & Hget & Hcol).
  cbn [Py.enumerate_from first_return]. rewrite Hget, Hcol. cbn [bind].
  unfold column_height_spec. cbn [skip_blank_cells].
  destruct (not_black c) eqn:Hc; cbn [bind].
  - rewrite len_app, !len_cons. do 2 f_equal.
    unfold Py.len. rewrite (column_length suf Hsuf). lia.
  - specialize (IH (pre ++ [row])). rewrite <- app_assoc in IH.
    cbn [app] in IH. rewrite len_app, len_cons in IH.
    change (Py.len (@nil (list Color))) with 0 in IH.
    rewrite Z.add_0_r in IH. exact IH.
Qed.
End columns.

Lemma skip_blank_cells_length (col : list Color) :
  (length (skip_blank_cells col) ≤ length col)%nat.
Proof.
  induction col as [|c col IH]; simpl; [done|].
  destruct (not_black c); simpl; lia.
Qed.

Lemma get_column_height_value (rows cols : Z) (grid : Grid) (x : Z) :
  rectangular rows cols grid → 0 ≤ x < cols →
  get_column_height grid x
  = Ok (column_height_spec (column (Z.to_nat x) grid)).
Proof.
  intros (_ & Hcols & _) Hx. unfold get_column_height.
  pose proof (first_return_indexed (B := Z)
    (λ y row, c <- Py.getitem row x;
              if not_black c then Ok (Some (Py.len grid - y)) else Ok None)
    grid []) as Hidx.
  cbn [app] in Hidx. change (Py.len (@nil (list Color))) with 0 in Hidx.
  pose proof (column_height_scan cols x Hx grid Hcols []) as Hscan.
  cbn [app] in Hscan. change (Py.len (@nil (list Color))) with 0 in Hscan.
  etrans; [apply (f_equal (λ m, bind m (λ r, Ok (default 0 r)))); exact Hidx|].
  etrans; [apply (f_equal (λ m, bind m (λ r, Ok (default 0 r)))); exact Hscan|].
  cbn [bind]. unfold column_height_spec.
  by destruct (skip_blank_cells (column (Z.to_nat x) grid)).
Qed.

Lemma column_height_le_board (cols : Z) (grid : Grid) (x : Z) :
  Forall (λ row, Py.len row = cols) grid → 0 ≤ x < cols →
  column_height_spec (column (Z.to_nat x) grid) ≤ Py.len (skip_blank_rows grid).
Proof.
  intros Hcols Hx. induction Hcols as [|row grid Hrow Hgrid IH]; [done|].
  destruct (column_cons cols x Hx row grid Hrow) as (c & Hc & _ & ->).
  unfold column_height_spec in *. cbn [skip_blank_cells skip_blank_rows].
  destruct (existsb not_black row) eqn:Hblank.
  - pose proof (skip_blank_cells_length (c :: column (Z.to_nat x) grid)) as Hle.
    cbn [skip_blank_cells] in Hle. simpl length in Hle.
    rewrite (column_length cols x Hx grid Hgrid) in Hle.
    rewrite len_cons. unfold Py.len. lia.
  - assert (not_black c = false) as ->; [|exact IH].
    destruct (not_black c) eqn:Hcell; [|done].
    assert (existsb not_black row = true); [|congruence].
    apply existsb_exists. exists c. split; [|done].
    apply list_elem_of_In, list_elem_of_lookup. eauto.
Qed.

Lemma board_height_reached (cols : Z) (grid : Grid) :
  Forall (λ row, Py.len row = cols) grid →
  0 < Py.len (skip_blank_rows grid) →
  ∃ x, 0 ≤ x < cols
       ∧ column_height_spec (column (Z.to_nat x) grid)
         = Py.len (skip_blank_rows grid).
Proof.
  induction 1 as [|row grid Hrow Hgrid IH]; [done|].
  cbn [skip_blank_rows]. destruct (existsb not_black row) eqn:Hblank.
  - intros _. apply existsb_exists in Hblank as (c & Hin & Hc).
    apply list_elem_of_In, list_elem_of_lookup in Hin as [i Hi].
    apply lookup_lt_Some in Hi as Hlt.
    assert (0 ≤ Z.of_nat i < cols) as Hx by (unfold Py.len in Hrow; lia).
    exists (Z.of_nat i). split; [done|].
    destruct (column_cons cols _ Hx row grid Hrow) as (c' & Hc' & _ & ->).
    rewrite Nat2Z.id, Hi in Hc'. injection Hc' as <-.
    unfold column_height_spec. cbn [skip_blank_cells]. rewrite Hc.
    rewrite !len_cons. unfold Py.len.
    by rewrite (column_length cols _ Hx grid Hgrid).
  - intros Hpos. destruct (IH Hpos) as (x & Hx & Heq). exists x. split; [done|].
    destruct (column_cons cols x Hx row grid Hrow) as (c & Hc & _ & ->).
    unfold column_height_spec in *. cbn [skip_blank_cells].
    assert (not_black c = false) as ->; [|exact Heq].
    destruct (not_black c) eqn:Hcell; [|done].
    assert (existsb not_black row = true); [|congruence].
    apply existsb_exists. exists c. split; [|done].
    apply list_elem_of_In, list_elem_of_lookup. eauto.
Qed.

(** X7. On a rectangular grid [get_column_height] returns, for a column
    inside the grid, the number of cells from the topmost non-empty cell of
    that column down to the floor (0 for an empty column); the value lies
    between 0 and the number of rows. *)
Theorem get_column_height_spec (rows cols : Z) (grid : Grid) (x : Z) :
  rectangular rows cols grid → 0 ≤ x < cols →
  get_column_height grid x
  = Ok (column_height_spec (column (Z.to_nat x) grid))
  ∧ 0 ≤ column_height_spec (column (Z.to_nat x) grid) ≤ rows
  ∧ (column_height_spec (column (Z.to_nat x) grid) = 0
     ↔ Forall (λ c, c = BLACK) (column (Z.to_nat x) grid)).
Proof.
  intros Hrect Hx. split; [by eapply get_column_height_value|].
  destruct Hrect as (Hrows & Hcols & _). split.
  - unfold column_height_spec. split; [apply len_nonneg|].
    pose proof (skip_blank_cells_length (column (Z.to_nat x) grid)) as Hle.
    rewrite (column_length cols x Hx grid Hcols) in Hle.
    unfold Py.len in *. lia.
  - unfold column_height_spec.
    induction (column (Z.to_nat x) grid) as [|c col IH]; [by split|].
    cbn [skip_blank_cells]. rewrite Forall_cons. unfold not_black.
    case_bool_decide as Hc.
    + rewrite len_cons. pose proof (len_nonneg col). split; [lia|].
      by intros [? _].
    + rewrite IH. split; [by intros ?; split|by intros [_ ?]].
Qed.

Lemma get_column_height_spec_witness :
  get_column_height crowded_board 3 = Ok 19.
Proof.
  destruct (get_column_height_spec 20 10 crowded_board 3) as (Hval & _).
  - split; [reflexivity|]. split; [|reflexivity].
    apply Forall_forall. intros row Hrow. apply list_elem_of_In in Hrow.
    vm_compute in Hrow. repeat (destruct Hrow as [<-|Hrow]; [reflexivity|]).
    destruct Hrow.
  - lia.
  - rewrite Hval. reflexivity.
Defined.

(** X8. On a rectangular grid the board height is the largest column
    height: no column returned by [get_column_height] is higher than
    [calculate_board_height], and if the grid has a column then some
    column is exactly as high. *)
Theorem board_height_is_highest_column (rows cols : Z) (grid : Grid) :
  rectangular rows cols grid →
  ∃ height,
    calculate_board_height grid = Ok height
    ∧ (∀ x, 0 ≤ x < cols →
         ∃ v, get_column_height grid x = Ok v ∧ v ≤ height)
    ∧ (0 < cols → ∃ x, 0 ≤ x < cols ∧ get_column_height grid x = Ok height).
Proof.
  intros Hrect. pose proof Hrect as (Hrows & Hcols & Hpos).
  exists (Py.len (skip_blank_rows grid)).
  split; [apply calculate_board_height_value|]. split.
  - intros x Hx. eexists. split; [by eapply get_column_height_value|].
    by apply (column_height_le_board cols).
  - intros Hc.
    destruct (decide (0 < Py.len (skip_blank_rows grid))) as [Hh|Hh].
    + destruct (board_height_reached cols grid Hcols Hh) as (x & Hx & Heq).
      exists x. split; [done|].
      rewrite (get_column_height_value rows cols) by done. by rewrite Heq.
    + exists 0. split; [lia|].
      rewrite (get_column_height_value rows cols) by (done || lia).
      f_equal. pose proof (len_nonneg (skip_blank_rows grid)).
      pose proof (column_height_le_board cols grid 0 Hcols ltac:(lia)).
      unfold column_height_spec in *.
      pose proof (len_nonneg (skip_blank_cells (column (Z.to_nat 0) grid))).
      lia.
Qed.

Lemma board_height_is_highest_column_witness :
  ∃ height, calculate_board_height blank_board = Ok height.
Proof.
  destruct (board_height_is_highest_column 20 10 blank_board
              blank_board_rectangular) as (height & Hh & _).
  exists height. exact Hh.
Defined.

(** The body of the loop over the rows in [calculate_holes], on a row. *)
Lemma holes_step_row (grid : Grid) (x y : Z) (st : bool * Z) :
  holes_step grid x y st
  = (row <- Py.getitem grid y;
     (λ (_ : Z) (row : list Color) (st : bool * Z),
        c <- Py.getitem row x;
        if not_black c then Ok (true, snd st)
        else if fst st then Ok (fst st, snd st + 1)
        else Ok (fst st, snd st)) y row st).
Proof. by destruct st. Qed.

Lemma holes_scan (cols x : Z) (suf : Grid) :
  0 ≤ x < cols → Forall (λ row, Py.len row = cols) suf →
  ∀ (k : Z) (found : bool) (h : Z),
    for_each (Py.enumerate_from k suf)
      (λ '(y, row), (λ (_ : Z) (row : list Color) (st : bool * Z),
        c <- Py.getitem row x;
        if not_black c then Ok (true, snd st)
        else if fst st then Ok (fst st, snd st + 1)
        else Ok (fst st, snd st)) y row) (found, h)
    = Ok (found || existsb not_black (column (Z.to_nat x) suf),
          h + (if found
               then Py.len (filter (λ c, c = BLACK) (column (Z.to_nat x) suf))
               else column_holes_spec (column (Z.to_nat x) suf))).
Proof.
  intros Hx. induction 1 as [|row suf Hrow Hsuf IH]; intros k found h.
  - simpl. rewrite orb_false_r. destruct found; unfold column_holes_spec;
      simpl; by rewrite Z.add_0_r.
  - destruct (column_cons cols x Hx row suf Hrow) as (c & _ & Hget & ->).
    cbn [Py.enumerate_from for_each]. rewrite Hget. cbn [bind fst snd].
    unfold column_holes_spec. cbn [skip_blank_cells existsb].
    destruct (not_black c) eqn:Hnb.
    + assert (c ≠ BLACK) as Hc
        by (unfold not_black in Hnb; by apply bool_decide_eq_true in Hnb).
      cbn [bind]. rewrite IH. cbn [orb]. rewrite orb_true_r.
      rewrite !(filter_cons_False (λ c, c = BLACK)) by done.
      by destruct found.
    + assert (c = BLACK) as Hc.
      { unfold not_black in Hnb. apply bool_decide_eq_false in Hnb.
        by apply dec_stable. }
      rewrite !(filter_cons_True (λ c, c = BLACK)) by done.
      destruct found; cbn [bind]; rewrite IH; cbn [orb].
      * f_equal. f_equal. rewrite len_cons. lia.
      * done.
Qed.

Lemma fmap_columns {B} (f : list Color → B) (cols : Z) (grid : Grid) :
  f <$> columns cols grid
  = (λ i : nat, f (column i grid)) <$> seq 0 (Z.to_nat cols).
Proof. unfold columns. by rewrite <- list_fmap_compose. Qed.

Lemma calculate_holes_value (rows cols : Z) (grid : Grid) :
  rectangular rows cols grid →
  calculate_holes grid = Ok (sumZ (column_holes_spec <$> columns cols grid)).
Proof.
  intros Hrect. unfold calculate_holes.
  destruct (rectangular_first_row rows cols grid Hrect) as (g0 & -> & Hlen0).
  destruct Hrect as (_ & Hcols & _). cbn [bind]. rewrite Hlen0.
  rewrite range_seq, for_each_fmap, fmap_columns.
  rewrite (for_each_sum _ _ (λ i : nat, column_holes_spec (column i grid))).
  { by rewrite Z.add_0_l. }
  intros i h Hi%elem_of_seq.
  rewrite (for_each_ext _ _ _ _ (holes_step_row grid (Z.of_nat i))).
  pose proof (for_each_indexed
    (λ (_ : Z) (row : list Color) (st : bool * Z),
       c <- Py.getitem row (Z.of_nat i);
       if not_black c then Ok (true, snd st)
       else if fst st then Ok (fst st, snd st + 1)
       else Ok (fst st, snd st)) grid [] (false, h)) as Hidx.
  cbn [app] in Hidx. change (Py.len (@nil (list Color))) with 0 in Hidx.
  etrans; [apply (f_equal (λ m, bind m (λ st, Ok (snd st)))); exact Hidx|].
  rewrite (holes_scan cols (Z.of_nat i)) by (done || lia).
  cbn [bind snd]. by rewrite Nat2Z.id.
Qed.

Lemma sumZ_nonneg (l : list Z) : Forall (λ v, 0 ≤ v) l → 0 ≤ sumZ l.
Proof. induction 1; unfold sumZ in *; simpl; lia. Qed.

Lemma sumZ_zero (l : list Z) :
  Forall (λ v, 0 ≤ v) l → (sumZ l = 0 ↔ Forall (λ v, v = 0) l).
Proof.
  induction 1 as [|v l Hv Hl IH]; [by split|].
  pose proof (sumZ_nonneg l Hl). unfold sumZ in *. simpl.
  rewrite Forall_cons, <- IH. lia.
Qed.

(** X9. On a rectangular grid [calculate_holes] returns the number of
    empty cells that lie below the topmost non-empty cell of their column,
    summed over the columns; it is 0 exactly when no column has an empty
    cell under an occupied one. *)
Theorem calculate_holes_spec (rows cols : Z) (grid : Grid) :
  rectangular rows cols grid →
  calculate_holes grid = Ok (sumZ (column_holes_spec <$> columns cols grid))
  ∧ 0 ≤ sumZ (column_holes_spec <$> columns cols grid)
  ∧ (sumZ (column_holes_spec <$> columns cols grid) = 0
     ↔ ∀ x : nat, (Z.of_nat x < cols) →
         Forall (λ c, c ≠ BLACK) (skip_blank_cells (column x grid))).
Proof.
  intros Hrect. split; [by eapply calculate_holes_value|].
  assert (Forall (λ v, 0 ≤ v) (column_holes_spec <$> columns cols grid)) as Hnn.
  { apply Forall_fmap, Forall_forall. intros col _. apply len_nonneg. }
  split; [by apply sumZ_nonneg|].
  rewrite (sumZ_zero _ Hnn), fmap_columns, Forall_fmap, Forall_seq.
  assert (∀ col, column_holes_spec col = 0
                 ↔ Forall (λ c, c ≠ BLACK) (skip_blank_cells col)) as Hcol.
  { intros col. unfold column_holes_spec, Py.len.
    induction (skip_blank_cells col) as [|c l IH]; [by split|].
    rewrite filter_cons, Forall_cons. destruct (decide (c = BLACK)) as [->|Hc].
    - simpl. split; [lia|]. by intros [? _].
    - rewrite IH. split; [by intros ?; split | by intros [_ ?]]. }
  split.
  - intros H x Hx. apply Hcol. apply (H x). lia.
  - intros H x Hx. simpl. apply Hcol. apply H. lia.
Qed.

Lemma calculate_holes_spec_witness : calculate_holes crowded_board = Ok 18.
Proof.
  destruct (calculate_holes_spec 20 10 crowded_board) as (Hval & _).
  - split; [reflexivity|]. split; [|reflexivity].
    apply Forall_forall. intros row Hrow. apply list_elem_of_In in Hrow.
    vm_compute in Hrow. repeat (destruct Hrow as [<-|Hrow]; [reflexivity|]).
    destruct Hrow.
  - rewrite Hval. vm_compute. reflexivity.
Defined.

(** ** Bumpiness and the score *)

Lemma adjacent_terms (suf : list Z) :
  ∀ pre : list Z,
    ∃ terms,
      comprehension (Py.range (Py.len pre) (Py.len (pre ++ suf) - 1))
        (λ i, a <- Py.getitem (pre ++ suf) i;
              b <- Py.getitem (pre ++ suf) (i + 1);
              Ok (Z.abs (a - b)))
      = Ok terms
      ∧ sumZ terms = adjacent_differences suf.
Proof.
  induction suf as [|a suf IH]; intros pre.
  - exists []. rewrite app_nil_r, range_nil by lia. done.
  - destruct suf as [|b suf].
    + exists []. rewrite range_nil
        by (rewrite len_app, len_cons; change (Py.len (@nil Z)) with 0; lia).
      done.
    + destruct (IH (pre ++ [a])) as (terms & Hterms & Hsum).
      rewrite <- app_assoc in Hterms. cbn [app] in Hterms.
      rewrite len_app, len_cons in Hterms.
      change (Py.len (@nil Z)) with 0 in Hterms. rewrite Z.add_0_r in Hterms.
      exists (Z.abs (a - b) :: terms).
      rewrite range_cons
        by (rewrite len_app, !len_cons; pose proof (len_nonneg suf); lia).
      cbn [comprehension]. rewrite getitem_middle. cbn [bind].
      assert (Py.getitem (pre ++ a :: b :: suf) (Py.len pre + 1) = Ok b) as ->.
      { pose proof (getitem_middle (pre ++ [a]) suf b) as Hb.
        rewrite <- app_assoc in Hb. cbn [app] in Hb.
        rewrite len_app, len_cons in Hb.
        change (Py.len (@nil Z)) with 0 in Hb. by rewrite Z.add_0_r in Hb. }
      cbn [bind]. rewrite Hterms. cbn [bind]. split; [done|].
      cbn [adjacent_differences]. unfold sumZ in *. simpl. by rewrite Hsum.
Qed.

Lemma calculate_bumpiness_value (rows cols : Z) (grid : Grid) :
  rectangular rows cols grid →
  calculate_bumpiness grid
  = Ok (adjacent_differences (column_height_spec <$> columns cols grid)).
Proof.
  intros Hrect. unfold calculate_bumpiness.
  destruct (rectangular_first_row rows cols grid Hrect) as (g0 & -> & Hlen0).
  cbn [bind]. rewrite Hlen0.
  rewrite range_seq, comprehension_fmap.
  rewrite (comprehension_Ok _ _
             (λ i : nat, column_height_spec (column i grid))).
  2:{ intros i Hi%elem_of_seq.
      rewrite (get_column_height_value rows cols) by (done || lia).
      by rewrite Nat2Z.id. }
  cbn [bind]. rewrite <- fmap_columns.
  destruct (adjacent_terms (column_height_spec <$> columns cols grid) [])
    as (terms & Hterms & Hsum).
  cbn [app] in Hterms. change (Py.len (@nil Z)) with 0 in Hterms.
  rewrite Hterms. cbn [bind]. by rewrite Hsum.
Qed.

Lemma adjacent_differences_nonneg (l : list Z) : 0 ≤ adjacent_differences l.
Proof.
  induction l as [|a l IH]; [done|]. destruct l as [|b l]; [done|].
  cbn [adjacent_differences] in *. lia.
Qed.

Lemma adjacent_differences_level (l : list Z) (v : Z) :
  Forall (λ a, a = v) l → adjacent_differences l = 0.
Proof.
  induction 1 as [|a l -> Hl IH]; [done|]. destruct l as [|b l]; [done|].
  apply Forall_cons in Hl as Hb. destruct Hb as [-> _].
  cbn [adjacent_differences] in *. lia.
Qed.

(** X10. On a rectangular grid [calculate_bumpiness] returns the sum of
    the absolute differences between the heights of neighbouring columns;
    it is never negative and it is 0 when all columns are equally high. *)
Theorem calculate_bumpiness_spec (rows cols : Z) (grid : Grid) :
  rectangular rows cols grid →
  calculate_bumpiness grid
  = Ok (adjacent_differences (column_height_spec <$> columns cols grid))
  ∧ 0 ≤ adjacent_differences (column_height_spec <$> columns cols grid)
  ∧ (∀ v, Forall (λ col, column_height_spec col = v) (columns cols grid) →
          calculate_bumpiness grid = Ok 0).
Proof.
  intros Hrect. split; [by eapply calculate_bumpiness_value|].
  split; [apply adjacent_differences_nonneg|].
  intros v Hlevel. rewrite (calculate_bumpiness_value rows cols) by done.
  f_equal. apply (adjacent_differences_level _ v). by apply Forall_fmap.
Qed.

Lemma calculate_bumpiness_spec_witness :
  calculate_bumpiness crowded_board = Ok 1.
Proof.
  destruct (calculate_bumpiness_spec 20 10 crowded_board) as (Hval & _).
  - split; [reflexivity|]. split; [|reflexivity].
    apply Forall_forall. intros row Hrow. apply list_elem_of_In in Hrow.
    vm_compute in Hrow. repeat (destruct Hrow as [<-|Hrow]; [reflexivity|]).
    destruct Hrow.
  - rewrite Hval. vm_compute. reflexivity.
Defined.

Lemma column_holes_le_height (col : list Color) :
  0 ≤ column_holes_spec col ≤ column_height_spec col.
Proof.
  unfold column_holes_spec, column_height_spec, Py.len.
  pose proof (length_filter (λ c, c = BLACK) (skip_blank_cells col)). lia.
Qed.

(** X11. On a rectangular grid the score
    [height * 2 + holes * 3 + bumpiness] that [make_move] minimises is
    never negative, and it is 0 exactly for the board without any occupied
    cell. *)
Theorem board_score_zero_iff_blank (rows cols : Z) (grid : Grid) :
  rectangular rows cols grid →
  ∃ height holes bumpiness,
    calculate_board_height grid = Ok height
    ∧ calculate_holes grid = Ok holes
    ∧ calculate_bumpiness grid = Ok bumpiness
    ∧ board_score grid = Ok (height * 2 + holes * 3 + bumpiness)
    ∧ 0 ≤ height ∧ 0 ≤ holes ∧ 0 ≤ bumpiness
    ∧ (height * 2 + holes * 3 + bumpiness = 0
       ↔ Forall (λ row, Forall (λ c, c = BLACK) row) grid).
Proof.
  intros Hrect. pose proof Hrect as (Hrows & Hcols & Hpos).
  pose proof (calculate_board_height_value grid) as Hh.
  pose proof (calculate_holes_value rows cols grid Hrect) as Hs.
  pose proof (calculate_bumpiness_value rows cols grid Hrect) as Hb.
  destruct (skip_blank_rows_facts grid) as ([Hh0 _] & Hzero & _).
  assert (Forall (λ v, 0 ≤ v) (column_holes_spec <$> columns cols grid)) as Hnn.
  { apply Forall_fmap, Forall_forall. intros col _. apply len_nonneg. }
  pose proof (sumZ_nonneg _ Hnn) as Hs0.
  pose proof (adjacent_differences_nonneg
                (column_height_spec <$> columns cols grid)) as Hb0.
  eexists _, _, _. split; [exact Hh|]. split; [exact Hs|]. split; [exact Hb|].
  split; [unfold board_score; by rewrite Hh, Hs, Hb|].
  split; [done|]. split; [done|]. split; [done|].
  rewrite <- Hzero. split; [lia|]. intros Hblank.
  assert (Forall (λ col, column_height_spec col = 0) (columns cols grid)) as Hlow.
  { apply Forall_fmap, Forall_seq. intros i Hi. simpl.
    pose proof (column_height_le_board cols grid (Z.of_nat i) Hcols
                  ltac:(lia)) as Hle.
    rewrite Nat2Z.id in Hle.
    pose proof (column_holes_le_height (column i grid)). lia. }
  rewrite (adjacent_differences_level _ 0) by (by apply Forall_fmap).
  assert (sumZ (column_holes_spec <$> columns cols grid) = 0) as ->.
  { apply (sumZ_zero _ Hnn). apply Forall_fmap.
    eapply Forall_impl; [exact Hlow|]. intros col Hcol. simpl in *.
    pose proof (column_holes_le_height col). lia. }
  lia.
Qed.

Lemma board_score_zero_iff_blank_witness : board_score blank_board = Ok 0.
Proof.
  destruct (board_score_zero_iff_blank 20 10 blank_board
              blank_board_rectangular)
    as (height & holes & bumpiness & _ & _ & _ & Hscore & _ & _ & _ & Hzero).
  rewrite Hscore. f_equal. apply Hzero.
  apply Forall_forall. intros row [-> _]%elem_of_replicate.
  apply Forall_forall. by intros c [-> _]%elem_of_replicate.
Defined.

(** ** Soundness of the move applied by the search *)

(** The two ways [make_move] can end on a well-formed board: no candidate
    was accepted and the player is as before, or the move of an accepted
    candidate is applied. *)
Lemma make_move_cases (h : heap) (self : TetrisPlayer) (board : Grid)
    (rows cols : Z) :
  read_grid h (grid self) = Ok board →
  rectangular rows cols board →
  shape_ok (shape (current_piece self)) →
  ∃ ext,
    make_move h self = Ok (h ++ ext, self)
    ∨ ∃ rot dx sc,
        make_move h self
        = Ok (h ++ ext,
              set_piece (set_px (px (current_piece self) + dx)
                           (rotate_times rot (current_piece self))) self)
        ∧ candidate board (start_piece (current_piece self) rot dx)
          = Ok (Some (px (current_piece self) + dx, sc)).
Proof.
  intros Hboard Hrect Hshape.
  pose proof (candidate_evaluated rows cols board (current_piece self)
                Hrect Hshape) as Heval.
  destruct (search_result rows cols h (grid self) board (current_piece self)
              Hboard Hrect Hshape) as (ext & Hsearch).
  exists ext. unfold make_move. rewrite Hsearch. cbn [bind].
  destruct (best_after_first_minimum board (current_piece self) all_candidates)
    as [[-> _]|(before & rot & dx & after & x & sc
                & _ & Hout & -> & _)].
  - left. rewrite apply_default_move. by destruct self.
  - right. exists rot, dx, sc.
    pose proof (Heval (rot, dx)) as Hcand. rewrite Hout in Hcand.
    pose proof (candidate_accepted _ _ _ _ Hcand) as (Hx & _). simpl in Hx.
    subst x. split; [done|exact Hcand].
Qed.

Lemma start_piece_is_moved_piece (current : Tetromino) (rot dx : Z) :
  start_piece current rot dx
  = set_px (px current + dx) (rotate_times rot current).
Proof.
  unfold start_piece, set_py, set_px. simpl.
  destruct (rotate_times_position rot current) as (_ & -> & _).
  by destruct (rotate_times rot current).
Qed.

(** X12. On a rectangular board and for a well-formed piece [make_move]
    returns, and either it leaves the player as it is, or the piece it
    leaves has a valid resting place: a hard drop of the live piece from
    where the search put it ends in a position that [is_valid_move]
    accepts, and all occupied cells of the piece lie inside the columns of
    the board. *)
Theorem make_move_sound (h : heap) (self : TetrisPlayer) (board : Grid)
    (rows cols : Z) :
  read_grid h (grid self) = Ok board →
  rectangular rows cols board →
  shape_ok (shape (current_piece self)) →
  ∃ h' self',
    make_move h self = Ok (h', self')
    ∧ (self' = self
       ∨ (∃ temp,
            drop (drop_fuel board (current_piece self')) board
                 (current_piece self') = Ok temp
            ∧ is_valid_move temp 0 0 board = Ok true)
         ∧ ∀ (i j : nat) cell,
             cell_at (shape (current_piece self')) i j = Some cell →
             cell ≠ 0 →
             0 ≤ px (current_piece self') + Z.of_nat j < cols).
Proof.
  intros Hboard Hrect Hshape.
  destruct (make_move_cases h self board rows cols Hboard Hrect Hshape)
    as (ext & [Hsame|(rot & dx & sc & Hmove & Hcand)]).
  { eexists _, _. split; [exact Hsame|by left]. }
  eexists _, _. split; [exact Hmove|]. right. cbn [current_piece set_piece].
  rewrite <- start_piece_is_moved_piece.
  apply candidate_accepted in Hcand
    as (_ & temp & _ & _ & _ & _ & Hdrop & Hvalid & _).
  split; [by exists temp|].
  intros i j cell Hcell Hne.
  apply drop_keeps in Hdrop as (Hs & _ & Hx).
  destruct (is_valid_move_rectangular rows cols board temp 0 0 Hrect)
    as (b & Hb & Hiff).
  rewrite Hvalid in Hb. injection Hb as <-.
  destruct Hiff as [Hfit _]. rewrite <- Hs in Hcell.
  destruct (Hfit eq_refl i j cell Hcell Hne) as (Hcol & _).
  rewrite <- Hx. lia.
Qed.

Lemma make_move_sound_witness :
  ∃ h' self', make_move crowded_board (player_with I_piece) = Ok (h', self').
Proof.
  destruct (make_move_sound crowded_board (player_with I_piece)
              crowded_board 20 10) as (h' & self' & Hmove & _).
  - reflexivity.
  - split; [reflexivity|]. split; [|reflexivity].
    apply Forall_forall. intros row Hrow. apply list_elem_of_In in Hrow.
    vm_compute in Hrow. repeat (destruct Hrow as [<-|Hrow]; [reflexivity|]).
    destruct Hrow.
  - split; [exists 4%nat; repeat constructor | by exists 0%nat, 0%nat, 1].
  - exists h', self'. exact Hmove.
Defined.

(** ** Locking a piece into the live board *)

(** Two loops that stay related by [R]; the first raises what the second
    raises. *)
Lemma for_each_sim {A S T} (R : S → T → Prop) (l : list A)
    (body1 : A → S → result S) (body2 : A → T → result T) (s : S) (t : T) :
  R s t →
  (∀ a s t, R s t →
     match body2 a t with
     | Ok t' => ∃ s', body1 a s = Ok s' ∧ R s' t'
     | Raise e => body1 a s = Raise e
     end) →
  match for_each l body2 t with
  | Ok t' => ∃ s', for_each l body1 s = Ok s' ∧ R s' t'
  | Raise e => for_each l body1 s = Raise e
  end.
Proof.
  intros Hst Hbody. revert s t Hst.
  induction l as [|a l IH]; intros s t Hst; simpl; [by exists s|].
  specialize (Hbody a s t Hst).
  destruct (body2 a t) as [t1|e]; simpl.
  - destruct Hbody as (s1 & -> & Hs1). simpl. by apply IH.
  - by rewrite Hbody.
Qed.

Lemma place_cell_live (h : heap) (g : list loc) (piece : Tetromino)
    (y x cell : Z) (h1 : heap) (board1 : Grid) :
  NoDup g → written h g h1 board1 →
  match write_cell piece y x cell board1 with
  | Ok board2 =>
      ∃ h2,
        (if truthy cell then
           if bool_decide (0 ≤ py piece + y < Py.len g) then
             l <- Py.getitem g (py piece + y);
             r <- load h1 l;
             r' <- Py.setitem r (px piece + x) (color piece);
             Ok (store h1 l r')
           else Ok h1
         else Ok h1) = Ok h2
        ∧ written h g h2 board2
  | Raise e =>
      (if truthy cell then
         if bool_decide (0 ≤ py piece + y < Py.len g) then
           l <- Py.getitem g (py piece + y);
           r <- load h1 l;
           r' <- Py.setitem r (px piece + x) (color piece);
           Ok (store h1 l r')
         else Ok h1
       else Ok h1) = Raise e
  end.
Proof.
  intros Hnodup (Hread & Hlen & Hframe). unfold write_cell.
  destruct (truthy cell); [|by exists h1].
  pose proof (read_grid_length _ _ _ Hread) as Hlens.
  assert (Py.len board1 = Py.len g) as -> by (unfold Py.len; by rewrite Hlens).
  case_bool_decide as Hy; [|by exists h1].
  destruct (getitem_nonneg g (py piece + y) Hy) as (l & Hl & ->). cbn [bind].
  apply read_grid_Ok in Hread as Hall.
  destruct (Forall2_lookup_l _ _ _ _ _ Hall Hl) as (r & Hr & Hhr).
  rewrite (getitem_lookup board1 (py piece + y) r) by (lia || done).
  rewrite (proj2 (load_Ok h1 l r) Hhr). cbn [bind].
  destruct (Py.setitem r (px piece + x) (color piece)) as [r'|e]; [|done].
  cbn [bind]. eexists. split; [done|]. unfold store. split; [|split].
  - apply read_grid_Ok, Forall2_same_length_lookup.
    split; [by rewrite length_insert|].
    intros i li ri Hli Hri.
    destruct (decide (i = Z.to_nat (py piece + y))) as [->|Hne].
    + rewrite list_lookup_insert_eq in Hri by (by eapply lookup_lt_Some).
      rewrite Hl in Hli. simplify_eq.
      apply list_lookup_insert_eq. by eapply lookup_lt_Some.
    + rewrite list_lookup_insert_ne in Hri by done.
      assert (li ≠ l) as Hll.
      { intros ->. apply Hne. by eapply NoDup_lookup. }
      rewrite list_lookup_insert_ne by done.
      exact (Forall2_lookup_lr _ _ _ _ _ _ Hall Hli Hri).
  - by rewrite length_insert.
  - intros l' Hl'. rewrite list_lookup_insert_ne; [by apply Hframe|].
    intros ->. apply Hl'. by eapply list_elem_of_lookup_2.
Qed.

(** Writing a piece into the rows of a live board is writing it into the
    rows as values; rows outside the board are not touched. *)
Lemma place_cells_live (h : heap) (g : list loc) (board : Grid)
    (piece : Tetromino) :
  NoDup g → read_grid h g = Ok board →
  match write_piece board piece with
  | Ok board' => ∃ h', place_cells h g piece = Ok h' ∧ written h g h' board'
  | Raise e => place_cells h g piece = Raise e
  end.
Proof.
  intros Hnodup Hread. unfold place_cells, write_piece.
  apply (for_each_sim (written h g)); [by split|].
  intros [y row] h1 board1 H1.
  apply (for_each_sim (written h g)); [done|].
  intros [x cell] h2 board2 H2. by apply place_cell_live.
Qed.

Lemma write_cell_rectangular (rows cols : Z) (piece : Tetromino)
    (y x cell : Z) (board board' : Grid) :
  rectangular rows cols board →
  write_cell piece y x cell board = Ok board' → rectangular rows cols board'.
Proof.
  intros (Hrows & Hcols & Hpos). unfold write_cell. intros H.
  destruct (truthy cell); [|by inv_ok].
  case_bool_decide as Hy; [|by inv_ok].
  apply bind_Ok in H as (r & Hr & H). apply bind_Ok in H as (r' & Hr' & H).
  inv_ok. unfold Py.getitem in Hr. rewrite norm_index_nonneg in Hr by done.
  apply of_option_Ok in Hr. simpl in Hr.
  eapply Forall_lookup_1 in Hcols as Hlen; [|exact Hr]. simpl in Hlen.
  unfold Py.setitem in Hr'. apply of_option_Ok in Hr'.
  destruct (Py.norm_index (length r) (px piece + x)) as [k|]; simplify_eq/=.
  split; [unfold Py.len in *; by rewrite length_insert|]. split; [|done].
  apply Forall_insert; [done|]. unfold Py.len in *. by rewrite length_insert.
Qed.

Lemma write_piece_rectangular (rows cols : Z) (piece : Tetromino)
    (board board' : Grid) :
  rectangular rows cols board →
  write_piece board piece = Ok board' → rectangular rows cols board'.
Proof.
  intros Hrect. apply (for_each_preserves (rectangular rows cols)); [|done].
  intros [y row] b1 b2 Hb1.
  apply (for_each_preserves (rectangular rows cols)); [|done].
  intros [x cell] b3 b4 Hb3. by apply write_cell_rectangular.
Qed.

Lemma filter_partition_length {A} (f : A → bool) (l : list A) :
  (length (filter (λ a, f a = true) l) + length (filter (λ a, f a = false) l)
   = length l)%nat.
Proof.
  induction l as [|a l IH]; [done|].
  rewrite !filter_cons. destruct (f a).
  - rewrite decide_True, decide_False by done. simpl. lia.
  - rewrite decide_False, decide_True by done. simpl. lia.
Qed.

Lemma read_grid_concat (h : heap) (g1 g2 : list loc) (b1 b2 : Grid) :
  read_grid h g1 = Ok b1 → read_grid h g2 = Ok b2 →
  read_grid h (g1 ++ g2) = Ok (b1 ++ b2).
Proof. rewrite !read_grid_Ok. apply Forall2_app. Qed.

Lemma blank_row_not_full (n : nat) :
  (0 < n)%nat → row_full (replicate n BLACK) = false.
Proof. intros Hn. destruct n; [lia|]. done. Qed.

(** The outcome of [lock_piece] on a well-formed board, in terms of the
    rows as values. *)
Lemma lock_piece_result (rows cols : Z) (h : heap) (player : TetrisPlayer)
    (board board1 : Grid) (gain : Z) :
  board_ok rows cols h (grid player) board →
  write_piece board (current_piece player) = Ok board1 →
  line_clear_score (count_full board1) = Some gain →
  ∃ h' g',
    lock_piece h player
    = Ok (h', mkPlayer g' (current_piece player) (game_over player)
                (score player + gain))
    ∧ board_ok rows cols h' g'
        (replicate (count_full board1) (replicate (Z.to_nat cols) BLACK)
         ++ filter (λ r, row_full r = false) board1)
    ∧ (length h ≤ length h')%nat
    ∧ (∀ l, l ∉ grid player → (l < length h)%nat → h' !! l = h !! l)
    ∧ (∀ l, l ∈ g' → l ∈ grid player ∨ (length h ≤ l)%nat).
Proof.
  intros (Hread & Hnodup & Hrect) Hwrite Hgain.
  pose proof (place_cells_live h (grid player) board (current_piece player)
                Hnodup Hread) as Hplace.
  rewrite Hwrite in Hplace.
  destruct Hplace as (h1 & Hplace & Hread1 & Hlen1 & Hframe1).
  pose proof (write_piece_rectangular rows cols _ _ _ Hrect Hwrite)
    as (Hrows1 & Hcols1 & Hpos).
  pose proof (read_grid_bound _ _ _ Hread1) as Hbound.
  pose proof (clear_loop h1 (grid player) Hbound [] [] 0) as Hloop.
  rewrite app_nil_r in Hloop. cbn [app length] in Hloop.
  set (full := filter (λ l, full_at h1 l = true) (grid player)) in *.
  set (kept := filter (λ l, full_at h1 l = false) (grid player)) in *.
  assert (length full = count_full board1) as Hcount.
  { pose proof (read_grid_filter h1 (grid player) board1 true Hread1) as Hf.
    apply read_grid_length in Hf. unfold count_full. by rewrite Hf. }
  assert (blank_like h1 <$> full
          = replicate (count_full board1) (replicate (Z.to_nat cols) BLACK))
    as Hblanks.
  { symmetry. apply replicate_as_Forall. split; [by rewrite length_fmap|].
    apply Forall_fmap, Forall_forall. intros l Hl. simpl.
    apply list_elem_of_filter in Hl as [_ Hl].
    apply read_grid_Ok in Hread1 as Hall.
    apply list_elem_of_lookup in Hl as [i Hi].
    destruct (Forall2_lookup_l _ _ _ _ _ Hall Hi) as (r & Hr & Hhr).
    unfold blank_like. rewrite Hhr.
    eapply Forall_lookup_1 in Hcols1; [|exact Hr]. simpl in Hcols1.
    f_equal. unfold Py.len in Hcols1. lia. }
  exists (h1 ++ (blank_like h1 <$> full)),
         (reverse (seq (length h1) (length full)) ++ kept).
  split.
  { unfold lock_piece. rewrite Hplace. cbn [bind]. unfold clear_lines.
    change (Py.enumerate (grid player))
      with (Py.enumerate_from (Z.of_nat 0) (grid player)).
    rewrite Hloop. cbn [bind]. rewrite Hcount.
    destruct (count_full board1) as [|[|[|[|[|n]]]]]; simplify_eq/=;
      try done. by rewrite Z.add_0_r. }
  split.
  { split; [|split].
    - apply read_grid_concat.
      + apply read_grid_Ok.
        rewrite <- (reverse_replicate (count_full board1)).
        apply Forall2_reverse, read_grid_Ok. rewrite <- Hblanks.
        rewrite <- (length_fmap (blank_like h1) full). apply read_grid_fresh.
      + by apply read_grid_app, read_grid_filter.
    - apply NoDup_app. split; [rewrite reverse_Permutation; apply NoDup_seq|].
      split; [|by apply NoDup_filter].
      intros l Hl Hk. rewrite elem_of_reverse, elem_of_seq in Hl.
      apply list_elem_of_filter in Hk as [_ Hk].
      rewrite Forall_forall in Hbound. apply Hbound in Hk. lia.
    - split; [|split; [|done]].
      + rewrite len_app. unfold Py.len. rewrite length_replicate.
        pose proof (filter_partition_length row_full board1) as Hpart.
        unfold count_full. unfold Py.len in Hrows1. lia.
      + apply Forall_app. split.
        * apply Forall_replicate. unfold Py.len. rewrite length_replicate.
          pose proof (rectangular_first_row rows cols board1
                        (conj Hrows1 (conj Hcols1 Hpos))) as (g0 & _ & Hg0).
          pose proof (len_nonneg g0). lia.
        * apply Forall_forall. intros r Hr.
          apply list_elem_of_filter in Hr as [_ Hr].
          revert r Hr. by apply Forall_forall. }
  split; [rewrite length_app; lia|]. split.
  - intros l Hl Hlt. rewrite lookup_app_l by lia. by apply Hframe1.
  - intros l Hl. apply elem_of_app in Hl as [Hl|Hl].
    + rewrite elem_of_reverse, elem_of_seq in Hl. right. lia.
    + apply list_elem_of_filter in Hl as [_ Hl]. by left.
Qed.


(** ** The cells written by [place_cells] *)

Lemma painted_ext (c : Color) (S S' : nat → nat → Prop) (b b' : Grid) :
  (∀ Y X, S Y X ↔ S' Y X) → painted c S b b' → painted c S' b b'.
Proof.
  intros HS Hp Y X. destruct (Hp Y X) as [H1 H2].
  split; intros H; [apply H1 | apply H2]; by rewrite HS.
Qed.

Lemma cell_at_insert {A} (m : list (list A)) (i j : nat) (r : list A) (v : A)
    (Y X : nat) :
  m !! i = Some r → (j < length r)%nat →
  cell_at (<[i := <[j := v]> r]> m) Y X
  = if decide (Y = i ∧ X = j) then Some v else cell_at m Y X.
Proof.
  intros Hr Hj. apply lookup_lt_Some in Hr as Hi. unfold cell_at.
  destruct (decide (Y = i)) as [->|Hne].
  - rewrite list_lookup_insert_eq by done. rewrite Hr. simpl.
    destruct (decide (X = j)) as [->|Hne].
    + rewrite decide_True by done. by rewrite list_lookup_insert_eq.
    + rewrite decide_False by (intros [_ ?]; done).
      by rewrite list_lookup_insert_ne.
  - rewrite decide_False by (intros [? _]; done).
    by rewrite list_lookup_insert_ne.
Qed.

Lemma length_enumerate_from {A} (l : list A) (start : Z) :
  length (Py.enumerate_from start l) = length l.
Proof. revert start. induction l as [|a l IH]; intros start; simpl; [done|]. by rewrite IH. Qed.

Lemma enumerate_split {A} (l : list A) (done rest : list (Z * A)) (a : Z * A) :
  Py.enumerate l = done ++ a :: rest →
  ∃ v, a = (Z.of_nat (length done), v) ∧ l !! length done = Some v.
Proof.
  intros H. pose proof (enumerate_from_lookup l 0 (length done)) as Hk.
  change (Py.enumerate_from 0 l) with (Py.enumerate l) in Hk.
  rewrite H, list_lookup_middle in Hk by done.
  destruct (l !! length done) as [v|]; simplify_eq/=. by exists v.
Qed.

Lemma write_cell_paint (rows cols : Z) (piece : Tetromino) (y x cell : Z)
    (S : nat → nat → Prop) (board0 board : Grid) :
  rectangular rows cols board →
  painted (color piece) S board0 board →
  (cell ≠ 0 → 0 ≤ px piece + x < cols) →
  ∃ board',
    write_cell piece y x cell board = Ok board'
    ∧ rectangular rows cols board'
    ∧ painted (color piece)
        (λ Y X, S Y X ∨ (cell ≠ 0 ∧ py piece + y = Z.of_nat Y
                         ∧ px piece + x = Z.of_nat X ∧ Z.of_nat Y < rows))
        board0 board'.
Proof.
  intros Hrect Hp Hcol.
  destruct (write_cell_total rows cols board piece y x cell Hrect Hcol)
    as (board' & Hw & Hrect').
  exists board'. split; [done|]. split; [done|].
  unfold write_cell, truthy in Hw. case_bool_decide as Hcell.
  - case_bool_decide as Hy.
    + destruct Hrect as (Hrows & Hcols & _). rewrite Hrows in Hy.
      destruct (getitem_nonneg board (py piece + y)) as (r & Hr & Hgr); [lia|].
      eapply Forall_lookup_1 in Hcols as Hlen; [|exact Hr]. simpl in Hlen.
      rewrite Hgr in Hw. cbn [bind] in Hw.
      rewrite setitem_nonneg in Hw by (specialize (Hcol Hcell); lia).
      cbn [bind] in Hw. injection Hw as <-.
      specialize (Hcol Hcell). unfold Py.len in Hlen.
      intros Y X. rewrite cell_at_insert by (done || lia).
      destruct (Hp Y X) as [H1 H2]. destruct (decide _) as [[-> ->]|Hne].
      * split; [done|]. intros Hn. destruct Hn. right. repeat split; lia.
      * split.
        -- intros [HS|(_ & HY & HX & _)]; [by apply H1|]. destruct Hne. lia.
        -- intros Hn. apply H2. intros HS. apply Hn. by left.
    + injection Hw as <-. intros Y X. destruct (Hp Y X) as [H1 H2].
      destruct Hrect as (Hrows & _). split.
      * intros [HS|(_ & HY & _ & Hlt)]; [by apply H1|]. destruct Hy. lia.
      * intros Hn. apply H2. intros HS. apply Hn. by left.
  - injection Hw as <-. intros Y X. destruct (Hp Y X) as [H1 H2]. split.
    + intros [HS|(Hne & _)]; [by apply H1|]. by destruct Hne.
    + intros Hn. apply H2. intros HS. apply Hn. by left.
Qed.

Lemma write_row_paint (rows cols : Z) (piece : Tetromino) (i : nat)
    (row : list Z) (S : nat → nat → Prop) (board0 board : Grid) :
  rectangular rows cols board →
  painted (color piece) S board0 board →
  (∀ (j : nat) cell, row !! j = Some cell → cell ≠ 0 →
     0 ≤ px piece + Z.of_nat j < cols) →
  ∃ board',
    for_each (Py.enumerate row)
      (λ '(x, cell) rows, write_cell piece (Z.of_nat i) x cell rows) board
    = Ok board'
    ∧ rectangular rows cols board'
    ∧ painted (color piece)
        (λ Y X, S Y X
                ∨ ∃ (j : nat) cell,
                    row !! j = Some cell ∧ cell ≠ 0
                    ∧ py piece + Z.of_nat i = Z.of_nat Y
                    ∧ px piece + Z.of_nat j = Z.of_nat X ∧ Z.of_nat Y < rows)
        board0 board'.
Proof.
  intros Hrect Hp Hcols.
  destruct (for_each_invariant
    (λ done b,
       rectangular rows cols b
       ∧ painted (color piece)
           (λ Y X, S Y X
                   ∨ ∃ (j : nat) cell,
                       (j < length done)%nat ∧ row !! j = Some cell ∧ cell ≠ 0
                       ∧ py piece + Z.of_nat i = Z.of_nat Y
                       ∧ px piece + Z.of_nat j = Z.of_nat X
                       ∧ Z.of_nat Y < rows)
           board0 b)
    (Py.enumerate row)
    (λ '(x, cell) rows, write_cell piece (Z.of_nat i) x cell rows) board)
    as (b' & Hb' & Hr' & Hp').
  - split; [done|]. eapply painted_ext; [|exact Hp].
    intros Y X. split; [by left|].
    intros [HS|(j & c & Hj & _)]; [done|]. simpl in Hj. lia.
  - intros done [x cell] rest s Hsplit [Hr Hs].
    apply enumerate_split in Hsplit as (v & [= -> ->] & Hv).
    destruct (write_cell_paint rows cols piece (Z.of_nat i)
                (Z.of_nat (length done)) v _ board0 s Hr Hs)
      as (s' & Hw & Hr'' & Hp''); [intros; by eapply Hcols|].
    exists s'. split; [done|]. split; [done|].
    eapply painted_ext; [|exact Hp'']. intros Y X.
    rewrite length_app. simpl. split.
    + intros [[HS|(j & c & Hj & Hrest)]|(Hne & Hy & Hx & Hrows)].
      * by left.
      * right. exists j, c. split; [lia|done].
      * right. exists (length done), v. split; [lia|done].
    + intros [HS|(j & c & Hj & Hrow & Hc & Hy & Hx & HY)]; [by left; left|].
      destruct (decide (j = length done)) as [->|Hne].
      * right. by simplify_eq.
      * left. right. exists j, c. split; [lia|done].
  - exists b'. split; [done|]. split; [done|].
    eapply painted_ext; [|exact Hp']. intros Y X. split.
    + intros [HS|(j & c & _ & Hrest)]; [by left|]. right. by exists j, c.
    + intros [HS|(j & c & Hrow & Hrest)]; [by left|]. right. exists j, c.
      split; [|done]. unfold Py.enumerate. rewrite length_enumerate_from.
      by eapply lookup_lt_Some.
Qed.

Lemma write_piece_paint (rows cols : Z) (board : Grid) (piece : Tetromino) :
  rectangular rows cols board →
  within_columns cols piece →
  ∃ board',
    write_piece board piece = Ok board'
    ∧ rectangular rows cols board'
    ∧ painted (color piece)
        (λ Y X, covers piece Y X ∧ Z.of_nat Y < rows) board board'.
Proof.
  intros Hrect Hcols.
  destruct (for_each_invariant
    (λ done b,
       rectangular rows cols b
       ∧ painted (color piece)
           (λ Y X, ∃ (i j : nat) cell,
               (i < length done)%nat
               ∧ cell_at (shape piece) i j = Some cell ∧ cell ≠ 0
               ∧ py piece + Z.of_nat i = Z.of_nat Y
               ∧ px piece + Z.of_nat j = Z.of_nat X
               ∧ Z.of_nat Y < rows)
           board b)
    (Py.enumerate (shape piece))
    (λ '(y, row) rows,
       for_each (Py.enumerate row)
         (λ '(x, cell) rows, write_cell piece y x cell rows) rows) board)
    as (b' & Hb' & Hr' & Hp').
  - split; [done|]. intros Y X. split; [|done].
    intros (i & j & c & Hi & _). simpl in Hi. lia.
  - intros done [y row] rest s Hsplit [Hr Hs].
    apply enumerate_split in Hsplit as (v & [= -> ->] & Hv).
    destruct (write_row_paint rows cols piece (length done) v _ board s Hr Hs)
      as (s' & Hw & Hr'' & Hp'').
    { intros j c Hj Hc. apply (Hcols (length done) j c); [|done].
      unfold cell_at. by rewrite Hv. }
    exists s'. split; [done|]. split; [done|].
    eapply painted_ext; [|exact Hp'']. intros Y X.
    rewrite length_app. simpl. split.
    + intros [(i & j & c & Hi & Hrest)|(j & c & Hrow & Hrest)].
      * exists i, j, c. split; [lia|done].
      * exists (length done), j, c. split; [lia|]. split; [|done].
        unfold cell_at. by rewrite Hv.
    + intros (i & j & c & Hi & Hcell & Hrest).
      destruct (decide (i = length done)) as [->|Hne].
      * right. exists j, c. split; [|done].
        unfold cell_at in Hcell. by rewrite Hv in Hcell.
      * left. exists i, j, c. split; [lia|done].
  - exists b'. split; [done|]. split; [done|].
    eapply painted_ext; [|exact Hp']. intros Y X. split.
    + intros (i & j & c & _ & Hcell & Hc & Hy & Hx & HY).
      split; [|done]. by exists i, j, c.
    + intros [(i & j & c & Hcell & Hc & Hy & Hx) HY]. exists i, j, c.
      split; [|done]. unfold Py.enumerate. rewrite length_enumerate_from.
      unfold cell_at in Hcell.
      destruct (shape piece !! i) eqn:Hi; [|done]. by eapply lookup_lt_Some.
Qed.

(** X13. The first phase of [lock_piece] (the same pair of loops writes the
    test grid in [make_move]): when every occupied cell of the piece lies in
    a column of the board, the loops return, the grid stays a board of the
    same size over the same row objects, and a cell of the board holds the
    piece's colour if an occupied cell of the piece lies on it and is
    unchanged otherwise.  Cells of the piece above or below the board are
    dropped, and row objects outside the grid are untouched. *)
Theorem place_cells_paints_piece (rows cols : Z) (h : heap) (g : list loc)
    (board : Grid) (piece : Tetromino) :
  board_ok rows cols h g board →
  within_columns cols piece →
  ∃ h' board',
    place_cells h g piece = Ok h'
    ∧ board_ok rows cols h' g board'
    ∧ length h' = length h
    ∧ (∀ l, l ∉ g → h' !! l = h !! l)
    ∧ ∀ Y X : nat,
        (covers piece Y X → Z.of_nat Y < rows →
         cell_at board' Y X = Some (color piece))
        ∧ (¬ covers piece Y X → cell_at board' Y X = cell_at board Y X).
Proof.
  intros (Hread & Hnodup & Hrect) Hcols.
  destruct (write_piece_paint rows cols board piece Hrect Hcols)
    as (board' & Hw & Hrect' & Hp).
  pose proof (place_cells_live h g board piece Hnodup Hread) as Hlive.
  rewrite Hw in Hlive. destruct Hlive as (h' & Hplace & Hread' & Hlen & Hframe).
  exists h', board'. split; [done|]. split; [done|]. split; [done|].
  split; [done|]. intros Y X. destruct (Hp Y X) as [H1 H2]. split.
  - intros Hc HY. by apply H1.
  - intros Hn. apply H2. by intros [Hc _].
Qed.

Lemma place_cells_paints_piece_witness :
  ∃ h', place_cells narrow_store (grid narrow_player)
          (current_piece narrow_player) = Ok h'
        ∧ read_grid h' (grid narrow_player)
          = Ok [replicate 4 BLACK; replicate 4 CYAN].
Proof.
  destruct (place_cells_paints_piece 2 4 narrow_store (grid narrow_player)
              narrow_store (current_piece narrow_player))
    as (h' & board' & Hplace & _).
  - split; [reflexivity|]. split.
    + apply (NoDup_seq 0 2).
    + split; [reflexivity|]. split; [|reflexivity]. by repeat constructor.
  - intros i j cell Hcell _. unfold cell_at in Hcell.
    destruct i as [|i]; [|by destruct i].
    simpl in Hcell. apply lookup_lt_Some in Hcell. simpl in Hcell.
    simpl. lia.
  - exists h'. split; [exact Hplace|].
    vm_compute in Hplace. injection Hplace as <-. reflexivity.
Defined.


(** ** [lock_piece] on a board of the game *)

Lemma count_full_insert (board : Grid) (k : nat) (r : list Color) :
  (count_full (<[k := r]> board) ≤ S (count_full board))%nat.
Proof.
  unfold count_full. revert k.
  induction board as [|r0 board IH]; intros [|k]; simpl; try lia.
  - rewrite !filter_cons. repeat destruct (decide _); simpl; lia.
  - rewrite !filter_cons. specialize (IH k). destruct (decide _); simpl; lia.
Qed.

Lemma for_each_bounded {A St} (m : St → nat) (l : list A)
    (body : A → St → result St) :
  (∀ a s s', body a s = Ok s' → (m s' ≤ S (m s))%nat) →
  ∀ st st', for_each l body st = Ok st' → (m st' ≤ m st + length l)%nat.
Proof.
  intros Hbody. induction l as [|a l IH]; intros st st' H; simpl in *.
  - injection H as <-. lia.
  - destruct (body a st) as [s1|e] eqn:Hs1; [|done]. simpl in H.
    apply Hbody in Hs1. apply IH in H. lia.
Qed.

(** The cells of one row of the shape all go to one row of the board. *)
Lemma write_row_one_row (piece : Tetromino) (y : Z) (row : list Z)
    (board board' : Grid) :
  for_each (Py.enumerate row)
    (λ '(x, cell) rows, write_cell piece y x cell rows) board = Ok board' →
  board' = board ∨ ∃ r, board' = <[Z.to_nat (py piece + y) := r]> board.
Proof.
  apply (for_each_preserves
           (λ b, b = board ∨ ∃ r, b = <[Z.to_nat (py piece + y) := r]> board));
    [|by left].
  intros [x cell] s s' Hs Hw. unfold write_cell in Hw.
  destruct (truthy cell); [|by injection Hw as <-].
  case_bool_decide; [|by injection Hw as <-].
  inv_ok. right. destruct Hs as [->|[r ->]]; [by eexists|].
  rewrite list_insert_insert_eq. by eexists.
Qed.

Lemma write_piece_count_full (board board' : Grid) (piece : Tetromino) :
  write_piece board piece = Ok board' →
  (count_full board' ≤ count_full board + length (shape piece))%nat.
Proof.
  intros Hw. unfold write_piece in Hw.
  apply (for_each_bounded count_full) in Hw.
  - unfold Py.enumerate in Hw. by rewrite length_enumerate_from in Hw.
  - intros [y row] s s' Hrow.
    apply write_row_one_row in Hrow as [->|[r ->]]; [lia|].
    apply count_full_insert.
Qed.

Lemma count_full_cleared (n cols : nat) (board : Grid) :
  (0 < cols)%nat →
  count_full (replicate n (replicate cols BLACK)
              ++ filter (λ r, row_full r = false) board) = 0%nat.
Proof.
  intros Hcols. unfold count_full. rewrite filter_app, length_app.
  assert (∀ l : Grid, Forall (λ r, row_full r = false) l →
            length (filter (λ r, row_full r = true) l) = 0%nat) as Hnone.
  { induction 1 as [|r l Hr _ IH]; [done|].
    rewrite filter_cons, decide_False by congruence. done. }
  rewrite !Hnone; [done| |].
  - apply Forall_forall. by intros r [Hr _]%list_elem_of_filter.
  - apply Forall_replicate. by apply blank_row_not_full.
Qed.

Lemma line_clear_score_some (n : nat) :
  (n ≤ 4)%nat →
  ∃ gain, line_clear_score n = Some gain ∧ gain ∈ [0; 40; 100; 300; 1200].
Proof.
  intros Hn. destruct n as [|[|[|[|[|n]]]]]; [..|lia];
    eexists; (split; [reflexivity|]); set_solver.
Qed.

(** [lock_piece] keeps the game's board well formed. *)
Lemma lock_piece_well_formed (rows cols : Z) (h : heap)
    (player : TetrisPlayer) (board : Grid) :
  0 < cols →
  board_ok rows cols h (grid player) board →
  count_full board = 0%nat →
  (length (shape (current_piece player)) ≤ 4)%nat →
  within_columns cols (current_piece player) →
  ∃ h' g' board' gain,
    lock_piece h player
    = Ok (h', mkPlayer g' (current_piece player) (game_over player)
                (score player + gain))
    ∧ board_ok rows cols h' g' board'
    ∧ count_full board' = 0%nat
    ∧ gain ∈ [0; 40; 100; 300; 1200]
    ∧ (length h ≤ length h')%nat
    ∧ (∀ l, l ∉ grid player → (l < length h)%nat → h' !! l = h !! l)
    ∧ (∀ l, l ∈ g' → l ∈ grid player ∨ (length h ≤ l)%nat).
Proof.
  intros Hcols Hok Hnone Hshape Hwithin.
  destruct (write_piece_paint rows cols board (current_piece player))
    as (board1 & Hw & _); [apply Hok | done |].
  pose proof (write_piece_count_full _ _ _ Hw) as Hcount.
  destruct (line_clear_score_some (count_full board1)) as (gain & Hgain & Hin);
    [lia|].
  destruct (lock_piece_result rows cols h player board board1 gain Hok Hw Hgain)
    as (h' & g' & Hlock & Hok' & Hlen & Hframe & Hfresh).
  eexists h', g', _, gain. split; [done|]. split; [done|].
  split; [apply count_full_cleared; lia|]. done.
Qed.

(** X14. [lock_piece] keeps the board of the game well formed and never
    raises there: on a board without a full row, for a piece of at most four
    rows whose occupied cells lie in the columns of the board, it returns;
    the grid is again a board of the same size with distinct row objects and
    without a full row, the score does not go down (it grows by 0, 40, 100,
    300 or 1200), and the piece and the lost flag are as before. *)
Theorem lock_piece_keeps_board (rows cols : Z) (h : heap)
    (player : TetrisPlayer) (board : Grid) :
  0 < cols →
  board_ok rows cols h (grid player) board →
  count_full board = 0%nat →
  (length (shape (current_piece player)) ≤ 4)%nat →
  within_columns cols (current_piece player) →
  ∃ h' player' board',
    lock_piece h player = Ok (h', player')
    ∧ board_ok rows cols h' (grid player') board'
    ∧ count_full board' = 0%nat
    ∧ current_piece player' = current_piece player
    ∧ game_over player' = game_over player
    ∧ score player ≤ score player'
    ∧ score player' - score player ∈ [0; 40; 100; 300; 1200].
Proof.
  intros Hcols Hok Hnone Hshape Hwithin.
  destruct (lock_piece_well_formed rows cols h player board
              Hcols Hok Hnone Hshape Hwithin)
    as (h' & g' & board' & gain & Hlock & Hok' & Hnone' & Hgain & _).
  eexists h', _, board'. split; [exact Hlock|]. simpl.
  split; [done|]. split; [done|]. split; [done|]. split; [done|].
  replace (score player + gain - score player) with gain by lia.
  split; [|done]. set_unfold. lia.
Qed.

Lemma lock_piece_keeps_board_witness :
  ∃ h' player',
    lock_piece narrow_store narrow_player = Ok (h', player')
    ∧ score player' = 40.
Proof.
  destruct (lock_piece_keeps_board 2 4 narrow_store narrow_player narrow_store)
    as (h' & player' & board' & Hlock & _).
  - lia.
  - split; [reflexivity|]. split.
    + apply (NoDup_seq 0 2).
    + split; [reflexivity|]. split; [|reflexivity]. by repeat constructor.
  - reflexivity.
  - simpl. lia.
  - intros i j cell Hcell _. unfold cell_at in Hcell.
    destruct i as [|i]; [|by destruct i].
    simpl in Hcell. apply lookup_lt_Some in Hcell. simpl in Hcell.
    simpl. lia.
  - exists h', player'. split; [exact Hlock|].
    vm_compute in Hlock. injection Hlock as _ <-. reflexivity.
Defined.

(** X15. The score table has four entries: when the piece is written and
    five or more rows of the board are full, [lock_piece] raises
    [IndexError] at the lookup of entry [lines_cleared - 1]. *)
Theorem lock_piece_five_rows_raises (rows cols : Z) (h : heap)
    (player : TetrisPlayer) (board board1 : Grid) :
  board_ok rows cols h (grid player) board →
  write_piece board (current_piece player) = Ok board1 →
  (5 ≤ count_full board1)%nat →
  lock_piece h player = Raise IndexError.
Proof.
  intros (Hread & Hnodup & Hrect) Hw Hfive.
  pose proof (place_cells_live h (grid player) board (current_piece player)
                Hnodup Hread) as Hplace.
  rewrite Hw in Hplace.
  destruct Hplace as (h1 & Hplace & Hread1 & _).
  destruct (clear_lines_count h1 (grid player) board1 Hread1)
    as (h2 & live & Hclear).
  unfold lock_piece. rewrite Hplace. cbn [bind]. rewrite Hclear. cbn [bind].
  fold (count_full board1).
  rewrite bool_decide_true by lia.
  unfold Py.getitem, Py.norm_index. simpl length.
  rewrite bool_decide_false by lia. rewrite bool_decide_false by lia. done.
Qed.

Lemma lock_piece_five_rows_raises_witness :
  lock_piece (replicate 5 [CYAN])
    (mkPlayer (seq 0 5) (mkTetromino [[1]] CYAN 0 0) false 0)
  = Raise IndexError.
Proof.
  apply (lock_piece_five_rows_raises 5 1 _ _ (replicate 5 [CYAN])
           (replicate 5 [CYAN])).
  - split; [reflexivity|]. split.
    + apply (NoDup_seq 0 5).
    + split; [reflexivity|]. split; [|reflexivity]. by repeat constructor.
  - reflexivity.
  - vm_compute. lia.
Defined.


(** ** The state of a running game *)

Lemma rotate_shape_small (p : Tetromino) :
  shape_small (shape p) → shape_small (shape (rotate p)).
Proof.
  intros (Hok & Hrows & Hcols). split; [by apply rotate_shape_ok|].
  destruct Hok as [[c Hc] (i & j & cell & Hcell & _)].
  unfold cell_at in Hcell. destruct (shape p !! i) as [row|] eqn:Hrow; [|done].
  simpl in Hcell. apply lookup_lt_Some in Hrow as Hi.
  destruct (quarter_turn (shape p) (length (shape p)) c eq_refl Hc)
    as (Hlen & Hall & _); [lia|].
  assert (c ≤ 4)%nat as Hc4.
  { eapply Forall_lookup_1 in Hc as Hc1; [|exact Hrow].
    eapply Forall_lookup_1 in Hcols as Hc2; [|exact Hrow]. simpl in *. lia. }
  unfold rotate. simpl. split; [lia|].
  eapply Forall_impl; [exact Hall|]. simpl. intros; lia.
Qed.

Lemma rotate_times_shape_small (n : Z) (p : Tetromino) :
  shape_small (shape p) → shape_small (shape (rotate_times n p)).
Proof.
  intros Hp. unfold rotate_times.
  induction (Z.to_nat n) as [|k IH]; simpl; [done|].
  by apply rotate_shape_small.
Qed.

Lemma valid_within_columns (rows cols : Z) (board : Grid) (piece : Tetromino)
    (dx dy : Z) :
  rectangular rows cols board →
  is_valid_move piece dx dy board = Ok true →
  within_columns cols (move dx dy piece).
Proof.
  intros Hrect Hvalid i j cell Hcell Hne.
  destruct (is_valid_move_rectangular rows cols board piece dx dy Hrect)
    as (b & Hb & Hiff).
  rewrite Hvalid in Hb. injection Hb as <-.
  destruct Hiff as [Hfit _].
  destruct (Hfit eq_refl i j cell Hcell Hne) as (Hcol & _). simpl. lia.
Qed.

Lemma within_columns_small (cols : Z) (piece : Tetromino) :
  Forall (λ row, (length row ≤ 4)%nat) (shape piece) →
  0 ≤ px piece → px piece + 4 ≤ cols →
  within_columns cols piece.
Proof.
  intros Hall H0 H4 i j cell Hcell _. unfold cell_at in Hcell.
  destruct (shape piece !! i) as [row|] eqn:Hrow; [|done].
  simpl in Hcell. apply lookup_lt_Some in Hcell.
  eapply Forall_lookup_1 in Hall; [|exact Hrow]. simpl in Hall. lia.
Qed.

Lemma Tetromino_init_piece_ok (draw : nat) :
  ∃ p, Tetromino_init draw = Ok p ∧ piece_ok GRID_COLUMNS p.
Proof.
  unfold Tetromino_init, Py.choice.
  pose proof (Nat.mod_upper_bound draw (length SHAPES)) as Hlt.
  remember (draw `mod` length SHAPES)%nat as k eqn:Hk. clear Hk.
  destruct k as [|[|[|[|[|[|[|k]]]]]]]; [..|simpl in Hlt; lia].
  all: eexists; split; [reflexivity|].
  all: split;
    [split; [split; [eexists; repeat constructor | by exists 0%nat, 1%nat, 1]
            | split; [simpl; lia | repeat constructor; simpl; lia]]|].
  all: apply within_columns_small;
    [repeat constructor; simpl; lia | by vm_compute | by vm_compute].
Qed.

Lemma board_ok_frame (rows cols : Z) (h h' : heap) (g : list loc)
    (board : Grid) :
  board_ok rows cols h g board →
  (∀ l, l ∈ g → h' !! l = h !! l) →
  board_ok rows cols h' g board.
Proof.
  intros (Hread & Hnd & Hrect) Hsame. split; [|done].
  apply read_grid_Ok. apply read_grid_Ok in Hread.
  apply Forall2_same_length_lookup.
  apply Forall2_same_length_lookup in Hread as [Hlen Hall].
  split; [done|]. intros i l r Hl Hr.
  rewrite Hsame by (by eapply list_elem_of_lookup_2). by eapply Hall.
Qed.

Lemma side_ok_frame (h h' : heap) (pl : TetrisPlayer) :
  side_ok h pl →
  (∀ l, l ∈ grid pl → h' !! l = h !! l) →
  side_ok h' pl.
Proof.
  intros [(board & Hok & Hnone) Hpiece] Hsame. split; [|done].
  exists board. split; [|done]. by eapply board_ok_frame.
Qed.

Lemma side_ok_bound (h : heap) (pl : TetrisPlayer) (l : loc) :
  side_ok h pl → l ∈ grid pl → (l < length h)%nat.
Proof.
  intros [(board & (Hread & _) & _) _] Hl.
  apply read_grid_bound in Hread. rewrite Forall_forall in Hread. by apply Hread.
Qed.

Lemma side_ok_app (h ext : heap) (pl : TetrisPlayer) :
  side_ok h pl → side_ok (h ++ ext) pl.
Proof.
  intros Hok. apply (side_ok_frame h); [done|].
  intros l Hl. apply lookup_app_l. by eapply side_ok_bound.
Qed.

(** One side's share of a gravity step. *)
Lemma fall_side_ok (draw : nat) (h : heap) (pl : TetrisPlayer) :
  side_ok h pl →
  ∃ h' pl',
    fall draw h pl = Ok (h', pl')
    ∧ side_ok h' pl'
    ∧ score pl ≤ score pl'
    ∧ (game_over pl = true → game_over pl' = true)
    ∧ (length h ≤ length h')%nat
    ∧ (∀ l, l ∉ grid pl → (l < length h)%nat → h' !! l = h !! l)
    ∧ (∀ l, l ∈ grid pl' → l ∈ grid pl ∨ (length h ≤ l)%nat).
Proof.
  intros [(board & Hok & Hnone) (Hsmall & Hwithin)].
  pose proof Hok as (Hread & Hnd & Hrect).
  unfold fall. rewrite Hread. cbn [bind].
  destruct (is_valid_move_rectangular _ _ board (current_piece pl) 0 1 Hrect)
    as (b & Hb & _).
  rewrite Hb. cbn [bind]. destruct b.
  - eexists h, _. split; [done|]. split.
    + split; [by exists board|]. split; [done|]. simpl.
      by eapply valid_within_columns.
    + simpl. split; [lia|]. split; [done|]. split; [lia|]. split; [done|].
      intros l Hl. by left.
  - destruct (lock_piece_well_formed GRID_ROWS GRID_COLUMNS h pl board)
      as (h' & g' & board' & gain & Hlock & Hok' & Hnone' & Hgain & Hlen
          & Hframe & Hfresh); [done|done|done|apply Hsmall|done|].
    rewrite Hlock. cbn [bind].
    destruct (Tetromino_init_piece_ok draw) as (p & Hp & Hpok).
    rewrite Hp. cbn [bind grid].
    pose proof Hok' as (Hread' & _ & Hrect'). rewrite Hread'. cbn [bind].
    destruct (is_valid_move_rectangular _ _ board' p 0 0 Hrect')
      as (b1 & Hb1 & _).
    rewrite Hb1. cbn [bind]. eexists h', _. split; [done|]. simpl.
    split; [split; [by exists board'|done]|].
    split; [set_unfold; lia|]. split; [intros ->; by destruct b1|]. done.
Qed.

Lemma make_move_side_ok (h : heap) (pl : TetrisPlayer) :
  side_ok h pl →
  ∃ ext pl',
    make_move h pl = Ok (h ++ ext, pl')
    ∧ side_ok (h ++ ext) pl'
    ∧ grid pl' = grid pl
    ∧ game_over pl' = game_over pl
    ∧ score pl' = score pl.
Proof.
  intros Hside. pose proof Hside as [(board & Hok & Hnone) (Hsmall & Hwithin)].
  pose proof Hok as (Hread & Hnd & Hrect).
  destruct (make_move_cases h pl board _ _ Hread Hrect (proj1 Hsmall))
    as (ext & [Hsame|(rot & dx & sc & Hmove & Hcand)]).
  - exists ext, pl. split; [done|]. split; [|done]. by apply side_ok_app.
  - eexists ext, _. split; [exact Hmove|]. split; [|done].
    apply (side_ok_app h ext) in Hside as [Hboard _]. split; [exact Hboard|].
    cbn [current_piece set_piece]. split.
    + simpl. by apply rotate_times_shape_small.
    + rewrite <- start_piece_is_moved_piece.
      apply candidate_accepted in Hcand
        as (_ & temp & _ & _ & _ & _ & Hdrop & Hvalid & _).
      apply drop_keeps in Hdrop as (Hs & _ & Hx).
      intros i j cell Hcell Hne. rewrite <- Hs in Hcell. rewrite <- Hx.
      apply (valid_within_columns _ _ _ _ _ _ Hrect Hvalid i j cell Hcell) in Hne.
      simpl in Hne. lia.
Qed.

Lemma try_move_session_ok (dx dy : Z) (s : Session) :
  session_ok s → ∃ s', try_move dx dy s = Ok s' ∧ session_ok s'.
Proof.
  intros (Hh & Ha & Hdis).
  pose proof Hh as [(board & Hok & Hnone) (Hsmall & Hwithin)].
  pose proof Hok as (Hread & _ & Hrect).
  unfold try_move. cbv zeta. rewrite Hread. cbn [bind].
  destruct (is_valid_move_rectangular _ _ board
              (current_piece (human_player s)) dx dy Hrect)
    as ([|] & Hb & _); rewrite Hb; cbn [bind].
  - eexists. split; [done|]. split; [|split; [exact Ha|exact Hdis]].
    simpl. split; [by exists board|]. split; [done|].
    by eapply valid_within_columns.
  - by exists s.
Qed.

Lemma try_rotate_session_ok (s : Session) :
  session_ok s → ∃ s', try_rotate s = Ok s' ∧ session_ok s'.
Proof.
  intros (Hh & Ha & Hdis).
  pose proof Hh as [(board & Hok & Hnone) (Hsmall & Hwithin)].
  pose proof Hok as (Hread & _ & Hrect).
  unfold try_rotate. cbv zeta. rewrite Hread. cbn [bind].
  destruct (is_valid_move_rectangular _ _ board
              (rotate (current_piece (human_player s))) 0 0 Hrect)
    as ([|] & Hb & _); rewrite Hb; cbn [bind].
  - eexists. split; [done|]. split; [|split; [exact Ha|exact Hdis]].
    simpl. split; [by exists board|]. split; [by apply rotate_shape_small|].
    intros i j cell Hcell Hne.
    pose proof (valid_within_columns _ _ _ _ _ _ Hrect Hb i j cell Hcell Hne)
      as Hcol.
    simpl in Hcol. simpl. lia.
  - by exists s.
Qed.

Lemma control_key_session_ok (key : Key) (s : Session) :
  session_ok s → ∃ s', control_key key s = Ok s' ∧ session_ok s'.
Proof.
  intros Hs. unfold control_key. destruct (paused s); [by exists s|].
  destruct key; try (by exists s);
    try (by apply try_move_session_ok); by apply try_rotate_session_ok.
Qed.

Lemma fresh_rows_spec (n : nat) (width : Z) (h : heap) :
  fresh_rows n width h
  = (h ++ replicate n (replicate (Z.to_nat width) BLACK), seq (length h) n).
Proof.
  revert h. induction n as [|n IH]; intros h; simpl.
  - by rewrite app_nil_r.
  - rewrite IH. rewrite length_app. simpl.
    rewrite <- app_assoc. simpl. do 2 f_equal. f_equal. lia.
Qed.

Lemma blank_side_ok (h ext : heap) (p : Tetromino) (over : bool) (sc : Z) :
  piece_ok GRID_COLUMNS p →
  side_ok (h ++ blank_board ++ ext) (mkPlayer (seq (length h) 20) p over sc).
Proof.
  intros Hp. split; [|done]. exists blank_board. split; [|reflexivity].
  split; [|split; [apply NoDup_seq | apply blank_board_rectangular]].
  cbn [grid]. rewrite app_assoc. apply read_grid_app.
  apply (read_grid_fresh h blank_board).
Qed.

Lemma game_reset_session_ok (rep : Reply) (s : Session) :
  ∃ hp ap,
    game_reset rep s
    = Ok (mkSession (rows_store s ++ blank_board ++ blank_board)
            (mkPlayer (seq (length (rows_store s)) 20) hp false 0)
            (mkPlayer (seq (length (rows_store s) + 20) 20) ap false 0)
            false (paused s))
    ∧ piece_ok GRID_COLUMNS hp ∧ piece_ok GRID_COLUMNS ap
    ∧ session_ok
        (mkSession (rows_store s ++ blank_board ++ blank_board)
           (mkPlayer (seq (length (rows_store s)) 20) hp false 0)
           (mkPlayer (seq (length (rows_store s) + 20) 20) ap false 0)
           false (paused s)).
Proof.
  destruct (Tetromino_init_piece_ok (reset_draw_human rep)) as (hp & Hhp & Hhok).
  destruct (Tetromino_init_piece_ok (reset_draw_ai rep)) as (ap & Hap & Haok).
  exists hp, ap. split; [|split; [done|split; [done|]]].
  - unfold game_reset, player_reset. rewrite !fresh_rows_spec.
    rewrite Hhp. cbn [bind]. rewrite fresh_rows_spec, Hap. cbn [bind].
    rewrite length_app, <- app_assoc. reflexivity.
  - split; [|split]; cbn [rows_store human_player ai_player grid].
    + by apply blank_side_ok.
    + pose proof (blank_side_ok (rows_store s ++ blank_board) [] ap false 0 Haok)
        as Hside.
      rewrite app_nil_r, <- app_assoc, length_app in Hside. exact Hside.
    + intros l Hh Ha. rewrite elem_of_seq in Hh, Ha. lia.
Qed.

Lemma menu_key_session_ok (key : Key) (rep : Reply) (s : Session) :
  session_ok s →
  ∃ r, menu_key key rep s = Ok r ∧ session_ok (flow_state r).
Proof.
  intros Hs. unfold menu_key. destruct key; try (by exists (Next s)).
  - destruct (confirm rep); [by eexists (Return _)|by exists (Next s)].
  - by eexists (Next _).
  - destruct (confirm rep); [|by exists (Next s)].
    destruct (game_reset_session_ok rep s) as (hp & ap & -> & _ & _ & Hok).
    cbn [bind]. by eexists (Next _).
Qed.

Lemma handle_event_session_ok (ev : Event * Reply) (s : Session) :
  session_ok s →
  ∃ r, handle_event ev s = Ok r ∧ session_ok (flow_state r).
Proof.
  intros Hs. unfold handle_event. destruct (fst ev) as [|key|].
  - by exists (Return s).
  - destruct (menu_key_session_ok key (snd ev) s Hs) as ([s1|s1] & -> & Hs1);
      cbn [bind]; [|by eexists (Return _)].
    destruct (control_key_session_ok key s1 Hs1) as (s2 & -> & Hs2).
    cbn [bind]. by exists (Next s2).
  - by exists (Next s).
Qed.

Lemma handle_events_session_ok (evs : list (Event * Reply)) (s : Session) :
  session_ok s →
  ∃ r, handle_events evs s = Ok r ∧ session_ok (flow_state r).
Proof.
  revert s. induction evs as [|ev evs IH]; intros s Hs; simpl.
  - by exists (Next s).
  - destruct (handle_event_session_ok ev s Hs) as ([s1|s1] & -> & Hs1);
      cbn [bind]; [by apply IH | by exists (Return s1)].
Qed.

Lemma gravity_session_ok (inp : TickInput) (s : Session) :
  session_ok s → ∃ s', gravity inp s = Ok s' ∧ session_ok s'.
Proof.
  intros (Hh & Ha & Hdis). unfold gravity.
  destruct (fall_side_ok (draw_human inp) _ _ Hh)
    as (h1 & hp & -> & Hhp & _ & _ & Hlen1 & Hframe1 & Hfresh1).
  cbn [bind].
  assert (side_ok h1 (ai_player s)) as Ha1.
  { apply (side_ok_frame (rows_store s)); [done|]. intros l Hl.
    apply Hframe1; [|exact (side_ok_bound _ _ l Ha Hl)]. intros Hin.
    by apply (Hdis l). }
  assert (∀ l, l ∈ grid hp → l ∉ grid (ai_player s)) as Hdis1.
  { intros l Hl Hin. destruct (Hfresh1 l Hl) as [Hold|Hnew].
    - by apply (Hdis l).
    - pose proof (side_ok_bound _ _ l Ha Hin). lia. }
  destruct (fall_side_ok (draw_ai inp) _ _ Ha1)
    as (h2 & ap & -> & Hap & _ & _ & Hlen2 & Hframe2 & Hfresh2).
  cbn [bind]. eexists. split; [done|]. split; [|split]; simpl.
  - apply (side_ok_frame h1); [done|]. intros l Hl.
    apply Hframe2; [by apply Hdis1 | exact (side_ok_bound _ _ l Hhp Hl)].
  - done.
  - intros l Hl Hin. destruct (Hfresh2 l Hin) as [Hold|Hnew].
    + by apply (Hdis1 l).
    + pose proof (side_ok_bound _ _ l Hhp Hl). lia.
Qed.

(** One pass of the loop returns and keeps the state in order. *)
Lemma tick_session_ok (inp : TickInput) (s : Session) :
  session_ok s →
  ∃ r, tick inp s = Ok r ∧ session_ok (flow_state r).
Proof.
  intros Hs. unfold tick.
  destruct (handle_events_session_ok (events inp) s Hs)
    as ([s1|s1] & -> & Hs1); cbn [bind]; [|by exists (Return s1)].
  destruct (paused s1); [by exists (Next s1)|].
  simpl in Hs1. destruct Hs1 as (Hh & Ha & Hdis).
  destruct (make_move_side_ok _ _ Ha) as (ext & ap & -> & Hap & Hgrid & _).
  cbn [bind].
  assert (session_ok (set_ai (rows_store s1 ++ ext) ap s1)) as Hs2.
  { split; [|split]; simpl; [by apply side_ok_app | done |].
    rewrite Hgrid. exact Hdis. }
  destruct (gravity_due inp).
  - destruct (gravity_session_ok inp _ Hs2) as (s3 & -> & Hs3). cbn [bind].
    destruct (_ || _); by eexists (Next _).
  - cbn [bind]. destruct (_ || _); by eexists (Next _).
Qed.


(** X16. [TetrisGame.reset] returns for every state of the game.  It
    builds two empty boards of GRID_ROWS rows and GRID_COLUMNS cells out of
    forty new row objects, no two of them the same object, and leaves every
    row object that existed before as it was; both sides get a piece of the
    game, are alive with score 0, the loop flag is cleared and the pause
    flag is kept.  The state is in order in the sense of [session_ok]. *)
Theorem game_reset_fresh_boards (rep : Reply) (s : Session) :
  ∃ s',
    game_reset rep s = Ok s'
    ∧ rows_store s' = rows_store s ++ blank_board ++ blank_board
    ∧ read_grid (rows_store s') (grid (human_player s')) = Ok blank_board
    ∧ read_grid (rows_store s') (grid (ai_player s')) = Ok blank_board
    ∧ NoDup (grid (human_player s') ++ grid (ai_player s'))
    ∧ (∀ l, l ∈ grid (human_player s') ++ grid (ai_player s') →
         (length (rows_store s) ≤ l)%nat)
    ∧ sides_alive s'
    ∧ score (human_player s') = 0 ∧ score (ai_player s') = 0
    ∧ session_over s' = false ∧ paused s' = paused s
    ∧ session_ok s'.
Proof.
  destruct (game_reset_session_ok rep s) as (hp & ap & Hreset & _ & _ & Hok).
  eexists. split; [exact Hreset|]. pose proof Hok as Hsession.
  destruct Hok as (Hh & Ha & Hdis). cbn [rows_store human_player ai_player] in *.
  cbn [rows_store human_player ai_player grid score game_over session_over
       paused].
  split; [done|].
  split.
  { rewrite app_assoc. apply read_grid_app, (read_grid_fresh _ blank_board). }
  split.
  { rewrite app_assoc.
    pose proof (read_grid_fresh (rows_store s ++ blank_board) blank_board)
      as Hfresh.
    rewrite length_app in Hfresh. exact Hfresh. }
  split.
  { apply NoDup_app. split; [apply NoDup_seq|]. split; [exact Hdis|].
    apply NoDup_seq. }
  split.
  { intros l [Hl|Hl]%elem_of_app; rewrite elem_of_seq in Hl; lia. }
  split; [by split|]. do 4 (split; [done|]). exact Hsession.
Qed.

(** X17. One side's share of a gravity step (move the piece one row down,
    or lock it, clear the full rows and spawn the next piece) returns on
    every side that is in order and leaves it in order.  The score never
    goes down, a lost side stays lost, and the row objects that are not in
    this side's grid are left as they were. *)
Theorem fall_keeps_side (draw : nat) (h : heap) (pl : TetrisPlayer) :
  side_ok h pl →
  ∃ h' pl',
    fall draw h pl = Ok (h', pl')
    ∧ side_ok h' pl'
    ∧ score pl ≤ score pl'
    ∧ (game_over pl = true → game_over pl' = true)
    ∧ ∀ l, l ∉ grid pl → (l < length h)%nat → h' !! l = h !! l.
Proof.
  intros Hside.
  destruct (fall_side_ok draw h pl Hside)
    as (h' & pl' & Hfall & Hok & Hscore & Hover & _ & Hframe & _).
  by exists h', pl'.
Qed.

Lemma I_piece_ok : piece_ok GRID_COLUMNS I_piece.
Proof.
  split.
  - split; [split; [exists 4%nat; repeat constructor
                   | by exists 0%nat, 0%nat, 1]|].
    split; [simpl; lia | repeat constructor; simpl; lia].
  - apply within_columns_small;
      [repeat constructor; simpl; lia | by vm_compute | by vm_compute].
Qed.

Lemma T_piece_ok : piece_ok GRID_COLUMNS T_piece.
Proof.
  split.
  - split; [apply T_piece_shape_ok|].
    split; [simpl; lia | repeat constructor; simpl; lia].
  - apply within_columns_small;
      [repeat constructor; simpl; lia | by vm_compute | by vm_compute].
Qed.

Lemma fresh_session_ok : session_ok fresh_session.
Proof.
  split; [|split].
  - apply (blank_side_ok [] blank_board I_piece false 0 I_piece_ok).
  - pose proof (blank_side_ok blank_board [] T_piece false 0 T_piece_ok)
      as Hside.
    rewrite app_nil_r in Hside. exact Hside.
  - intros l Hh Ha. cbn [fresh_session human_player ai_player grid] in Hh, Ha.
    rewrite elem_of_seq in Hh, Ha. lia.
Qed.

Lemma fall_keeps_side_witness :
  ∃ h' pl',
    fall 0 (rows_store fresh_session) (human_player fresh_session)
    = Ok (h', pl').
Proof.
  destruct (fall_keeps_side 0 (rows_store fresh_session)
              (human_player fresh_session))
    as (h' & pl' & Hfall & _).
  - apply fresh_session_ok.
  - exists h', pl'. exact Hfall.
Defined.

(** X18. The game loop never raises: started in a state that is in order
    (as [TetrisGame.reset] leaves it), [run] returns for every sequence of
    events, dialog answers, draws and gravity steps fed to its passes, and
    the state it ends in is in order again.  In particular no key, AI
    move, lock or line clear indexes a board or the score table out of
    range. *)
Theorem run_never_raises (inputs : list TickInput) (s : Session) :
  session_ok s →
  ∃ s', run inputs s = Ok s' ∧ session_ok s'.
Proof.
  revert s. induction inputs as [|inp inputs IH]; intros s Hs; simpl.
  - destruct (session_over s); by exists s.
  - destruct (session_over s); [by exists s|].
    destruct (tick_session_ok inp s Hs) as ([s1|s1] & -> & Hs1); cbn [bind].
    + by apply IH.
    + by exists s1.
Qed.

Lemma run_never_raises_witness :
  ∃ s', run [gravity_input; gravity_input] fresh_session = Ok s'.
Proof.
  destruct (run_never_raises [gravity_input; gravity_input] fresh_session)
    as (s' & Hrun & _).
  - apply fresh_session_ok.
  - exists s'. exact Hrun.
Defined.


(** ** The start screen *)

Lemma slice_to_last_append (s u : list N) :
  length u = 1%nat → PyStr.slice_to_last (s ++ u) = s.
Proof.
  intros Hu. unfold PyStr.slice_to_last. rewrite length_app, Hu.
  replace (length s + 1 - 1)%nat with (length s) by lia.
  apply take_app_length.
Qed.

Lemma slice_to_last_length (s : list N) :
  (length (PyStr.slice_to_last s) ≤ length s)%nat.
Proof. unfold PyStr.slice_to_last. rewrite length_take. lia. Qed.

Lemma slice_to_last_empty (s : list N) :
  (if bool_decide (s ≠ []) then PyStr.slice_to_last s else s)
  = PyStr.slice_to_last s.
Proof. case_bool_decide as Hs; [done|]. by destruct s. Qed.

Lemma menu_neighbour_member (d : Z) (sel : string) :
  sel ∈ menu_options → d = 1 ∨ d = -1 →
  ∃ sel', menu_neighbour d sel = Ok sel' ∧ sel' ∈ menu_options.
Proof.
  intros Hsel Hd. unfold menu_options in Hsel.
  apply elem_of_cons in Hsel as [->|Hsel];
    [|apply elem_of_cons in Hsel as [->|Hsel];
      [|apply elem_of_cons in Hsel as [->|Hsel]; [|by apply elem_of_nil in Hsel]]].
  all: destruct Hd as [->| ->]; eexists; (split; [vm_compute; reflexivity|]).
  all: unfold menu_options; set_solver.
Qed.

Lemma after_event_ok (st : StartScreen) :
  start_screen_ok st → start_screen_ok (after_event st).
Proof.
  intros [Hlen Hsel]. unfold after_event.
  destruct (music_pause_toggled st); [|done]. split; [|done]. simpl.
  rewrite slice_to_last_empty.
  pose proof (slice_to_last_length (human_player_name st)). lia.
Qed.

Lemma start_menu_key_ok (key : StartKey) (confirm : bool) (st : StartScreen) :
  start_screen_ok st →
  ∃ r, start_menu_key key confirm st = Ok r
       ∧ match r with
         | Some st' => start_screen_ok st'
         | None => True
         end.
Proof.
  intros Hst. pose proof Hst as [Hlen Hsel]. unfold start_menu_key.
  destruct key; try (by exists (Some st)).
  - destruct confirm; [by exists None | by exists (Some st)].
  - by eexists (Some _).
  - destruct (menu_neighbour_member (-1) _ Hsel) as (sel & -> & Hin);
      [by right|].
    cbn [bind]. by eexists (Some _).
  - destruct (menu_neighbour_member 1 _ Hsel) as (sel & -> & Hin);
      [by left|].
    cbn [bind]. by eexists (Some _).
Qed.

Section start_screen_facts.
Variable isprintable : str → bool.

Lemma name_key_ok (key : StartKey) (unicode : list N) (st : StartScreen) :
  (length unicode ≤ 1)%nat → start_screen_ok st →
  start_flow_ok (name_key isprintable key unicode st).
Proof.
  intros Hu Hst. pose proof Hst as [Hlen Hsel]. unfold name_key. cbv zeta.
  case_bool_decide as Hplay; [|done].
  destruct (is_return key && _) eqn:Hret.
  { apply andb_prop in Hret as [_ Hname].
    apply bool_decide_eq_true in Hname. by split. }
  destruct (is_backspace key).
  { split; [|done]. simpl.
    pose proof (slice_to_last_length (human_player_name st)). lia. }
  destruct (bool_decide _ && _) eqn:Htype; [|done].
  apply andb_prop in Htype as [Hshort _].
  apply bool_decide_eq_true in Hshort. unfold PyStr.len in Hshort.
  split; [|done]. simpl. rewrite length_app. lia.
Qed.

Lemma start_event_ok (ev : StartEvent) (st : StartScreen) :
  one_character ev → start_screen_ok st →
  ∃ r, start_event isprintable ev st = Ok r ∧ start_flow_ok r.
Proof.
  intros Hev Hst. destruct ev as [|key unicode confirm|]; simpl.
  - by exists Leave.
  - destruct (start_menu_key_ok key confirm st Hst) as ([st1|] & -> & Hst1);
      cbn [bind]; [|by exists Leave].
    pose proof (name_key_ok key unicode st1 Hev Hst1) as Hname.
    destruct (name_key isprintable key unicode st1) as [st2| |username].
    + eexists. split; [done|]. by apply after_event_ok.
    + by exists Leave.
    + by eexists.
  - eexists. split; [done|]. by apply after_event_ok.
Qed.

Lemma start_events_ok (evs : list StartEvent) (st : StartScreen) :
  Forall one_character evs → start_screen_ok st →
  ∃ r, start_events isprintable evs st = Ok r ∧ start_flow_ok r.
Proof.
  intros Hevs. revert st.
  induction Hevs as [|ev evs Hev _ IH]; intros st Hst; simpl.
  - by exists (Stay st).
  - destruct (start_event_ok ev st Hev Hst) as ([st1| |username] & -> & Hr);
      cbn [bind]; [by apply IH | by exists Leave | by eexists].
Qed.

Lemma start_pass_ok (evs : list StartEvent) (st : StartScreen) :
  Forall one_character evs → start_screen_ok st →
  ∃ r, start_pass isprintable evs st = Ok r ∧ start_flow_ok r.
Proof.
  intros Hevs Hst. unfold start_pass.
  destruct (start_events_ok evs st Hevs Hst) as ([st1| |username] & -> & Hr);
    cbn [bind]; [|by exists Leave | by eexists].
  eexists. split; [done|]. destruct Hr as [Hlen Hsel]. split; [|done].
  cbn [set_name human_player_name]. unfold PyStr.slice_to.
  rewrite length_take. lia.
Qed.

Lemma start_passes_ok (passes : list (list StartEvent)) (st : StartScreen) :
  Forall (Forall one_character) passes → start_screen_ok st →
  ∃ r, start_passes isprintable passes st = Ok r ∧ start_flow_ok r.
Proof.
  intros Hpasses. revert st.
  induction Hpasses as [|evs passes Hevs _ IH]; intros st Hst; simpl.
  - by exists (Stay st).
  - destruct (start_pass_ok evs st Hevs Hst) as ([st1| |username] & -> & Hr);
      cbn [bind]; [by apply IH | by exists Leave | by eexists].
Qed.

(** X19. The start screen never raises and hands on a usable name: when
    every key event carries at most one character (of any script, a
    character being one code point), [show_start_screen] returns for all
    events and dialog answers, whatever [isprintable] says;
    if it starts the game, the username it stores is not empty and has at
    most 12 characters, and while the screen stays open the name has at
    most 12 characters and the selected entry is one of the menu. *)
Theorem show_start_screen_username (passes : list (list StartEvent)) :
  Forall (Forall one_character) passes →
  ∃ r, show_start_screen isprintable passes = Ok r
       ∧ match r with
         | Stay st =>
             (length (human_player_name st) ≤ 12)%nat
             ∧ selected_menu st ∈ menu_options
         | Leave => True
         | Start username =>
             username ≠ [] ∧ (length username ≤ 12)%nat
         end.
Proof.
  intros Hpasses. unfold show_start_screen.
  destruct (start_passes_ok passes (mkStartScreen [] "Play" false false)
              Hpasses) as (r & Hr & Hok).
  - split; [simpl; lia|]. unfold menu_options. set_solver.
  - exists r. split; [done|]. by destruct r.
Qed.

(** X20. The SPACE key, meant to mute the music, also edits the name: the
    event returns to the loop with the music flag flipped and the same menu
    entry, and the name is unchanged only if "Play" is selected and the
    name has fewer than 12 characters (the space is typed and taken off
    again); otherwise, with a full name or another entry selected, the
    name loses its last character. *)
Theorem space_key_effect (unicode : list N) (confirm : bool)
    (st : StartScreen) :
  length unicode = 1%nat → isprintable unicode = true →
  ∃ st',
    start_event isprintable (SE_KEYDOWN SK_SPACE unicode confirm) st
    = Ok (Stay st')
    ∧ selected_menu st' = selected_menu st
    ∧ music_paused st' = negb (music_paused st)
    ∧ music_pause_toggled st' = false
    ∧ human_player_name st'
      = if bool_decide (selected_menu st = "Play"
                        ∧ PyStr.len (human_player_name st) < 12)
        then human_player_name st
        else PyStr.slice_to_last (human_player_name st).
Proof.
  intros Hu Hprint. unfold start_event, start_menu_key. cbn [bind].
  unfold name_key. cbv zeta.
  cbn [set_toggled selected_menu human_player_name is_return is_backspace
       andb].
  rewrite Hprint, andb_true_r.
  destruct (bool_decide (selected_menu st = "Play")) eqn:Hplay;
    [destruct (bool_decide (PyStr.len (human_player_name st) < 12)) eqn:Hshort|].
  - eexists. split; [done|]. unfold after_event. simpl.
    split; [done|]. split; [done|]. split; [done|].
    rewrite slice_to_last_empty, slice_to_last_append by done.
    apply bool_decide_eq_true in Hplay, Hshort.
    by rewrite bool_decide_true.
  - eexists. split; [done|]. unfold after_event. simpl.
    split; [done|]. split; [done|]. split; [done|].
    rewrite slice_to_last_empty.
    apply bool_decide_eq_false in Hshort.
    rewrite bool_decide_false; [done|]. by intros [_ ?].
  - eexists. split; [done|]. unfold after_event. simpl.
    split; [done|]. split; [done|]. split; [done|].
    rewrite slice_to_last_empty.
    apply bool_decide_eq_false in Hplay.
    rewrite bool_decide_false; [done|]. by intros [? _].
Qed.

End start_screen_facts.

Lemma show_start_screen_username_witness :
  ∃ r, show_start_screen (λ _, true)
         [replicate 7 (SE_KEYDOWN SK_OTHER [233%N] false);
          [SE_KEYDOWN SK_RETURN [13%N] false]]
       = Ok r
       ∧ r = Start (replicate 7 233%N).
Proof.
  destruct (show_start_screen_username (λ _, true)
              [replicate 7 (SE_KEYDOWN SK_OTHER [233%N] false);
               [SE_KEYDOWN SK_RETURN [13%N] false]]) as (r & Hr & _).
  - simpl. repeat constructor.
  - exists r. split; [exact Hr|].
    vm_compute in Hr. injection Hr as <-. reflexivity.
Defined.

Lemma space_key_effect_witness :
  ∃ st',
    start_event (λ _, true) (SE_KEYDOWN SK_SPACE [32%N] false)
      (mkStartScreen (replicate 12 233%N) "Play" false false)
    = Ok (Stay st')
    ∧ human_player_name st' = replicate 11 233%N.
Proof.
  destruct (space_key_effect (λ _, true) [32%N] false
              (mkStartScreen (replicate 12 233%N) "Play" false false))
    as (st' & Hev & _ & _ & _ & Hname).
  - reflexivity.
  - reflexivity.
  - exists st'. split; [exact Hev|]. rewrite Hname. reflexivity.
Defined.


(** ** The pause *)

Lemma handle_event_paused (ev : Event * Reply) (s : Session) :
  paused s = true → inert ev → handle_event ev s = Ok (Next s).
Proof.
  intros Hpaused Hev. unfold handle_event, inert in *.
  destruct (fst ev) as [|key|]; [done| |done].
  destruct key; simpl in *; try done; rewrite ?Hev; cbn [bind];
    unfold control_key; by rewrite Hpaused.
Qed.

Lemma handle_events_paused (evs : list (Event * Reply)) (s : Session) :
  paused s = true → Forall inert evs → handle_events evs s = Ok (Next s).
Proof.
  intros Hpaused. induction 1 as [|ev evs Hev _ IH]; simpl; [done|].
  by rewrite handle_event_paused.
Qed.

(** X21. A paused game stands still: while the pause flag is set, a pass
    of the loop whose events do not quit, restart or toggle the pause hands
    back the state exactly as it was.  The arrow keys are ignored, the AI
    makes no move, and no gravity step is taken even when one is due. *)
Theorem paused_tick_freezes (inp : TickInput) (s : Session) :
  paused s = true → Forall inert (events inp) →
  tick inp s = Ok (Next s).
Proof.
  intros Hpaused Hevs. unfold tick.
  rewrite handle_events_paused by done. cbn [bind]. by rewrite Hpaused.
Qed.

Lemma paused_tick_freezes_witness :
  tick (mkTickInput [(KEYDOWN K_LEFT, mkReply false 0 0);
                     (KEYDOWN K_ESCAPE, mkReply false 0 0)] true 0 0)
       (set_paused true crowded_session)
  = Ok (Next (set_paused true crowded_session)).
Proof.
  apply paused_tick_freezes.
  - reflexivity.
  - repeat constructor.
Defined.


(** ** The score that [make_move] minimises *)










